(** * Version-bits activation state machine (BIP 8 style, height based)

    A shallow embedding of [src/versionbits.cpp]
    ([AbstractThresholdConditionChecker::GetStateFor],
    [GetStateStatisticsFor], [GetStateSinceHeightFor]) together with the
    [TestConditionChecker] and [Blocks] helpers of the fuzz harness, and
    the properties of the engine that follow from the code.

    Conventions.
    - C++ [int] / [int64_t] heights and counters are [Z].  Heights are
      block counts and every sum in the engine is a height plus one or a
      height plus the period; signed overflow is undefined behaviour in
      C++, so no wrap-around exists to be modelled.
    - A [const CBlockIndex*] is an [option CBlockIndex]; [None] is
      [nullptr].  Dereferencing [nullptr] and a failed [assert] are the
      result [None] of the enclosing function.
    - [ThresholdConditionCache] is a [std::map] from block pointers to
      states: a [gmap] keyed by [option CBlockIndex].  A block record is
      identified with its contents (version, height and ancestry).
    - The [params] argument of the engine is only handed on to the virtual
      accessors, so a checker is the record of its accessors at the
      [params] in use. *)

From stdpp Require Import base option list gmap.
From Stdlib Require Import ZArith Lia.

Local Open Scope Z_scope.
Set Warnings "-register-all".

(** ** Data model *)

(** [enum class ThresholdState] *)
Inductive ThresholdState : Type :=
  | DEFINED
  | STARTED
  | MUST_SIGNAL
  | LOCKED_IN
  | ACTIVE
  | FAILED.

#[global] Instance ThresholdState_eq_dec : EqDecision ThresholdState.
Proof. solve_decision. Defined.

(** The fields of [CBlockIndex] the engine reads. *)
Inductive CBlockIndex : Type :=
  mkBlockIndex { nVersion : Z; nHeight : Z; pprev : option CBlockIndex }.

(** Structural induction through the [pprev] pointer. *)
Fixpoint CBlockIndex_chain_ind (P : CBlockIndex -> Prop)
    (Hgen : forall v h, P (mkBlockIndex v h None))
    (Hnext : forall v h p, P p -> P (mkBlockIndex v h (Some p)))
    (b : CBlockIndex) : P b :=
  match b with
  | mkBlockIndex v h None => Hgen v h
  | mkBlockIndex v h (Some p) => Hnext v h p (CBlockIndex_chain_ind P Hgen Hnext p)
  end.

(** A block and its ancestors, newest first, as (version, height) pairs:
    the identity of a block record. *)
Fixpoint block_contents (b : CBlockIndex) : list (Z * Z) :=
  match b with
  | mkBlockIndex v h None => [(v, h)]
  | mkBlockIndex v h (Some p) => (v, h) :: block_contents p
  end.

Fixpoint block_of_contents (l : list (Z * Z)) : option CBlockIndex :=
  match l with
  | [] => None
  | (v, h) :: r => Some (mkBlockIndex v h (block_of_contents r))
  end.

Lemma block_of_contents_inv (b : CBlockIndex) :
  block_of_contents (block_contents b) = Some b.
Proof.
  induction b as [v h | v h p IH] using CBlockIndex_chain_ind; simpl.
  - reflexivity.
  - rewrite IH. reflexivity.
Defined.

Lemma block_contents_inj (a b : CBlockIndex) :
  block_contents a = block_contents b -> a = b.
Proof.
  intros H. apply (f_equal block_of_contents) in H.
  rewrite !block_of_contents_inv in H. congruence.
Defined.

#[global] Instance CBlockIndex_eq_dec : EqDecision CBlockIndex.
Proof.
  intros a b. destruct (decide (block_contents a = block_contents b)) as [E | NE].
  - left. exact (block_contents_inj a b E).
  - right. intros ->. apply NE. reflexivity.
Defined.

#[global] Instance CBlockIndex_countable : Countable CBlockIndex :=
  inj_countable block_contents block_of_contents block_of_contents_inv.

(** [typedef std::map<const CBlockIndex*, ThresholdState> ThresholdConditionCache] *)
Abbreviation ThresholdConditionCache := (gmap (option CBlockIndex) ThresholdState).

(** [struct BIP9Stats] *)
Record BIP9Stats : Type := mkBIP9Stats {
  stats_period : Z;
  stats_threshold : Z;
  stats_elapsed : Z;
  stats_count : Z;
  stats_possible : bool
}.

(** The virtual interface of [AbstractThresholdConditionChecker]. *)
Record AbstractThresholdConditionChecker : Type := mkChecker {
  Condition : CBlockIndex -> bool;
  StartHeight : Z;
  TimeoutHeight : Z;
  LockinOnTimeout : bool;
  MinActivationHeight : Z;
  Period : Z;
  Threshold : Z
}.

(** ** The chain view *)

(** The walk of [GetAncestor] along [pprev] down to the wanted height. *)
Fixpoint GetAncestor_walk (b : CBlockIndex) (height : Z) : option CBlockIndex :=
  if nHeight b =? height then Some b
  else match b with
       | mkBlockIndex _ _ None => None
       | mkBlockIndex _ _ (Some p) => GetAncestor_walk p height
       end.

(** Modelled from the spec: [CBlockIndex::GetAncestor] lives in chain.cpp,
    which is not among the sources.  The chain view answers
    "ancestor-at-height": the block of the wanted height on the [pprev]
    path, and none when the height is negative or above the block's own. *)
Definition GetAncestor (b : CBlockIndex) (height : Z) : option CBlockIndex :=
  if (height >? nHeight b) || (height <? 0) then None
  else GetAncestor_walk b height.

(** ** The threshold engine *)

Section Engine.

(** [Consensus::BIP9Deployment::ALWAYS_ACTIVE] and [NEVER_ACTIVE] are
    declared in consensus/params.h, which is not among the sources: the
    engine is parametrised by the two sentinel values. *)
Variables ALWAYS_ACTIVE NEVER_ACTIVE : Z.

Variable ck : AbstractThresholdConditionChecker.

(** [pindexPrev->GetAncestor(pindexPrev->nHeight - ((pindexPrev->nHeight + 1) % nPeriod))];
    the remainder by a zero period is undefined. *)
Definition period_boundary (b : CBlockIndex) : option (option CBlockIndex) :=
  if Period ck =? 0 then None
  else Some (GetAncestor b (nHeight b - Z.rem (nHeight b + 1) (Period ck))).

(** [pindexPrev->GetAncestor(pindexPrev->nHeight - nPeriod)] *)
Definition previous_period (b : CBlockIndex) : option CBlockIndex :=
  GetAncestor b (nHeight b - Period ck).

(** The first loop of [GetStateFor]: walk backwards in steps of the period
    to a block whose state is known, pushing the blocks visited.  The head
    of [vToCompute] is the back of the vector.  [fuel] bounds the number of
    iterations. *)
Fixpoint walk_back (fuel : nat) (pindexPrev : option CBlockIndex)
    (cache : ThresholdConditionCache) (vToCompute : list CBlockIndex)
    : option (option CBlockIndex * ThresholdConditionCache * list CBlockIndex) :=
  match cache !! pindexPrev with
  | Some _ => Some (pindexPrev, cache, vToCompute)
  | None =>
    match pindexPrev with
    | None => Some (pindexPrev, <[pindexPrev := DEFINED]> cache, vToCompute)
    | Some b =>
      if nHeight b + 1 <? StartHeight ck
      then Some (pindexPrev, <[pindexPrev := DEFINED]> cache, vToCompute)
      else match fuel with
           | O => None
           | S fuel' => walk_back fuel' (previous_period b) cache (b :: vToCompute)
           end
    end
  end.

(** The counting loop of the STARTED case:
    [for (int i = 0; i < nPeriod; i++) { if (Condition(pindexCount)) count++; pindexCount = pindexCount->pprev; }] *)
Fixpoint count_signals (n : nat) (pindexCount : option CBlockIndex) (count : Z)
    : option Z :=
  match n with
  | O => Some count
  | S n' =>
    match pindexCount with
    | None => None
    | Some b =>
      count_signals n' (pprev b) (if Condition ck b then count + 1 else count)
    end
  end.

(** The body of the [switch (state)] for the block [pindexPrev]. *)
Definition next_state (state : ThresholdState) (pindexPrev : CBlockIndex)
    : option ThresholdState :=
  let height := nHeight pindexPrev + 1 in
  match state with
  | DEFINED =>
    if height >=? StartHeight ck then Some STARTED else Some state
  | STARTED =>
    match count_signals (Z.to_nat (Period ck)) (Some pindexPrev) 0 with
    | None => None
    | Some count =>
      if count >=? Threshold ck then Some LOCKED_IN
      else if LockinOnTimeout ck && (height + Period ck >=? TimeoutHeight ck)
      then Some MUST_SIGNAL
      else if height >=? TimeoutHeight ck then Some FAILED
      else Some state
    end
  | MUST_SIGNAL => Some LOCKED_IN
  | LOCKED_IN =>
    if height >=? MinActivationHeight ck then Some ACTIVE else Some state
  | FAILED | ACTIVE => Some state
  end.

(** The second loop of [GetStateFor]: pop the stack, compute each state from
    the previous one and store it. *)
Fixpoint walk_forward (vToCompute : list CBlockIndex) (state : ThresholdState)
    (cache : ThresholdConditionCache)
    : option (ThresholdState * ThresholdConditionCache) :=
  match vToCompute with
  | [] => Some (state, cache)
  | pindexPrev :: rest =>
    match next_state state pindexPrev with
    | None => None
    | Some stateNext =>
      walk_forward rest stateNext (<[Some pindexPrev := stateNext]> cache)
    end
  end.

(** Height of the block that follows [pindexPrev]: the block whose state a
    query with [pindexPrev] computes. *)
Definition next_height (pindexPrev : option CBlockIndex) : Z :=
  match pindexPrev with
  | None => 0
  | Some b => nHeight b + 1
  end.

(** The alignment step of [GetStateFor]; [nullptr] stays [nullptr]. *)
Definition align (pindexPrev : option CBlockIndex) : option (option CBlockIndex) :=
  match pindexPrev with
  | None => Some None
  | Some b => period_boundary b
  end.

(** [AbstractThresholdConditionChecker::GetStateFor].  The first loop
    steps down one period per iteration, so with a positive period it
    runs at most once per block below the aligned [pindexPrev]; that
    number is its fuel ([walk_back_spec] shows it is never used up on a
    well-formed chain).  A missing cache entry after the loop is the
    failed [assert]. *)
Definition GetStateFor (pindexPrev : option CBlockIndex)
    (cache : ThresholdConditionCache)
    : option (ThresholdState * ThresholdConditionCache) :=
  if (StartHeight ck =? NEVER_ACTIVE) && (TimeoutHeight ck =? NEVER_ACTIVE)
  then Some (DEFINED, cache)
  else if StartHeight ck =? ALWAYS_ACTIVE then Some (ACTIVE, cache)
  else
    match align pindexPrev with
    | None => None
    | Some pindexPrev =>
      match walk_back (Z.to_nat (next_height pindexPrev)) pindexPrev cache [] with
      | None => None
      | Some (pindexPrev, cache, vToCompute) =>
        match cache !! pindexPrev with
        | None => None
        | Some state => walk_forward vToCompute state cache
        end
      end
    end.

(** The counting loop of [GetStateStatisticsFor]:
    [while (pindexEndOfPrevPeriod->nHeight != currentIndex->nHeight) { ... currentIndex = currentIndex->pprev; }] *)
Fixpoint count_since_boundary (end_height : Z) (currentIndex : CBlockIndex)
    (count : Z) : option Z :=
  if end_height =? nHeight currentIndex then Some count
  else
    let count := if Condition ck currentIndex then count + 1 else count in
    match currentIndex with
    | mkBlockIndex _ _ None => None
    | mkBlockIndex _ _ (Some p) => count_since_boundary end_height p count
    end.

(** [AbstractThresholdConditionChecker::GetStateStatisticsFor];
    [BIP9Stats stats = {}] zero-initialises every member. *)
Definition GetStateStatisticsFor (pindex : option CBlockIndex) : option BIP9Stats :=
  let stats := mkBIP9Stats (Period ck) (Threshold ck) 0 0 false in
  match pindex with
  | None => Some stats
  | Some b =>
    match period_boundary b with
    | None | Some None => None
    | Some (Some pindexEndOfPrevPeriod) =>
      let elapsed := nHeight b - nHeight pindexEndOfPrevPeriod in
      match count_since_boundary (nHeight pindexEndOfPrevPeriod) b 0 with
      | None => None
      | Some count =>
        Some (mkBIP9Stats (Period ck) (Threshold ck) elapsed count
                (Period ck - Threshold ck >=? elapsed - count))
      end
    end
  end.

(** The loop of [GetStateSinceHeightFor]:
    [while (previousPeriodParent != nullptr && GetStateFor(previousPeriodParent, params, cache) == initialState)] *)
Fixpoint since_walk (fuel : nat) (pindexPrev : CBlockIndex)
    (previousPeriodParent : option CBlockIndex) (initialState : ThresholdState)
    (cache : ThresholdConditionCache)
    : option (CBlockIndex * ThresholdConditionCache) :=
  match previousPeriodParent with
  | None => Some (pindexPrev, cache)
  | Some parent =>
    match GetStateFor previousPeriodParent cache with
    | None => None
    | Some (state, cache) =>
      if decide (state = initialState)
      then match fuel with
           | O => None
           | S fuel' =>
             since_walk fuel' parent (previous_period parent) initialState cache
           end
      else Some (pindexPrev, cache)
    end
  end.

(** [AbstractThresholdConditionChecker::GetStateSinceHeightFor]; the loop
    has the fuel of the first loop of [GetStateFor]. *)
Definition GetStateSinceHeightFor (pindexPrev : option CBlockIndex)
    (cache : ThresholdConditionCache) : option (Z * ThresholdConditionCache) :=
  if StartHeight ck =? ALWAYS_ACTIVE then Some (0, cache)
  else
    match GetStateFor pindexPrev cache with
    | None => None
    | Some (initialState, cache) =>
      if decide (initialState = DEFINED) then Some (0, cache)
      else
        match pindexPrev with
        | None => None
        | Some b =>
          match period_boundary b with
          | None | Some None => None
          | Some (Some pindexPrev) =>
            match since_walk (Z.to_nat (next_height (Some pindexPrev))) pindexPrev
                    (previous_period pindexPrev) initialState cache with
            | None => None
            | Some (pindexPrev, cache) => Some (nHeight pindexPrev + 1, cache)
            end
          end
        end
    end.

End Engine.

(** ** The fuzz harness's checker and block factory *)

(** Modelled from the spec: versionbits.h is not among the sources; the
    spec gives [TOP_MASK = 0xE0000000] and [TOP_BITS = 0x20000000]. *)
Definition VERSIONBITS_TOP_MASK : Z := 0xE0000000.
Definition VERSIONBITS_TOP_BITS : Z := 0x20000000.

(** [TestConditionChecker::Condition(int32_t version)]: on a 32-bit
    two's-complement [version], masking with a non-negative mask is
    [Z.land] on the signed value. *)
Definition TestCondition (m_bit : Z) (version : Z) : bool :=
  let mask := Z.shiftl 1 m_bit in
  (Z.land version VERSIONBITS_TOP_MASK =? VERSIONBITS_TOP_BITS)
  && negb (Z.land version mask =? 0).

(** Modelled from the spec: [VERSIONBITS_NUM_BITS] is declared in
    versionbits.h; the signal bit lives in bits 0..28. *)
Definition VERSIONBITS_NUM_BITS : Z := 29.

(** The assertions of the constructor of [TestConditionChecker]. *)
Definition TestConditionChecker_asserts (period threshold bit : Z) : bool :=
  (period >? 0)
  && ((0 <=? threshold) && (threshold <=? period))
  && ((0 <=? bit) && (bit <? 32) && (bit <? VERSIONBITS_NUM_BITS)).

(** [TestConditionChecker]: the accessors return the constructor's arguments. *)
Definition TestConditionChecker (begin end_ min_act period threshold bit : Z)
    (lockinontimeout : bool) : AbstractThresholdConditionChecker :=
  {| Condition := fun pindex => TestCondition bit (nVersion pindex);
     StartHeight := begin;
     TimeoutHeight := end_;
     LockinOnTimeout := lockinontimeout;
     MinActivationHeight := min_act;
     Period := period;
     Threshold := threshold |}.

(** [class Blocks]: the blocks mined so far, oldest first. *)
Record Blocks : Type := mkBlocks {
  m_blocks : list CBlockIndex;
  m_signal : Z;
  m_no_signal : Z
}.

(** [Blocks::tip] *)
Definition tip (blocks : Blocks) : option CBlockIndex := last (m_blocks blocks).

(** [Blocks::mine_block]: the new block and the blocks after it was appended. *)
Definition mine_block (blocks : Blocks) (signal : bool) : CBlockIndex * Blocks :=
  let current_block :=
    mkBlockIndex (if signal then m_signal blocks else m_no_signal blocks)
                 (Z.of_nat (length (m_blocks blocks)))
                 (tip blocks) in
  (current_block,
   mkBlocks (m_blocks blocks ++ [current_block]) (m_signal blocks) (m_no_signal blocks)).

(** [for (...) blocks.mine_block(signal);] one block per entry of [signals]. *)
Definition mine_blocks (blocks : Blocks) (signals : list bool) : Blocks :=
  foldl (fun blocks signal => snd (mine_block blocks signal)) blocks signals.

(** The harness reads the state and the since-height of the same
    [pindexPrev] through the checker's one cache. *)
Definition query (ALWAYS_ACTIVE NEVER_ACTIVE : Z)
    (checker : AbstractThresholdConditionChecker)
    (pindexPrev : option CBlockIndex) (cache : ThresholdConditionCache)
    : option (ThresholdState * Z * ThresholdConditionCache) :=
  '(state, cache) ← GetStateFor ALWAYS_ACTIVE NEVER_ACTIVE checker pindexPrev cache;
  '(since, cache) ← GetStateSinceHeightFor ALWAYS_ACTIVE NEVER_ACTIVE checker pindexPrev cache;
  Some (state, since, cache).

(** [(signalling_mask >> (b % 32)) & 1], for a [uint32_t] mask and a
    positive [b]. *)
Definition mask_signal (signalling_mask : Z) (b : Z) : bool :=
  negb (Z.land (Z.shiftr signalling_mask (Z.rem b 32)) 1 =? 0).

(** The loop [for (int b = 1; b < period; ++b)] of [test_one_input], as
    far as it chooses the signals, counts them and mines: in a period
    that began MUST_SIGNAL a block is made to signal when the threshold
    would otherwise get out of reach.  [n] is the number of iterations
    left. *)
Fixpoint mine_period_loop (exp_state : ThresholdState)
    (period threshold signalling_mask : Z) (n : nat) (b : Z) (blocks_sig : Z)
    (blocks : Blocks) : Z * Blocks :=
  match n with
  | O => (blocks_sig, blocks)
  | S n' =>
    let signal := mask_signal signalling_mask b in
    let signal :=
      if bool_decide (exp_state = MUST_SIGNAL)
         && (threshold - blocks_sig >=? period - b)
      then true else signal in
    let blocks_sig := if signal then blocks_sig + 1 else blocks_sig in
    let blocks := snd (mine_block blocks signal) in
    mine_period_loop exp_state period threshold signalling_mask n' (b + 1)
      blocks_sig blocks
  end.

(** The final period of [test_one_input]: the loop, then the last block,
    whose signal is the bit [period % 32] of the mask.  The result is
    [blocks_sig] and the blocks mined. *)
Definition mine_final_period (exp_state : ThresholdState)
    (period threshold signalling_mask : Z) (blocks : Blocks) : Z * Blocks :=
  let '(blocks_sig, blocks) :=
    mine_period_loop exp_state period threshold signalling_mask
      (Z.to_nat (period - 1)) 1 0 blocks in
  let signal := mask_signal signalling_mask period in
  (if signal then blocks_sig + 1 else blocks_sig, snd (mine_block blocks signal)).

(** ** The deployments of the consensus parameters *)

(** Modelled from the spec: consensus/params.h is not among the sources.
    A deployment has the fields versionbits.cpp reads from
    [params.vDeployments[id]]. *)
Record BIP9Deployment : Type := mkBIP9Deployment {
  bit : Z;
  startheight : Z;
  timeoutheight : Z;
  threshold : Z;
  m_min_activation_height : Z;
  lockinontimeout : bool
}.

(** Modelled from the spec: the members of [Consensus::Params] that
    versionbits.cpp reads; a [Consensus::DeploymentPos] is an index into
    [vDeployments]. *)
Record Params : Type := mkParams {
  vDeployments : list BIP9Deployment;
  nMinerConfirmationWindow : Z
}.

(** [VersionBitsConditionChecker::Mask]: [((uint32_t)1) << bit], for a
    bit below 32. *)
Definition Mask (deployment : BIP9Deployment) : Z := Z.shiftl 1 (bit deployment).

(** [class VersionBitsConditionChecker]; there is no checker for an index
    outside [vDeployments]. *)
Definition VersionBitsConditionChecker (params : Params) (id : nat)
    : option AbstractThresholdConditionChecker :=
  deployment ← vDeployments params !! id;
  Some {| Condition := fun pindex =>
            (Z.land (nVersion pindex) VERSIONBITS_TOP_MASK =? VERSIONBITS_TOP_BITS)
            && negb (Z.land (nVersion pindex) (Mask deployment) =? 0);
          StartHeight := startheight deployment;
          TimeoutHeight := timeoutheight deployment;
          LockinOnTimeout := lockinontimeout deployment;
          MinActivationHeight := m_min_activation_height deployment;
          Period := nMinerConfirmationWindow params;
          Threshold := threshold deployment |}.

(** Modelled from the spec: [struct VersionBitsCache] of versionbits.h
    holds one cache per deployment slot, [caches[pos]]. *)
Abbreviation VersionBitsCache := (list ThresholdConditionCache).

Section VersionBits.

Variables ALWAYS_ACTIVE NEVER_ACTIVE : Z.

(** [VersionBitsState]; the query writes [cache.caches[pos]] in place. *)
Definition VersionBitsState (pindexPrev : option CBlockIndex) (params : Params)
    (pos : nat) (cache : VersionBitsCache)
    : option (ThresholdState * VersionBitsCache) :=
  checker ← VersionBitsConditionChecker params pos;
  slot ← cache !! pos;
  '(state, slot) ← GetStateFor ALWAYS_ACTIVE NEVER_ACTIVE checker pindexPrev slot;
  Some (state, <[pos := slot]> cache).

(** [VersionBitsStatistics] *)
Definition VersionBitsStatistics (pindexPrev : option CBlockIndex) (params : Params)
    (pos : nat) : option BIP9Stats :=
  checker ← VersionBitsConditionChecker params pos;
  GetStateStatisticsFor checker pindexPrev.

(** [VersionBitsStateSinceHeight] *)
Definition VersionBitsStateSinceHeight (pindexPrev : option CBlockIndex)
    (params : Params) (pos : nat) (cache : VersionBitsCache)
    : option (Z * VersionBitsCache) :=
  checker ← VersionBitsConditionChecker params pos;
  slot ← cache !! pos;
  '(since, slot) ← GetStateSinceHeightFor ALWAYS_ACTIVE NEVER_ACTIVE checker pindexPrev slot;
  Some (since, <[pos := slot]> cache).

End VersionBits.

(** [VersionBitsMask] *)
Definition VersionBitsMask (params : Params) (pos : nat) : option Z :=
  deployment ← vDeployments params !! pos;
  Some (Mask deployment).

(** [VersionBitsCache::Clear]:
    [for (unsigned int d = 0; d < Consensus::MAX_VERSION_BITS_DEPLOYMENTS; d++) caches[d].clear();]
    with the number of deployments as a parameter. *)
Definition Clear (MAX_VERSION_BITS_DEPLOYMENTS : nat) (cache : VersionBitsCache)
    : VersionBitsCache :=
  foldl (fun caches d => <[d := ∅]> caches) cache (seq 0 MAX_VERSION_BITS_DEPLOYMENTS).

(** ** Scenario S1 *)

Definition ver_signal : Z := 0x20000001.
Definition ver_nosignal : Z := 0x20000000.

(** period 32, threshold 28, bit 0, no minimum activation height, no
    lock-in on timeout, start 0, timeout 10000. *)
Definition S1_checker : AbstractThresholdConditionChecker :=
  TestConditionChecker 0 10000 0 32 28 0 false.

(** 32 blocks that do not signal, then the blocks of [second], then the
    blocks of [further]; state and since-height are read after each run
    of blocks (after blocks 31, 63 and 95 when the runs have 32 blocks). *)
Definition S1_scenario (ALWAYS_ACTIVE NEVER_ACTIVE : Z) (second further : list bool)
    : option ((ThresholdState * Z) * (ThresholdState * Z) * (ThresholdState * Z)) :=
  let ask := query ALWAYS_ACTIVE NEVER_ACTIVE S1_checker in
  let blocks := mine_blocks (mkBlocks [] ver_signal ver_nosignal) (replicate 32 false) in
  '(after31, cache) ← ask (tip blocks) ∅;
  let blocks := mine_blocks blocks second in
  '(after63, cache) ← ask (tip blocks) cache;
  let blocks := mine_blocks blocks further in
  '(after95, cache) ← ask (tip blocks) cache;
  Some (after31, after63, after95).

(** The block the harness mines after the run [signals] on an empty chain. *)
Definition mined (signals : list bool) (signal : bool) : CBlockIndex :=
  fst (mine_block (mine_blocks (mkBlocks [] ver_signal ver_nosignal) signals) signal).

(** Blocks 31 and 63 of a chain of scenario S1, with the four blocks of
    the second period that do not signal mined before its last block. *)
Definition block31 : CBlockIndex := mined (replicate 31 false) false.
Definition block63 : CBlockIndex :=
  mined (replicate 32 false ++ replicate 27 true ++ replicate 4 false) true.

Definition block0 : CBlockIndex := mined [] true.
Definition block7 : CBlockIndex := mined (replicate 7 true) true.
Definition block40 : CBlockIndex :=
  mined (replicate 32 false ++ replicate 8 true) false.

(** Blocks 95 and 127 of the chain of [block63] continued with blocks that
    do not signal. *)
Definition block95 : CBlockIndex :=
  mined (replicate 32 false ++ replicate 27 true ++ replicate 4 false ++ [true]
         ++ replicate 31 false) false.
Definition block127 : CBlockIndex :=
  mined (replicate 32 false ++ replicate 27 true ++ replicate 4 false ++ [true]
         ++ replicate 63 false) false.

(** Block 70 of the chain of [block95]. *)
Definition block70 : CBlockIndex :=
  mined (replicate 32 false ++ replicate 27 true ++ replicate 4 false ++ [true]
         ++ replicate 6 false) false.

(** Block 95 of a chain whose first two periods do not signal and whose
    third period signals throughout: a fresh query for it computes three
    states, the last two from STARTED. *)
Definition block95_late : CBlockIndex :=
  mined (replicate 64 false ++ replicate 31 true) true.

(** The cache a fresh checker holds after a state query for block 63. *)
Definition cache63 : ThresholdConditionCache :=
  match GetStateFor (-1) (-2) S1_checker (Some block63) ∅ with
  | Some (_, cache) => cache
  | None => ∅
  end.

(** Number of signalling entries of a run. *)
Definition signals_set (signals : list bool) : Z :=
  Z.of_nat (length (List.filter (fun signal => signal) signals)).

(** ** Well-formed chains *)

(** Heights count the blocks below: the genesis block has height 0 and
    every other block is one above its predecessor, as [mine_block]
    builds them. *)
Fixpoint chain_ok (b : CBlockIndex) : bool :=
  match b with
  | mkBlockIndex _ h None => h =? 0
  | mkBlockIndex _ h (Some p) => (h =? nHeight p + 1) && chain_ok p
  end.

Definition ptr_ok (p : option CBlockIndex) : bool :=
  match p with
  | None => true
  | Some b => chain_ok b
  end.

(** A block followed by its ancestors, walking [pprev]. *)
Fixpoint ancestry (b : CBlockIndex) : list CBlockIndex :=
  match b with
  | mkBlockIndex _ _ None => [b]
  | mkBlockIndex _ _ (Some p) => b :: ancestry p
  end.

(** Number of blocks of a list for which the checker's condition holds. *)
Definition signalling (ck : AbstractThresholdConditionChecker)
    (l : list CBlockIndex) : Z :=
  Z.of_nat (length (List.filter (Condition ck) l)).

(** The blocks of the chain of [b] above height [t]. *)
Definition above (t : Z) (b : CBlockIndex) : list CBlockIndex :=
  List.filter (fun x => t <? nHeight x) (ancestry b).

(** The blocks of the harness form one well-formed chain. *)
Definition blocks_ok (blocks : Blocks) : Prop :=
  ptr_ok (tip blocks) = true
  /\ Z.of_nat (length (m_blocks blocks)) = next_height (tip blocks).

(** ** The state of a period, independently of the cache *)

Section Specification.

Variables ALWAYS_ACTIVE NEVER_ACTIVE : Z.
Variable ck : AbstractThresholdConditionChecker.

(** The pointers the engine computes states at: [nullptr] and the last
    blocks of the periods. *)
Definition on_boundary (p : option CBlockIndex) : Prop :=
  match p with
  | None => True
  | Some b => chain_ok b = true /\ Z.rem (nHeight b + 1) (Period ck) = 0
  end.

(** The state of the period that follows a boundary pointer: [DEFINED]
    at [nullptr], and one transition of the switch per period above. *)
Inductive period_state : option CBlockIndex -> ThresholdState -> Prop :=
  | period_state_genesis : period_state None DEFINED
  | period_state_next (b : CBlockIndex) (state stateNext : ThresholdState) :
      period_state (previous_period ck b) state ->
      next_state ck state b = Some stateNext ->
      period_state (Some b) stateNext.

(** Every entry of the cache is the state of its key. *)
Definition cache_ok (cache : ThresholdConditionCache) : Prop :=
  forall p state, cache !! p = Some state -> period_state p state.

(** [vToCompute] after the first loop: consecutive period boundaries from
    just above [from] up to [to]. *)
Fixpoint linked (from : option CBlockIndex) (v : list CBlockIndex)
    (to : option CBlockIndex) : Prop :=
  match v with
  | [] => from = to
  | b :: rest => previous_period ck b = from /\ on_boundary (Some b)
                 /\ linked (Some b) rest to
  end.

Definition ancestry_of (p : option CBlockIndex) : list CBlockIndex :=
  match p with
  | None => []
  | Some b => ancestry b
  end.

(** The engine is started neither by the never-active nor by the
    always-active shortcut. *)
Definition ordinary_deployment : Prop :=
  (StartHeight ck =? NEVER_ACTIVE) && (TimeoutHeight ck =? NEVER_ACTIVE) = false
  /\ (StartHeight ck =? ALWAYS_ACTIVE) = false.

(** The period that follows the boundary pointer [P] is the first one in
    its state: there is no period before it, or the period before it has
    another state. *)
Definition first_period_in_state (P : option CBlockIndex)
    (cache : ThresholdConditionCache) : Prop :=
  match P with
  | None => True
  | Some b =>
    fst <$> GetStateFor ALWAYS_ACTIVE NEVER_ACTIVE ck (previous_period ck b) cache
    <> fst <$> GetStateFor ALWAYS_ACTIVE NEVER_ACTIVE ck P cache
  end.

(** The caches the engine builds: the empty cache, and the cache left by
    a state or since-height query, for a block of a well-formed chain or
    for [nullptr], on such a cache. *)
Inductive engine_cache : ThresholdConditionCache -> Prop :=
  | engine_cache_empty : engine_cache ∅
  | engine_cache_state (p : option CBlockIndex) (cache : ThresholdConditionCache)
      (state : ThresholdState) (cache' : ThresholdConditionCache) :
      engine_cache cache -> ptr_ok p = true ->
      GetStateFor ALWAYS_ACTIVE NEVER_ACTIVE ck p cache = Some (state, cache') ->
      engine_cache cache'
  | engine_cache_since (p : option CBlockIndex) (cache : ThresholdConditionCache)
      (since : Z) (cache' : ThresholdConditionCache) :
      engine_cache cache -> ptr_ok p = true ->
      GetStateSinceHeightFor ALWAYS_ACTIVE NEVER_ACTIVE ck p cache
      = Some (since, cache') ->
      engine_cache cache'.

(** [state_run init b first]: walking back from the boundary block [b] in
    steps of one period, [first] is the last block before a period whose
    state is not [init] (or before which there is no period). *)
Inductive state_run (init : ThresholdState) : CBlockIndex -> CBlockIndex -> Prop :=
  | state_run_stop (b : CBlockIndex) :
      ~ period_state (previous_period ck b) init -> state_run init b b
  | state_run_back (b a first : CBlockIndex) :
      previous_period ck b = Some a -> period_state (Some a) init ->
      state_run init a first -> state_run init b first.

End Specification.

(** ** Facts about the chain view *)

Lemma chain_ok_height (b : CBlockIndex) : chain_ok b = true -> 0 <= nHeight b.
Proof.
  induction b as [v h | v h p IH] using CBlockIndex_chain_ind; simpl; intros H.
  - lia.
  - apply andb_prop in H as [Hh Hp]. specialize (IH Hp). lia.
Qed.

Lemma chain_ok_pprev (b p : CBlockIndex) :
  chain_ok b = true -> pprev b = Some p ->
  chain_ok p = true /\ nHeight b = nHeight p + 1.
Proof.
  destruct b as [v h [q|]]; simpl; intros H E; [|discriminate].
  injection E as ->. apply andb_prop in H as [Hh Hp]. split; [done | lia].
Qed.

Lemma chain_ok_genesis (b : CBlockIndex) :
  chain_ok b = true -> pprev b = None -> nHeight b = 0.
Proof. destruct b as [v h [q|]]; simpl; intros H E; [discriminate | lia]. Qed.

Lemma GetAncestor_walk_height (b a : CBlockIndex) (t : Z) :
  GetAncestor_walk b t = Some a -> nHeight a = t.
Proof.
  induction b as [v h | v h p IH] using CBlockIndex_chain_ind; simpl.
  - destruct (Z.eqb_spec h t); [|discriminate]. intros [= <-]. done.
  - destruct (Z.eqb_spec h t); [intros [= <-]; done | apply IH].
Qed.

Lemma GetAncestor_walk_ok (b a : CBlockIndex) (t : Z) :
  chain_ok b = true -> GetAncestor_walk b t = Some a -> chain_ok a = true.
Proof.
  induction b as [v h | v h p IH] using CBlockIndex_chain_ind; simpl.
  - intros Hb. destruct (Z.eqb_spec h t); [|discriminate]. intros [= <-]. done.
  - intros Hb. destruct (Z.eqb_spec h t); [intros [= <-]; done|].
    apply andb_prop in Hb as [_ Hp]. apply IH, Hp.
Qed.

Lemma GetAncestor_walk_total (b : CBlockIndex) (t : Z) :
  chain_ok b = true -> 0 <= t <= nHeight b ->
  exists a, GetAncestor_walk b t = Some a.
Proof.
  induction b as [v h | v h p IH] using CBlockIndex_chain_ind; simpl; intros Hb Ht.
  - destruct (Z.eqb_spec h t); [eauto | lia].
  - destruct (Z.eqb_spec h t); [eauto|].
    apply andb_prop in Hb as [Hh Hp]. apply IH; [done | lia].
Qed.

Lemma GetAncestor_Some (b a : CBlockIndex) (t : Z) :
  GetAncestor b t = Some a -> nHeight a = t /\ 0 <= t <= nHeight b.
Proof.
  unfold GetAncestor.
  destruct (Z.gtb_spec t (nHeight b)); simpl; [discriminate|].
  destruct (Z.ltb_spec t 0); [discriminate|].
  intros Hw. split; [eapply GetAncestor_walk_height, Hw | lia].
Qed.

Lemma GetAncestor_ok (b a : CBlockIndex) (t : Z) :
  chain_ok b = true -> GetAncestor b t = Some a -> chain_ok a = true.
Proof.
  unfold GetAncestor.
  destruct ((t >? nHeight b) || (t <? 0)); [discriminate|].
  apply GetAncestor_walk_ok.
Qed.

Lemma GetAncestor_None (b : CBlockIndex) (t : Z) :
  chain_ok b = true -> GetAncestor b t = None -> t < 0 \/ nHeight b < t.
Proof.
  unfold GetAncestor. intros Hb.
  destruct (Z.gtb_spec t (nHeight b)); simpl; [lia|].
  destruct (Z.ltb_spec t 0); [lia|].
  destruct (GetAncestor_walk_total b t Hb) as [a ->]; [lia | discriminate].
Qed.

Lemma GetAncestor_self (b : CBlockIndex) :
  0 <= nHeight b -> GetAncestor b (nHeight b) = Some b.
Proof.
  intros Hb. unfold GetAncestor.
  destruct (Z.gtb_spec (nHeight b) (nHeight b)); [lia|].
  destruct (Z.ltb_spec (nHeight b) 0); [lia|]. simpl.
  destruct b as [v h [p|]]; simpl; rewrite Z.eqb_refl; done.
Qed.

Lemma ancestry_length (b : CBlockIndex) :
  chain_ok b = true -> Z.of_nat (length (ancestry b)) = nHeight b + 1.
Proof.
  induction b as [v h | v h p IH] using CBlockIndex_chain_ind; simpl; intros H.
  - lia.
  - apply andb_prop in H as [Hh Hp]. specialize (IH Hp). lia.
Qed.

Lemma ancestry_unfold (b : CBlockIndex) :
  ancestry b = b :: match pprev b with None => [] | Some p => ancestry p end.
Proof. destruct b as [v h [p|]]; done. Qed.

(** ** The engine computes the state of the period *)

Section Semantics.

Variables ALWAYS_ACTIVE NEVER_ACTIVE : Z.
Variable ck : AbstractThresholdConditionChecker.

Hypothesis period_pos : 0 < Period ck.

Lemma rem_zero_multiple (x : Z) :
  Z.rem x (Period ck) = 0 <-> exists q, x = q * Period ck.
Proof. apply Z.rem_divide. lia. Qed.

Lemma boundary_height (b : CBlockIndex) :
  on_boundary ck (Some b) -> Period ck <= nHeight b + 1.
Proof.
  intros [Hb Hr]. apply chain_ok_height in Hb.
  apply rem_zero_multiple in Hr as [q Hq].
  assert (0 < q) by nia. nia.
Qed.

Lemma period_boundary_spec (b : CBlockIndex) :
  chain_ok b = true ->
  exists P, period_boundary ck b = Some P /\ on_boundary ck P
            /\ next_height P = nHeight b + 1 - Z.rem (nHeight b + 1) (Period ck).
Proof.
  intros Hb. pose proof (chain_ok_height b Hb) as Hh.
  unfold period_boundary.
  destruct (Z.eqb_spec (Period ck) 0) as [|_]; [lia|].
  pose proof (Z.rem_bound_pos (nHeight b + 1) (Period ck)) as Hr.
  pose proof (Z.quot_rem' (nHeight b + 1) (Period ck)) as Hq.
  set (r := Z.rem (nHeight b + 1) (Period ck)) in *.
  assert (r <= nHeight b + 1).
  { assert (0 <= (nHeight b + 1) ÷ Period ck) by (apply Z.quot_pos; lia). nia. }
  eexists; split; [reflexivity|].
  destruct (GetAncestor b (nHeight b - r)) as [a|] eqn:Ea.
  - pose proof (GetAncestor_ok _ _ _ Hb Ea) as Ha.
    apply GetAncestor_Some in Ea as [Eh _].
    split; [split; [done|] | simpl; lia].
    apply rem_zero_multiple. exists ((nHeight b + 1) ÷ Period ck). lia.
  - apply GetAncestor_None in Ea; [|done]. split; [done | simpl; lia].
Qed.

Lemma previous_period_spec (b : CBlockIndex) :
  on_boundary ck (Some b) ->
  on_boundary ck (previous_period ck b)
  /\ next_height (previous_period ck b) = nHeight b + 1 - Period ck.
Proof.
  intros Hb. pose proof (boundary_height b Hb) as Hge.
  destruct Hb as [Hb Hr]. unfold previous_period.
  destruct (GetAncestor b (nHeight b - Period ck)) as [a|] eqn:Ea.
  - pose proof (GetAncestor_ok _ _ _ Hb Ea) as Ha.
    apply GetAncestor_Some in Ea as [Eh _].
    split; [split; [done|] | simpl; lia].
    apply rem_zero_multiple in Hr as [q Hq].
    apply rem_zero_multiple. exists (q - 1). lia.
  - apply GetAncestor_None in Ea; [|done]. split; [done | simpl; lia].
Qed.

Lemma boundary_multiple (p : option CBlockIndex) :
  on_boundary ck p -> exists q, next_height p = q * Period ck /\ 0 <= q.
Proof.
  destruct p as [b|]; simpl.
  - intros Hb. pose proof (boundary_height b Hb) as Hge. destruct Hb as [_ Hr].
    apply rem_zero_multiple in Hr as [q Hq]. exists q. split; [done | nia].
  - intros _. exists 0. lia.
Qed.

(** *** The counting loop *)

Lemma signalling_cons (b : CBlockIndex) (l : list CBlockIndex) :
  signalling ck (b :: l) = (if Condition ck b then 1 else 0) + signalling ck l.
Proof.
  unfold signalling. simpl. destruct (Condition ck b); simpl; lia.
Qed.

Lemma count_signals_spec (n : nat) :
  forall (p : option CBlockIndex) (count : Z),
    (n <= length (ancestry_of p))%nat ->
    count_signals ck n p count
    = Some (count + signalling ck (take n (ancestry_of p))).
Proof.
  induction n as [|n IH]; intros p count Hlen; simpl.
  - unfold signalling. simpl. f_equal. lia.
  - destruct p as [b|]; simpl in *; [|lia].
    rewrite ancestry_unfold in Hlen |- *. simpl in Hlen.
    rewrite firstn_cons, signalling_cons.
    rewrite (IH (pprev b)).
    + destruct (pprev b), (Condition ck b); simpl; f_equal; lia.
    + destruct (pprev b); simpl in *; lia.
Qed.

Lemma count_signals_boundary (b : CBlockIndex) :
  on_boundary ck (Some b) ->
  count_signals ck (Z.to_nat (Period ck)) (Some b) 0
  = Some (signalling ck (take (Z.to_nat (Period ck)) (ancestry b))).
Proof.
  intros Hb. rewrite count_signals_spec; [done|]. simpl.
  pose proof (boundary_height b Hb). destruct Hb as [Hb _].
  apply ancestry_length in Hb. lia.
Qed.

Lemma next_state_total (state : ThresholdState) (b : CBlockIndex) :
  on_boundary ck (Some b) -> exists stateNext, next_state ck state b = Some stateNext.
Proof.
  intros Hb. unfold next_state.
  rewrite (count_signals_boundary b Hb).
  destruct state; repeat case_match; eauto.
Qed.

(** *** Determinism *)

Lemma period_state_det (p : option CBlockIndex) (s1 s2 : ThresholdState) :
  period_state ck p s1 -> period_state ck p s2 -> s1 = s2.
Proof.
  intros H1. revert s2.
  induction H1 as [|b st st' _ IH Hn]; intros s2 H2; inversion H2; subst.
  - done.
  - match goal with H : period_state ck (previous_period ck b) _ |- _ =>
      apply IH in H; subst end.
    congruence.
Qed.

Lemma period_state_nullptr (state : ThresholdState) :
  period_state ck None state -> state = DEFINED.
Proof. inversion 1; done. Qed.

(** The shortcut of the first loop is sound: before the start height every
    period is DEFINED. *)
Lemma before_start_defined (n : nat) :
  forall b, on_boundary ck (Some b) -> nHeight b < Z.of_nat n ->
            nHeight b + 1 < StartHeight ck -> period_state ck (Some b) DEFINED.
Proof.
  induction n as [|n IH]; intros b Hb Hn Hs.
  - destruct Hb as [Hb _]. apply chain_ok_height in Hb. lia.
  - destruct (previous_period_spec b Hb) as [Hp Hh].
    apply period_state_next with (state := DEFINED).
    + destruct (previous_period ck b) as [a|] eqn:Ea; [|constructor].
      simpl in Hh. apply IH; [done | lia | lia].
    + unfold next_state.
      destruct (Z.geb_spec (nHeight b + 1) (StartHeight ck)); [lia | done].
Qed.

(** *** The two loops of [GetStateFor] *)

Lemma cache_ok_empty : cache_ok ck ∅.
Proof. intros p state H. rewrite lookup_empty in H. discriminate. Qed.

Lemma cache_ok_insert (cache : ThresholdConditionCache)
    (p : option CBlockIndex) (state : ThresholdState) :
  cache_ok ck cache -> period_state ck p state -> cache_ok ck (<[p := state]> cache).
Proof.
  intros Hc Hp q st. rewrite lookup_insert.
  case_decide; [intros [= <-]; subst; done | apply Hc].
Qed.

Lemma linked_snoc (v : list CBlockIndex) :
  forall from b, linked ck from v (previous_period ck b) -> on_boundary ck (Some b) ->
                 linked ck from (v ++ [b]) (Some b).
Proof.
  induction v as [|a r IH]; simpl; intros from b Hl Hb.
  - done.
  - destruct Hl as (Ha & Hba & Hr). eauto.
Qed.

Lemma walk_back_spec (fuel : nat) :
  forall (P : option CBlockIndex) (cache : ThresholdConditionCache)
         (v : list CBlockIndex),
    cache_ok ck cache -> on_boundary ck P -> next_height P <= Z.of_nat fuel ->
    exists P' cache' v0 state,
      walk_back ck fuel P cache v = Some (P', cache', v0 ++ v)
      /\ cache' !! P' = Some state /\ cache_ok ck cache' /\ linked ck P' v0 P.
Proof.
  induction fuel as [|fuel IH]; intros P cache v Hc HP Hfuel.
  - simpl. destruct (cache !! P) as [st|] eqn:E.
    + exists P, cache, [], st. done.
    + destruct P as [b|].
      * destruct HP as [Hb _]. apply chain_ok_height in Hb. simpl in Hfuel. lia.
      * exists None, (<[None := DEFINED]> cache), [], DEFINED.
        split; [done|]. split; [apply lookup_insert_eq|].
        split; [|done]. apply cache_ok_insert; [done | constructor].
  - simpl. destruct (cache !! P) as [st|] eqn:E.
    + exists P, cache, [], st. done.
    + destruct P as [b|].
      * destruct (Z.ltb_spec (nHeight b + 1) (StartHeight ck)) as [Hlt|Hge].
        -- exists (Some b), (<[Some b := DEFINED]> cache), [], DEFINED.
           split; [done|]. split; [apply lookup_insert_eq|].
           split; [|done]. apply cache_ok_insert; [done|].
           apply (before_start_defined (Z.to_nat (nHeight b + 1))); [done | | done].
           destruct HP as [Hb _]. apply chain_ok_height in Hb. lia.
        -- destruct (previous_period_spec b HP) as [Hp Hh].
           destruct (IH (previous_period ck b) cache (b :: v) Hc Hp)
             as (P' & cache' & v0 & st & Hw & Hl & Hc' & Hlk).
           { rewrite Hh. simpl in Hfuel. lia. }
           exists P', cache', (v0 ++ [b]), st.
           rewrite <- app_assoc. simpl. split; [done|]. split; [done|].
           split; [done|]. apply linked_snoc; done.
      * exists None, (<[None := DEFINED]> cache), [], DEFINED.
        split; [done|]. split; [apply lookup_insert_eq|].
        split; [|done]. apply cache_ok_insert; [done | constructor].
Qed.

Lemma walk_forward_spec (v : list CBlockIndex) :
  forall (from : option CBlockIndex) (state : ThresholdState)
         (cache : ThresholdConditionCache) (to : option CBlockIndex),
    linked ck from v to -> period_state ck from state -> cache_ok ck cache ->
    exists state' cache',
      walk_forward ck v state cache = Some (state', cache')
      /\ period_state ck to state' /\ cache_ok ck cache'.
Proof.
  induction v as [|b r IH]; simpl; intros from state cache to Hl Hs Hc.
  - subst. eauto.
  - destruct Hl as (Hprev & Hb & Hr). subst from.
    destruct (next_state_total state b Hb) as [st' Hn]. rewrite Hn.
    assert (period_state ck (Some b) st') as Hs' by (econstructor; eauto).
    apply (IH (Some b)); [done | done |]. apply cache_ok_insert; done.
Qed.

Lemma align_spec (p : option CBlockIndex) :
  ptr_ok p = true ->
  exists P, align ck p = Some P /\ on_boundary ck P
            /\ 0 <= next_height P <= next_height p
            /\ (next_height p < Period ck -> P = None).
Proof.
  destruct p as [b|]; simpl; intros Hb.
  - destruct (period_boundary_spec b Hb) as (P & HP & Hob & Hh).
    pose proof (chain_ok_height b Hb) as Hge.
    pose proof (Z.rem_bound_pos (nHeight b + 1) (Period ck)) as Hr.
    exists P. split; [done|]. split; [done|].
    destruct (boundary_multiple P Hob) as (q & Hq & Hq0).
    split; [split; [nia | lia]|].
    intros Hsmall. rewrite Z.rem_small in Hh by lia.
    destruct P as [a|]; [|done]. destruct Hob as [Ha _].
    apply chain_ok_height in Ha. simpl in Hh. lia.
  - exists None. simpl. repeat split; lia.
Qed.

Lemma GetStateFor_ordinary (p : option CBlockIndex)
    (cache : ThresholdConditionCache) :
  ordinary_deployment ALWAYS_ACTIVE NEVER_ACTIVE ck -> ptr_ok p = true -> cache_ok ck cache ->
  exists P state cache',
    align ck p = Some P /\ on_boundary ck P
    /\ GetStateFor ALWAYS_ACTIVE NEVER_ACTIVE ck p cache = Some (state, cache')
    /\ period_state ck P state /\ cache_ok ck cache'.
Proof.
  intros [Hnever Halways] Hp Hc. unfold GetStateFor. rewrite Hnever, Halways.
  destruct (align_spec p Hp) as (P & HP & Hob & Hh & _). rewrite HP.
  destruct (walk_back_spec (Z.to_nat (next_height P)) P cache [] Hc Hob)
    as (P' & cache1 & v0 & st & Hw & Hl & Hc1 & Hlk); [lia|].
  rewrite Hw, Hl. rewrite app_nil_r.
  destruct (walk_forward_spec v0 P' st cache1 P Hlk (Hc1 _ _ Hl) Hc1)
    as (st' & cache2 & Hf & Hs & Hc2).
  exists P, st', cache2. done.
Qed.

Lemma align_boundary (b : CBlockIndex) :
  on_boundary ck (Some b) -> align ck (Some b) = Some (Some b).
Proof.
  intros [Hb Hr]. simpl. unfold period_boundary.
  destruct (Z.eqb_spec (Period ck) 0); [lia|].
  rewrite Hr, Z.sub_0_r, GetAncestor_self; [done|].
  apply chain_ok_height, Hb.
Qed.

(** *** The loop of [GetStateSinceHeightFor] *)

Lemma since_walk_spec (fuel : nat) :
  forall (b : CBlockIndex) (init : ThresholdState)
         (cache : ThresholdConditionCache),
    ordinary_deployment ALWAYS_ACTIVE NEVER_ACTIVE ck -> init <> DEFINED ->
    on_boundary ck (Some b) -> cache_ok ck cache ->
    next_height (previous_period ck b) <= Z.of_nat fuel ->
    exists first cache',
      since_walk ALWAYS_ACTIVE NEVER_ACTIVE ck fuel b (previous_period ck b)
        init cache = Some (first, cache')
      /\ cache_ok ck cache' /\ on_boundary ck (Some first)
      /\ nHeight first <= nHeight b
      /\ (~ period_state ck (previous_period ck b) init -> first = b)
      /\ (period_state ck (previous_period ck b) init -> nHeight first < nHeight b).
Proof.
  induction fuel as [|fuel IH]; intros b init cache Hord Hinit Hb Hc Hfuel;
    destruct (previous_period_spec b Hb) as [Hp Hh];
    destruct (previous_period ck b) as [a|] eqn:Ea.
  - destruct Hp as [Ha _]. apply chain_ok_height in Ha. simpl in Hfuel. lia.
  - simpl. exists b, cache.
    split; [done|]. split; [done|]. split; [done|]. split; [lia|].
    split; [done|]. intros Hs. apply period_state_nullptr in Hs. done.
  - simpl.
    destruct (GetStateFor_ordinary (Some a) cache Hord (proj1 Hp) Hc)
      as (P & st & c1 & HP & _ & HG & Hst & Hc1).
    rewrite (align_boundary a Hp) in HP. injection HP as <-.
    simpl in HG. rewrite HG. simpl in Hh.
    destruct (decide (st = init)) as [->|Hne].
    + destruct (IH a init c1 Hord Hinit Hp Hc1)
        as (first & c2 & Hw & Hc2 & Hf & Hle & _).
      { destruct (previous_period_spec a Hp) as [_ Hha]. simpl in Hfuel. lia. }
      exists first, c2.
      split; [done|]. split; [done|]. split; [done|]. split; [lia|].
      split; [|lia]. intros Hn. destruct (Hn Hst).
    + exists b, c1.
      split; [done|]. split; [done|]. split; [done|]. split; [lia|].
      split; [done|]. intros Hs. destruct Hne. eapply period_state_det; eauto.
  - simpl. exists b, cache.
    split; [done|]. split; [done|]. split; [done|]. split; [lia|].
    split; [done|]. intros Hs. apply period_state_nullptr in Hs. done.
Qed.

Lemma GetStateSinceHeightFor_ordinary (p : option CBlockIndex)
    (cache : ThresholdConditionCache) :
  ordinary_deployment ALWAYS_ACTIVE NEVER_ACTIVE ck -> ptr_ok p = true -> cache_ok ck cache ->
  exists P state since cache',
    align ck p = Some P /\ on_boundary ck P /\ period_state ck P state
    /\ GetStateSinceHeightFor ALWAYS_ACTIVE NEVER_ACTIVE ck p cache
       = Some (since, cache')
    /\ cache_ok ck cache'
    /\ (state = DEFINED -> since = 0)
    /\ (state <> DEFINED ->
        exists b first,
          P = Some b /\ since = nHeight first + 1 /\ on_boundary ck (Some first)
          /\ nHeight first <= nHeight b
          /\ (~ period_state ck (previous_period ck b) state -> first = b)
          /\ (period_state ck (previous_period ck b) state ->
              nHeight first < nHeight b)).
Proof.
  intros Hord Hp Hc.
  destruct (GetStateFor_ordinary p cache Hord Hp Hc)
    as (P & st & c1 & HP & Hob & HG & Hst & Hc1).
  unfold GetStateSinceHeightFor. rewrite (proj2 Hord), HG.
  destruct (decide (st = DEFINED)) as [->|Hne].
  { exists P, DEFINED, 0, c1.
    split; [done|]. split; [done|]. split; [done|]. split; [done|].
    split; [done|]. split; done. }
  destruct p as [b0|]; simpl in HP.
  2:{ injection HP as <-. apply period_state_nullptr in Hst. done. }
  rewrite HP. destruct P as [b|].
  2:{ apply period_state_nullptr in Hst. done. }
  destruct (since_walk_spec (Z.to_nat (next_height (Some b))) b st c1 Hord Hne Hob Hc1)
    as (first & c2 & Hw & Hc2 & Hf & Hle & Hfirst & Hlater).
  { destruct (previous_period_spec b Hob) as [_ Hh]. simpl. lia. }
  rewrite Hw.
  exists (Some b), st, (nHeight first + 1), c2.
  split; [done|]. split; [done|]. split; [done|]. split; [done|].
  split; [done|]. split; [done|].
  intros _. exists b, first. done.
Qed.

(** *** Consequences used by the properties below *)

Lemma on_boundary_ptr_ok (P : option CBlockIndex) :
  on_boundary ck P -> ptr_ok P = true.
Proof. destruct P; simpl; [intros [H _]|]; done. Qed.

Lemma align_on_boundary (P : option CBlockIndex) :
  on_boundary ck P -> align ck P = Some P.
Proof. destruct P; [apply align_boundary | done]. Qed.

Lemma GetStateFor_boundary (P : option CBlockIndex)
    (cache : ThresholdConditionCache) :
  ordinary_deployment ALWAYS_ACTIVE NEVER_ACTIVE ck -> on_boundary ck P -> cache_ok ck cache ->
  exists state cache',
    GetStateFor ALWAYS_ACTIVE NEVER_ACTIVE ck P cache = Some (state, cache')
    /\ period_state ck P state /\ cache_ok ck cache'.
Proof.
  intros Hord HP Hc.
  destruct (GetStateFor_ordinary P cache Hord (on_boundary_ptr_ok P HP) Hc)
    as (P' & st & c' & HP' & _ & HG & Hst & Hc').
  rewrite (align_on_boundary P HP) in HP'. injection HP' as <-. eauto.
Qed.

Lemma GetStateFor_align (p P : option CBlockIndex)
    (cache : ThresholdConditionCache) :
  align ck p = Some P -> align ck P = Some P ->
  GetStateFor ALWAYS_ACTIVE NEVER_ACTIVE ck p cache
  = GetStateFor ALWAYS_ACTIVE NEVER_ACTIVE ck P cache.
Proof. intros Hp HP. unfold GetStateFor. rewrite Hp, HP. done. Qed.

Lemma next_state_DEFINED_inv (state : ThresholdState) (b : CBlockIndex) :
  next_state ck state b = Some DEFINED -> state = DEFINED.
Proof.
  unfold next_state. destruct state; repeat case_match; congruence.
Qed.

Lemma next_state_ACTIVE_inv (state : ThresholdState) (b : CBlockIndex) :
  next_state ck state b = Some ACTIVE ->
  state = ACTIVE
  \/ (state = LOCKED_IN /\ MinActivationHeight ck <= nHeight b + 1).
Proof.
  unfold next_state. destruct state; repeat case_match; try congruence.
  - intros _. right. split; [done | lia].
  - intros _. left. done.
Qed.

Lemma next_state_FAILED_inv (state : ThresholdState) (b : CBlockIndex) :
  next_state ck state b = Some FAILED ->
  state = FAILED
  \/ (state = STARTED /\ TimeoutHeight ck <= nHeight b + 1
      /\ LockinOnTimeout ck
         && (nHeight b + 1 + Period ck >=? TimeoutHeight ck) = false).
Proof.
  unfold next_state. destruct state; repeat case_match; try congruence.
  - intros _. right. split; [done|]. split; [lia | done].
  - intros _. left. done.
Qed.

Lemma period_state_active (P : option CBlockIndex) :
  period_state ck P ACTIVE -> on_boundary ck P ->
  MinActivationHeight ck <= next_height P.
Proof.
  remember ACTIVE as st eqn:Est. intros Hs. revert Est.
  induction Hs as [|b st st' Hprev IH Hn]; intros Est Hob; [discriminate|].
  subst st'. destruct (previous_period_spec b Hob) as [Hp Hh]. simpl.
  apply next_state_ACTIVE_inv in Hn as [Hst | [_ Hmin]]; [|done].
  specialize (IH Hst Hp). lia.
Qed.

Lemma period_state_not_failed (P : option CBlockIndex) (state : ThresholdState) :
  LockinOnTimeout ck = true -> period_state ck P state -> state <> FAILED.
Proof.
  intros Hlot Hs.
  induction Hs as [|b st st' Hprev IH Hn]; [done|].
  intros ->. apply next_state_FAILED_inv in Hn as [-> | (_ & Hto & Hms)]; [done|].
  rewrite Hlot in Hms. simpl in Hms.
  destruct (Z.geb_spec (nHeight b + 1 + Period ck) (TimeoutHeight ck)); [done | lia].
Qed.

Lemma period_state_defined_prev (b : CBlockIndex) :
  period_state ck (Some b) DEFINED -> period_state ck (previous_period ck b) DEFINED.
Proof.
  inversion 1 as [|b' st st' Hprev Hn]; subst.
  apply next_state_DEFINED_inv in Hn. subst. done.
Qed.

(** A query at the last block of a period whose state differs from the
    state of the period before. *)
Lemma query_first_period (b : CBlockIndex) (state before : ThresholdState)
    (cache : ThresholdConditionCache) :
  ordinary_deployment ALWAYS_ACTIVE NEVER_ACTIVE ck ->
  on_boundary ck (Some b) -> cache_ok ck cache ->
  period_state ck (previous_period ck b) before ->
  next_state ck before b = Some state ->
  state <> DEFINED -> before <> state ->
  exists cache',
    query ALWAYS_ACTIVE NEVER_ACTIVE ck (Some b) cache
    = Some (state, nHeight b + 1, cache')
    /\ cache_ok ck cache' /\ period_state ck (Some b) state.
Proof.
  intros Hord Hob Hc Hbefore Hnext Hnd Hne.
  assert (period_state ck (Some b) state) as Hst by (econstructor; eauto).
  destruct (GetStateFor_boundary (Some b) cache Hord Hob Hc)
    as (st & c1 & HG & Hst1 & Hc1).
  rewrite (period_state_det _ _ _ Hst1 Hst) in HG.
  destruct (GetStateSinceHeightFor_ordinary (Some b) c1 Hord (proj1 Hob) Hc1)
    as (P & st2 & since & c2 & HP & _ & Hst2 & HS & Hc2 & _ & Hsince).
  rewrite (align_boundary b Hob) in HP. injection HP as <-.
  rewrite (period_state_det _ _ _ Hst2 Hst) in Hsince.
  destruct (Hsince Hnd) as (b' & first & [= <-] & -> & _ & _ & Hfirst & _).
  rewrite Hfirst in HS.
  - exists c2. unfold query. rewrite HG. simpl. rewrite HS. done.
  - intros Hsame. apply Hne. eapply period_state_det; eauto.
Qed.

(** The first loop on any cache, true or not: it ends at a cached pointer
    with the boundary blocks above it on the stack, and neither the fuel
    (once it covers the height) nor the stack it started with matter. *)
Lemma walk_back_any (fuel : nat) :
  forall (P : option CBlockIndex) (cache : ThresholdConditionCache),
    on_boundary ck P -> next_height P <= Z.of_nat fuel ->
    exists P' cache' v0 state,
      (forall fuel' v, next_height P <= Z.of_nat fuel' ->
                       walk_back ck fuel' P cache v = Some (P', cache', v0 ++ v))
      /\ cache' !! P' = Some state /\ linked ck P' v0 P.
Proof.
  induction fuel as [|fuel IH]; intros P cache HP Hfuel.
  - destruct (cache !! P) as [st|] eqn:E.
    { exists P, cache, [], st. split; [|done].
      intros fuel' v _. destruct fuel'; simpl; rewrite E; done. }
    destruct P as [b|].
    + destruct HP as [Hb _]. apply chain_ok_height in Hb. simpl in Hfuel. lia.
    + exists None, (<[None := DEFINED]> cache), [], DEFINED.
      split; [|split; [apply lookup_insert_eq | done]].
      intros fuel' v _. destruct fuel'; simpl; rewrite E; done.
  - destruct (cache !! P) as [st|] eqn:E.
    { exists P, cache, [], st. split; [|done].
      intros fuel' v _. destruct fuel'; simpl; rewrite E; done. }
    destruct P as [b|].
    + destruct (nHeight b + 1 <? StartHeight ck) eqn:Hlt.
      * exists (Some b), (<[Some b := DEFINED]> cache), [], DEFINED.
        split; [|split; [apply lookup_insert_eq | done]].
        intros fuel' v _. destruct fuel'; simpl; rewrite E, Hlt; done.
      * destruct (previous_period_spec b HP) as [Hp Hh].
        destruct (IH (previous_period ck b) cache Hp)
          as (P' & cache' & v0 & st & Hw & Hl & Hlk).
        { rewrite Hh. simpl in Hfuel. lia. }
        exists P', cache', (v0 ++ [b]), st.
        split; [|split; [done | apply linked_snoc; done]].
        intros fuel' v Hfuel'. destruct HP as [Hb _]. apply chain_ok_height in Hb.
        destruct fuel' as [|fuel']; [simpl in Hfuel'; lia|].
        simpl. rewrite E, Hlt. rewrite <- app_assoc. apply Hw.
        rewrite Hh. simpl in Hfuel'. lia.
    + exists None, (<[None := DEFINED]> cache), [], DEFINED.
      split; [|split; [apply lookup_insert_eq | done]].
      intros fuel' v _. destruct fuel'; simpl; rewrite E; done.
Qed.

(** The second loop treats the last block of the stack last, from the state
    the blocks before it led to. *)
Lemma walk_forward_snoc (v : list CBlockIndex) (b : CBlockIndex) :
  forall (state : ThresholdState) (cache : ThresholdConditionCache),
    walk_forward ck (v ++ [b]) state cache
    = match walk_forward ck v state cache with
      | Some (s, c) =>
        match next_state ck s b with
        | Some s' => Some (s', <[Some b := s']> c)
        | None => None
        end
      | None => None
      end.
Proof.
  induction v as [|a r IH]; intros state cache; cbn [app walk_forward].
  - destruct (next_state ck state b); done.
  - destruct (next_state ck state a); [apply IH | done].
Qed.

Lemma walk_forward_total (v : list CBlockIndex) :
  forall (from : option CBlockIndex) (state : ThresholdState)
         (cache : ThresholdConditionCache) (to : option CBlockIndex),
    linked ck from v to ->
    exists state' cache', walk_forward ck v state cache = Some (state', cache').
Proof.
  induction v as [|a r IH]; intros from state cache to Hl; cbn [walk_forward].
  - eauto.
  - destruct Hl as (_ & Ha & Hr).
    destruct (next_state_total state a Ha) as [st' ->]. eapply IH. exact Hr.
Qed.

(** A query for a cached boundary pointer returns the entry. *)
Lemma GetStateFor_hit (P : option CBlockIndex) (cache : ThresholdConditionCache)
    (state : ThresholdState) :
  ordinary_deployment ALWAYS_ACTIVE NEVER_ACTIVE ck -> on_boundary ck P ->
  cache !! P = Some state ->
  GetStateFor ALWAYS_ACTIVE NEVER_ACTIVE ck P cache = Some (state, cache).
Proof.
  intros [Hnever Halways] HP Hhit. unfold GetStateFor.
  rewrite Hnever, Halways, (align_on_boundary P HP).
  destruct (Z.to_nat (next_height P)); simpl; rewrite Hhit; simpl; rewrite Hhit; done.
Qed.

(** The state of a boundary block that the first loop puts on the stack
    is one step of the switch from the state the same cache gives for the
    boundary block one period below, on any cache. *)
Lemma GetStateFor_forward_step (b : CBlockIndex) (cache : ThresholdConditionCache) :
  ordinary_deployment ALWAYS_ACTIVE NEVER_ACTIVE ck -> on_boundary ck (Some b) ->
  cache !! Some b = None -> StartHeight ck <= nHeight b + 1 ->
  exists before cache1 stateNext,
    GetStateFor ALWAYS_ACTIVE NEVER_ACTIVE ck (previous_period ck b) cache
    = Some (before, cache1)
    /\ next_state ck before b = Some stateNext
    /\ GetStateFor ALWAYS_ACTIVE NEVER_ACTIVE ck (Some b) cache
       = Some (stateNext, <[Some b := stateNext]> cache1).
Proof.
  intros [Hnever Halways] Hob Hmiss Hstart.
  destruct (previous_period_spec b Hob) as [Hobp Hh].
  pose proof (chain_ok_height b (proj1 Hob)) as Hheight.
  destruct (walk_back_any (Z.to_nat (next_height (previous_period ck b)))
              (previous_period ck b) cache Hobp)
    as (P' & cache' & v0 & st & Hw & Hl & Hlk); [lia|].
  destruct (walk_forward_total v0 P' st cache' (previous_period ck b) Hlk)
    as (before & cache1 & Hf).
  destruct (next_state_total before b Hob) as [stateNext Hn].
  exists before, cache1, stateNext. split; [|split; [done|]].
  - unfold GetStateFor. rewrite Hnever, Halways, (align_on_boundary _ Hobp).
    rewrite (Hw _ []) by lia. rewrite app_nil_r, Hl. exact Hf.
  - unfold GetStateFor. rewrite Hnever, Halways, (align_boundary b Hob).
    assert (Z.to_nat (next_height (Some b)) = S (Z.to_nat (nHeight b))) as ->
        by (simpl; lia).
    cbn [walk_back]. rewrite Hmiss.
    assert ((nHeight b + 1 <? StartHeight ck) = false) as -> by (apply Z.ltb_ge; lia).
    rewrite (Hw (Z.to_nat (nHeight b)) [b]) by (rewrite Hh; lia).
    rewrite Hl, walk_forward_snoc, Hf, Hn. done.
Qed.

End Semantics.

(** ** Chains mined by the harness *)

Lemma GetAncestor_below (b : CBlockIndex) (t : Z) :
  chain_ok b = true -> t < nHeight b ->
  GetAncestor b t = match pprev b with
                    | None => None
                    | Some p => GetAncestor p t
                    end.
Proof.
  intros Hb Ht. unfold GetAncestor.
  destruct b as [v h [p|]]; simpl in *.
  - apply andb_prop in Hb as [Hh Hp].
    destruct (Z.gtb_spec t h); [lia|]. destruct (Z.gtb_spec t (nHeight p)); [lia|].
    simpl. destruct (Z.ltb_spec t 0); [done|].
    destruct (Z.eqb_spec h t); [lia | done].
  - destruct (Z.gtb_spec t h); [lia|]. simpl.
    destruct (Z.ltb_spec t 0); [done | lia].
Qed.

Lemma blocks_ok_empty (signal no_signal : Z) :
  blocks_ok (mkBlocks [] signal no_signal).
Proof. split; done. Qed.

Lemma mine_block_spec (blocks : Blocks) (signal : bool) :
  blocks_ok blocks ->
  let b := fst (mine_block blocks signal) in
  let blocks' := snd (mine_block blocks signal) in
  tip blocks' = Some b /\ pprev b = tip blocks
  /\ nHeight b = next_height (tip blocks)
  /\ nVersion b = (if signal then m_signal blocks else m_no_signal blocks)
  /\ chain_ok b = true /\ blocks_ok blocks'
  /\ m_signal blocks' = m_signal blocks /\ m_no_signal blocks' = m_no_signal blocks.
Proof.
  intros [Hok Hlen]. simpl.
  assert (chain_ok (mkBlockIndex (if signal then m_signal blocks else m_no_signal blocks)
                      (Z.of_nat (length (m_blocks blocks))) (tip blocks)) = true) as Hb.
  { simpl. destruct (tip blocks) as [p|]; simpl in *.
    - rewrite Hok, andb_true_r. apply Z.eqb_eq. lia.
    - apply Z.eqb_eq. lia. }
  unfold tip at 1. simpl. rewrite last_snoc.
  split; [done|]. split; [done|]. split; [done|]. split; [done|]. split; [done|].
  split; [|done]. split; unfold tip; simpl; rewrite last_snoc; [done|].
  rewrite length_app. simpl. lia.
Qed.

Lemma mine_blocks_snoc (blocks : Blocks) (signals : list bool) (signal : bool) :
  mine_blocks blocks (signals ++ [signal])
  = snd (mine_block (mine_blocks blocks signals) signal).
Proof. unfold mine_blocks. rewrite foldl_app. done. Qed.

Lemma signals_set_snoc (signals : list bool) (signal : bool) :
  signals_set (signals ++ [signal])
  = signals_set signals + (if signal then 1 else 0).
Proof.
  unfold signals_set. rewrite List.filter_app, length_app.
  destruct signal; simpl; lia.
Qed.

(** After mining a run of blocks on top of [blocks]: the chain is well
    formed, the old tip is the ancestor just below the run, and the
    signalling blocks of the run are those mined with [signal = true]. *)
Lemma mine_blocks_spec (ck : AbstractThresholdConditionChecker)
    (blocks : Blocks) (signals : list bool) :
  blocks_ok blocks ->
  (forall b, nVersion b = m_signal blocks -> Condition ck b = true) ->
  (forall b, nVersion b = m_no_signal blocks -> Condition ck b = false) ->
  let blocks' := mine_blocks blocks signals in
  blocks_ok blocks'
  /\ m_signal blocks' = m_signal blocks /\ m_no_signal blocks' = m_no_signal blocks
  /\ next_height (tip blocks') = next_height (tip blocks) + Z.of_nat (length signals)
  /\ (signals <> [] ->
      exists b, tip blocks' = Some b
                /\ GetAncestor b (next_height (tip blocks) - 1) = tip blocks)
  /\ signalling ck (take (length signals) (ancestry_of (tip blocks')))
     = signals_set signals.
Proof.
  intros Hok Hsig Hnosig. simpl.
  induction signals as [|signal signals IH] using rev_ind.
  - simpl. split; [done|]. split; [done|]. split; [done|]. split; [lia|].
    split; [done|]. rewrite take_0. done.
  - destruct IH as (Hok' & Hs & Hn & Hh & Hanc & Hcount).
    rewrite mine_blocks_snoc.
    destruct (mine_block_spec (mine_blocks blocks signals) signal Hok')
      as (Htip & Hprev & Hheight & Hversion & Hchain & Hok'' & Hs' & Hn').
    set (b := fst (mine_block (mine_blocks blocks signals) signal)) in *.
    set (blocks' := snd (mine_block (mine_blocks blocks signals) signal)) in *.
    split; [done|]. split; [congruence|]. split; [congruence|].
    rewrite Htip. change (next_height (Some b)) with (nHeight b + 1).
    rewrite length_app. change (length [signal]) with 1%nat.
    split; [lia|]. split.
    + intros _. exists b. split; [done|].
      rewrite GetAncestor_below by (done || lia). rewrite Hprev.
      destruct signals as [|s0 signals0].
      * destruct Hok as [Hok _]. change (mine_blocks blocks []) with blocks.
        destruct (tip blocks) as [p|]; [|done].
        change (next_height (Some p)) with (nHeight p + 1).
        replace (nHeight p + 1 - 1) with (nHeight p) by lia.
        apply GetAncestor_self, chain_ok_height, Hok.
      * destruct Hanc as (p & Hp & HA); [done|]. rewrite Hp. done.
    + change (ancestry_of (Some b)) with (ancestry b).
      rewrite Nat.add_1_r, ancestry_unfold, Hprev, firstn_cons, signalling_cons.
      rewrite signals_set_snoc.
      replace (match tip (mine_blocks blocks signals) with
               | Some p => ancestry p | None => [] end)
        with (ancestry_of (tip (mine_blocks blocks signals))) by done.
      unfold take in Hcount |- *. rewrite Hcount.
      destruct signal.
      * rewrite (Hsig b) by congruence. lia.
      * rewrite (Hnosig b) by congruence. lia.
Qed.

(** ** The counting loop of the statistics *)

Lemma filter_above_nil (b : CBlockIndex) (t : Z) :
  chain_ok b = true -> nHeight b <= t ->
  List.filter (fun x => t <? nHeight x) (ancestry b) = [].
Proof.
  induction b as [v h | v h p IH] using CBlockIndex_chain_ind; simpl; intros Hb Ht.
  - destruct (Z.ltb_spec t h); [lia | done].
  - apply andb_prop in Hb as [Hh Hp].
    destruct (Z.ltb_spec t h); [lia|]. apply IH; [done | lia].
Qed.

Lemma count_since_boundary_spec (ck : AbstractThresholdConditionChecker)
    (b : CBlockIndex) :
  forall (t count : Z),
    chain_ok b = true -> 0 <= t <= nHeight b ->
    count_since_boundary ck t b count
    = Some (count + signalling ck (List.filter (fun x => t <? nHeight x) (ancestry b))).
Proof.
  induction b as [v h | v h p IH] using CBlockIndex_chain_ind;
    intros t count Hb Ht; simpl in *.
  - destruct (Z.eqb_spec t h); [|lia].
    destruct (Z.ltb_spec t h); [lia|]. unfold signalling. simpl. f_equal. lia.
  - pose proof Hb as Hb'. apply andb_prop in Hb as [Hh Hp].
    destruct (Z.eqb_spec t h) as [->|Hne].
    + destruct (Z.ltb_spec h h); [lia|].
      rewrite filter_above_nil by (done || lia).
      unfold signalling. simpl. f_equal. lia.
    + destruct (Z.ltb_spec t h); [|lia].
      rewrite IH by (done || lia). rewrite signalling_cons. simpl.
      destruct (Condition ck _); f_equal; lia.
Qed.

(** ** The two shortcuts *)

Lemma ordinary_deployment_iff (ALWAYS_ACTIVE NEVER_ACTIVE : Z)
    (ck : AbstractThresholdConditionChecker) :
  ordinary_deployment ALWAYS_ACTIVE NEVER_ACTIVE ck
  <-> StartHeight ck <> ALWAYS_ACTIVE
      /\ ~ (StartHeight ck = NEVER_ACTIVE /\ TimeoutHeight ck = NEVER_ACTIVE).
Proof.
  unfold ordinary_deployment.
  destruct (Z.eqb_spec (StartHeight ck) NEVER_ACTIVE),
           (Z.eqb_spec (TimeoutHeight ck) NEVER_ACTIVE),
           (Z.eqb_spec (StartHeight ck) ALWAYS_ACTIVE); simpl; intuition congruence.
Qed.

(** Either the deployment is an ordinary one, or every query is answered
    by one and the same shortcut, which leaves the cache alone. *)
Lemma deployment_cases (ALWAYS_ACTIVE NEVER_ACTIVE : Z)
    (ck : AbstractThresholdConditionChecker) :
  ordinary_deployment ALWAYS_ACTIVE NEVER_ACTIVE ck
  \/ exists state,
      (state = DEFINED \/ (state = ACTIVE /\ StartHeight ck = ALWAYS_ACTIVE))
      /\ forall p cache,
           GetStateFor ALWAYS_ACTIVE NEVER_ACTIVE ck p cache = Some (state, cache).
Proof.
  unfold ordinary_deployment, GetStateFor.
  destruct ((StartHeight ck =? NEVER_ACTIVE) && (TimeoutHeight ck =? NEVER_ACTIVE)).
  { right. exists DEFINED. split; [left|]; done. }
  destruct (Z.eqb_spec (StartHeight ck) ALWAYS_ACTIVE).
  { right. exists ACTIVE. split; [right|]; done. }
  left. done.
Qed.

Lemma rem_mod_height (ck : AbstractThresholdConditionChecker) (b : CBlockIndex) :
  0 < Period ck -> chain_ok b = true ->
  Z.rem (nHeight b + 1) (Period ck) = (nHeight b + 1) mod Period ck.
Proof.
  intros Hpos Hb. apply chain_ok_height in Hb. apply Z.rem_mod_nonneg; lia.
Qed.

(** ** The cache does not change the answers *)

(** A query keeps the cache true, in every configuration. *)
Lemma GetStateFor_keeps_cache_ok (ALWAYS_ACTIVE NEVER_ACTIVE : Z)
    (ck : AbstractThresholdConditionChecker) (p : option CBlockIndex)
    (cache : ThresholdConditionCache) :
  0 < Period ck -> ptr_ok p = true -> cache_ok ck cache ->
  exists state cache',
    GetStateFor ALWAYS_ACTIVE NEVER_ACTIVE ck p cache = Some (state, cache')
    /\ cache_ok ck cache'.
Proof.
  intros Hpos Hp Hc.
  destruct (deployment_cases ALWAYS_ACTIVE NEVER_ACTIVE ck)
    as [Hord | (state & _ & Hall)].
  - destruct (GetStateFor_ordinary ALWAYS_ACTIVE NEVER_ACTIVE ck Hpos p cache
                Hord Hp Hc) as (P & state & cache' & _ & _ & HG & _ & Hc').
    eauto.
  - exists state, cache. split; [apply Hall | done].
Qed.

(** Two caches built by the engine give the same state. *)
Lemma GetStateFor_deterministic (ALWAYS_ACTIVE NEVER_ACTIVE : Z)
    (ck : AbstractThresholdConditionChecker) (p : option CBlockIndex)
    (cache1 cache2 : ThresholdConditionCache) :
  0 < Period ck -> ptr_ok p = true -> cache_ok ck cache1 -> cache_ok ck cache2 ->
  fst <$> GetStateFor ALWAYS_ACTIVE NEVER_ACTIVE ck p cache1
  = fst <$> GetStateFor ALWAYS_ACTIVE NEVER_ACTIVE ck p cache2.
Proof.
  intros Hpos Hp Hc1 Hc2.
  destruct (deployment_cases ALWAYS_ACTIVE NEVER_ACTIVE ck)
    as [Hord | (state & _ & Hall)].
  - destruct (GetStateFor_ordinary ALWAYS_ACTIVE NEVER_ACTIVE ck Hpos p cache1
                Hord Hp Hc1) as (P1 & st1 & c1 & HP1 & _ & -> & Hst1 & _).
    destruct (GetStateFor_ordinary ALWAYS_ACTIVE NEVER_ACTIVE ck Hpos p cache2
                Hord Hp Hc2) as (P2 & st2 & c2 & HP2 & _ & -> & Hst2 & _).
    rewrite HP1 in HP2. injection HP2 as <-. simpl. f_equal.
    eapply period_state_det; eauto.
  - rewrite !Hall. done.
Qed.

(** ** Properties of the engine *)

(** C1.  Forward pass, state STARTED.  Let [b] be the last block of a
    period and [before] the state the engine returns, on the same cache,
    for the boundary block one period below.  On any cache that has no
    entry for [b] (a fresh cache among them) with [b] not below the start
    height, so that the forward pass computes the state of [b], and on
    any cache of true states: when [before] is STARTED, with [count] the
    number of blocks, among the [period] blocks that end at [b], for which
    the condition holds, the state returned for [b] is LOCKED_IN when
    [count >= threshold]; otherwise MUST_SIGNAL when lock-in on timeout is
    set and [height + period >= timeout]; otherwise FAILED when
    [height >= timeout]; otherwise STARTED.  The transition to LOCKED_IN
    happens iff [count >= threshold].  Where the forward pass computes the
    state it stores it at [b], on top of the cache the query one period
    below leaves; a cached entry one period below is the state [before]. *)
Theorem started_transition (ALWAYS_ACTIVE NEVER_ACTIVE : Z)
    (ck : AbstractThresholdConditionChecker) (b : CBlockIndex)
    (cache : ThresholdConditionCache) :
  0 < Period ck ->
  chain_ok b = true -> Z.rem (nHeight b + 1) (Period ck) = 0 ->
  ordinary_deployment ALWAYS_ACTIVE NEVER_ACTIVE ck ->
  cache_ok ck cache
  \/ (cache !! Some b = None /\ StartHeight ck <= nHeight b + 1) ->
  let height := nHeight b + 1 in
  let counted := take (Z.to_nat (Period ck)) (ancestry b) in
  let count := signalling ck counted in
  let timeout_near :=
    LockinOnTimeout ck = true /\ TimeoutHeight ck <= height + Period ck in
  exists before cache1 stateNext cache2,
    GetStateFor ALWAYS_ACTIVE NEVER_ACTIVE ck (previous_period ck b) cache
    = Some (before, cache1)
    /\ GetStateFor ALWAYS_ACTIVE NEVER_ACTIVE ck (Some b) cache
       = Some (stateNext, cache2)
    /\ (cache !! Some b = None -> StartHeight ck <= height ->
        cache2 = <[Some b := stateNext]> cache1)
    /\ (forall state, cache !! previous_period ck b = Some state ->
                      before = state /\ cache1 = cache)
    /\ Z.of_nat (length counted) = Period ck
    /\ (before = STARTED ->
        (Threshold ck <= count -> stateNext = LOCKED_IN)
        /\ (count < Threshold ck -> timeout_near -> stateNext = MUST_SIGNAL)
        /\ (count < Threshold ck -> ~ timeout_near -> TimeoutHeight ck <= height ->
            stateNext = FAILED)
        /\ (count < Threshold ck -> ~ timeout_near -> height < TimeoutHeight ck ->
            stateNext = STARTED)
        /\ (stateNext = LOCKED_IN <-> Threshold ck <= count)).
Proof.
  intros Hpos Hb Hrem Hord Hcase.
  assert (on_boundary ck (Some b)) as Hob by (split; done).
  pose proof (boundary_height ck Hpos b Hob) as Hge.
  destruct (previous_period_spec ck Hpos b Hob) as [Hobp _].
  intros height counted count timeout_near.
  assert (Z.of_nat (length counted) = Period ck) as Hlen.
  { unfold counted. rewrite length_take.
    pose proof (ancestry_length b Hb). lia. }
  assert (forall stateNext,
             next_state ck STARTED b = Some stateNext ->
             (Threshold ck <= count -> stateNext = LOCKED_IN)
             /\ (count < Threshold ck -> timeout_near -> stateNext = MUST_SIGNAL)
             /\ (count < Threshold ck -> ~ timeout_near ->
                 TimeoutHeight ck <= height -> stateNext = FAILED)
             /\ (count < Threshold ck -> ~ timeout_near ->
                 height < TimeoutHeight ck -> stateNext = STARTED)
             /\ (stateNext = LOCKED_IN <-> Threshold ck <= count))
    as Hcases.
  { intros stateNext. unfold next_state.
    rewrite (count_signals_boundary ck Hpos b Hob).
    fold counted. fold count. fold height. unfold timeout_near.
    destruct (Z.geb_spec count (Threshold ck)).
    { intros [= <-]. repeat split; (done || lia). }
    destruct (LockinOnTimeout ck); simpl;
      destruct (Z.geb_spec (height + Period ck) (TimeoutHeight ck));
      destruct (Z.geb_spec height (TimeoutHeight ck));
      intros [= <-];
      repeat split; try done; try lia; try (intros; exfalso; lia);
      try (intros ? [? ?]; (done || lia)); try (intros ? Hn; exfalso; apply Hn; split; (done || lia)).
  }
  assert (forall before cache1,
             GetStateFor ALWAYS_ACTIVE NEVER_ACTIVE ck (previous_period ck b) cache
             = Some (before, cache1) ->
             forall state, cache !! previous_period ck b = Some state ->
                           before = state /\ cache1 = cache) as Hhit.
  { intros before cache1 HG state Hst.
    rewrite (GetStateFor_hit ALWAYS_ACTIVE NEVER_ACTIVE ck Hpos _ _ _ Hord Hobp Hst) in HG.
    injection HG as <- <-. done. }
  destruct (cache !! Some b) as [cached|] eqn:Hmiss;
    [|destruct (Z.le_gt_cases (StartHeight ck) height) as [Hstart | Hbelow]].
  2:{ (* the forward pass computes the state of [b] *)
    destruct (GetStateFor_forward_step ALWAYS_ACTIVE NEVER_ACTIVE ck Hpos b cache Hord Hob
                Hmiss Hstart) as (before & cache1 & stateNext & HG1 & Hn & HG2).
    exists before, cache1, stateNext, (<[Some b := stateNext]> cache1).
    split; [done|]. split; [done|]. split; [done|].
    split; [apply (Hhit before cache1 HG1)|]. split; [done|].
    intros ->. apply Hcases. exact Hn. }
  all: destruct Hcase as [Hc | [Hm Hs]]; [|first [discriminate | fold height in Hs; lia]].
  all: destruct (GetStateFor_boundary ALWAYS_ACTIVE NEVER_ACTIVE ck Hpos
                   (previous_period ck b) cache Hord Hobp Hc)
         as (before & cache1 & HG1 & Hst1 & _).
  all: destruct (GetStateFor_boundary ALWAYS_ACTIVE NEVER_ACTIVE ck Hpos (Some b) cache
                   Hord Hob Hc) as (stateNext & cache2 & HG2 & Hst2 & _).
  all: inversion Hst2 as [|b0 state0 stateNext0 Hst0 Hn]; subst b0 stateNext0.
  all: rewrite (period_state_det ck _ _ _ Hst0 Hst1) in Hn.
  all: exists before, cache1, stateNext, cache2.
  all: split; [done|]. all: split; [done|].
  all: split; [intros Hm Hs; first [discriminate | lia]|].
  all: split; [apply (Hhit before cache1 HG1)|]. all: split; [done|].
  all: intros ->; apply Hcases; exact Hn.
Qed.

Lemma started_transition_witness :
  exists cache',
    GetStateFor (-1) (-2) S1_checker (Some block95_late) ∅ = Some (LOCKED_IN, cache').
Proof.
  destruct (started_transition (-1) (-2) S1_checker block95_late ∅)
    as (before & cache1 & stateNext & cache2 & HG1 & HG2 & _ & _ & _ & Hcases).
  - reflexivity.
  - vm_compute. reflexivity.
  - vm_compute. reflexivity.
  - split; vm_compute; reflexivity.
  - right. split; [apply lookup_empty | vm_compute; discriminate].
  - assert (fst <$> GetStateFor (-1) (-2) S1_checker
                      (previous_period S1_checker block95_late) ∅ = Some STARTED)
      as Hbefore by (vm_compute; reflexivity).
    rewrite HG1 in Hbefore. injection Hbefore as ->.
    destruct (Hcases eq_refl) as (Hlock & _).
    exists cache2. rewrite HG2, Hlock; [reflexivity|]. vm_compute. discriminate.
Defined.

(** C10.  The statistics of [nullptr] are the configured period and
    threshold with [elapsed = 0], [count = 0] and [possible = false]. *)
Theorem statistics_of_nullptr (ck : AbstractThresholdConditionChecker) :
  GetStateStatisticsFor ck None
  = Some {| stats_period := Period ck; stats_threshold := Threshold ck;
            stats_elapsed := 0; stats_count := 0; stats_possible := false |}.
Proof. reflexivity. Qed.

(** C6.  Sentinel fast paths.  With [start_height = ALWAYS_ACTIVE] every
    query, for a block or for none and whatever the cache holds, returns
    ACTIVE and since-height 0 and leaves the cache as it was; with both
    heights [NEVER_ACTIVE] every query returns DEFINED and since-height
    0.  The two sentinels are different values. *)
Theorem sentinel_fast_paths (ALWAYS_ACTIVE NEVER_ACTIVE : Z)
    (ck : AbstractThresholdConditionChecker) (pindexPrev : option CBlockIndex)
    (cache : ThresholdConditionCache) :
  ALWAYS_ACTIVE <> NEVER_ACTIVE ->
  (StartHeight ck = ALWAYS_ACTIVE ->
   GetStateFor ALWAYS_ACTIVE NEVER_ACTIVE ck pindexPrev cache = Some (ACTIVE, cache)
   /\ GetStateSinceHeightFor ALWAYS_ACTIVE NEVER_ACTIVE ck pindexPrev cache
      = Some (0, cache))
  /\ (StartHeight ck = NEVER_ACTIVE -> TimeoutHeight ck = NEVER_ACTIVE ->
      GetStateFor ALWAYS_ACTIVE NEVER_ACTIVE ck pindexPrev cache = Some (DEFINED, cache)
      /\ GetStateSinceHeightFor ALWAYS_ACTIVE NEVER_ACTIVE ck pindexPrev cache
         = Some (0, cache)).
Proof.
  intros Hdiff. unfold GetStateSinceHeightFor, GetStateFor. split.
  - intros ->. rewrite Z.eqb_refl.
    destruct (Z.eqb_spec ALWAYS_ACTIVE NEVER_ACTIVE); [done|]. done.
  - intros -> ->. rewrite Z.eqb_refl. simpl.
    destruct (Z.eqb_spec NEVER_ACTIVE ALWAYS_ACTIVE); [congruence|]. done.
Qed.

Lemma sentinel_fast_paths_witness :
  GetStateFor (-1) (-2) (TestConditionChecker (-1) 2147483647 0 32 28 0 false)
    (Some block63) {[ Some block31 := FAILED ]}
  = Some (ACTIVE, {[ Some block31 := FAILED ]})
  /\ GetStateSinceHeightFor (-1) (-2) (TestConditionChecker (-1) 2147483647 0 32 28 0 false)
       (Some block63) {[ Some block31 := FAILED ]}
     = Some (0, {[ Some block31 := FAILED ]}).
Proof.
  apply (sentinel_fast_paths (-1) (-2)
           (TestConditionChecker (-1) 2147483647 0 32 28 0 false)).
  - lia.
  - reflexivity.
Defined.

(** C3.  Period stability.  The state of a block [b] is the state of its
    period-boundary previous-block [P], the ancestor of [b] at height
    [b.height - ((b.height + 1) mod period)]; and every block with the
    same [P] has that state. *)
Theorem period_stability (ALWAYS_ACTIVE NEVER_ACTIVE : Z)
    (ck : AbstractThresholdConditionChecker) (b : CBlockIndex)
    (cache : ThresholdConditionCache) :
  0 < Period ck -> chain_ok b = true -> cache_ok ck cache ->
  let P := GetAncestor b (nHeight b - (nHeight b + 1) mod Period ck) in
  exists state cache',
    GetStateFor ALWAYS_ACTIVE NEVER_ACTIVE ck (Some b) cache = Some (state, cache')
    /\ GetStateFor ALWAYS_ACTIVE NEVER_ACTIVE ck P cache = Some (state, cache')
    /\ forall b',
         chain_ok b' = true ->
         GetAncestor b' (nHeight b' - (nHeight b' + 1) mod Period ck) = P ->
         GetStateFor ALWAYS_ACTIVE NEVER_ACTIVE ck (Some b') cache
         = Some (state, cache').
Proof.
  intros Hpos Hb Hc P.
  destruct (deployment_cases ALWAYS_ACTIVE NEVER_ACTIVE ck)
    as [Hord | (state & _ & Hall)].
  2:{ exists state, cache. rewrite !Hall. split; [done|]. split; [done|].
      intros b' _ _. apply Hall. }
  assert (forall b', chain_ok b' = true ->
            align ck (Some b')
            = Some (GetAncestor b' (nHeight b' - (nHeight b' + 1) mod Period ck)))
    as Halign.
  { intros b' Hb'. simpl. unfold period_boundary.
    destruct (Z.eqb_spec (Period ck) 0); [lia|].
    rewrite (rem_mod_height ck b' Hpos Hb'). done. }
  destruct (GetStateFor_ordinary ALWAYS_ACTIVE NEVER_ACTIVE ck Hpos (Some b) cache
              Hord Hb Hc) as (P' & state & cache' & HP & Hob & HG & _).
  rewrite (Halign b Hb) in HP. injection HP as <-. fold P in Hob.
  pose proof (align_on_boundary ck Hpos P Hob) as HPP.
  exists state, cache'. split; [done|]. split.
  - rewrite <- HG. symmetry. apply GetStateFor_align; [apply Halign|]; done.
  - intros b' Hb' HP'. rewrite <- HG.
    rewrite (GetStateFor_align ALWAYS_ACTIVE NEVER_ACTIVE ck (Some b') P);
      [| rewrite (Halign b' Hb'), HP' |]; try done.
    symmetry. apply GetStateFor_align; [apply Halign|]; done.
Qed.

Lemma period_stability_witness :
  let P := GetAncestor block40 (nHeight block40 - (nHeight block40 + 1) mod Period S1_checker) in
  exists state cache',
    GetStateFor (-1) (-2) S1_checker (Some block40) ∅ = Some (state, cache')
    /\ GetStateFor (-1) (-2) S1_checker P ∅ = Some (state, cache')
    /\ forall b',
         chain_ok b' = true ->
         GetAncestor b' (nHeight b' - (nHeight b' + 1) mod Period S1_checker) = P ->
         GetStateFor (-1) (-2) S1_checker (Some b') ∅ = Some (state, cache').
Proof.
  apply (period_stability (-1) (-2) S1_checker block40 ∅).
  - reflexivity.
  - vm_compute. reflexivity.
  - apply cache_ok_empty.
Defined.

(** C5.  Min-activation.  Unless [start_height = ALWAYS_ACTIVE], a block
    whose height is below [min_activation_height] (the block after
    [pindexPrev], whose state the query computes) does not have the state
    ACTIVE; the step from LOCKED_IN goes to ACTIVE exactly at a period
    whose first block has reached that height and stays LOCKED_IN
    before. *)
Theorem min_activation_guarantee (ALWAYS_ACTIVE NEVER_ACTIVE : Z)
    (ck : AbstractThresholdConditionChecker) (pindexPrev : option CBlockIndex)
    (cache : ThresholdConditionCache) :
  0 < Period ck -> StartHeight ck <> ALWAYS_ACTIVE ->
  ptr_ok pindexPrev = true -> cache_ok ck cache ->
  exists state cache',
    GetStateFor ALWAYS_ACTIVE NEVER_ACTIVE ck pindexPrev cache = Some (state, cache')
    /\ (next_height pindexPrev < MinActivationHeight ck -> state <> ACTIVE)
    /\ (forall b, next_state ck LOCKED_IN b = Some ACTIVE
                  <-> MinActivationHeight ck <= nHeight b + 1)
    /\ (forall b, nHeight b + 1 < MinActivationHeight ck ->
                  next_state ck LOCKED_IN b = Some LOCKED_IN).
Proof.
  intros Hpos Hstart Hp Hc.
  assert ((forall b, next_state ck LOCKED_IN b = Some ACTIVE
                     <-> MinActivationHeight ck <= nHeight b + 1)
          /\ (forall b, nHeight b + 1 < MinActivationHeight ck ->
                        next_state ck LOCKED_IN b = Some LOCKED_IN)) as Hstep.
  { split; intros b; unfold next_state;
      destruct (Z.geb_spec (nHeight b + 1) (MinActivationHeight ck));
      (split || intros); (done || lia). }
  destruct (deployment_cases ALWAYS_ACTIVE NEVER_ACTIVE ck)
    as [Hord | (state & Hstate & Hall)].
  - destruct (GetStateFor_ordinary ALWAYS_ACTIVE NEVER_ACTIVE ck Hpos pindexPrev cache
                Hord Hp Hc) as (P & state & cache' & HP & Hob & HG & Hst & _).
    exists state, cache'. split; [done|]. split; [|done].
    intros Hlow ->.
    pose proof (period_state_active ck Hpos P Hst Hob) as Hmin.
    destruct (align_spec ck Hpos pindexPrev Hp) as (P' & HP' & _ & Hle & _).
    rewrite HP in HP'. injection HP' as <-. lia.
  - exists state, cache. split; [apply Hall|]. split; [|done].
    intros _. destruct Hstate as [-> | [_ Heq]]; done.
Qed.

Lemma min_activation_guarantee_witness :
  exists state cache',
    GetStateFor (-1) (-2) (TestConditionChecker 0 10000 100 32 28 0 false)
      (Some block63) ∅ = Some (state, cache')
    /\ (next_height (Some block63)
        < MinActivationHeight (TestConditionChecker 0 10000 100 32 28 0 false) ->
        state <> ACTIVE)
    /\ (forall b, next_state (TestConditionChecker 0 10000 100 32 28 0 false) LOCKED_IN b
                  = Some ACTIVE
                  <-> MinActivationHeight (TestConditionChecker 0 10000 100 32 28 0 false)
                      <= nHeight b + 1)
    /\ (forall b, nHeight b + 1
                  < MinActivationHeight (TestConditionChecker 0 10000 100 32 28 0 false) ->
                  next_state (TestConditionChecker 0 10000 100 32 28 0 false) LOCKED_IN b
                  = Some LOCKED_IN).
Proof.
  apply (min_activation_guarantee (-1) (-2)
           (TestConditionChecker 0 10000 100 32 28 0 false) (Some block63) ∅).
  - reflexivity.
  - simpl. lia.
  - vm_compute. reflexivity.
  - apply cache_ok_empty.
Defined.

(** C8.  With lock-in on timeout and a period of at least one block the
    state FAILED is not reachable: in the STARTED case a block that has
    reached the timeout height without the threshold goes to MUST_SIGNAL,
    MUST_SIGNAL always goes on to LOCKED_IN, and no query returns
    FAILED. *)
Theorem lockin_on_timeout_never_fails (ALWAYS_ACTIVE NEVER_ACTIVE : Z)
    (ck : AbstractThresholdConditionChecker) (pindexPrev : option CBlockIndex)
    (cache : ThresholdConditionCache) :
  LockinOnTimeout ck = true -> 1 <= Period ck ->
  ptr_ok pindexPrev = true -> cache_ok ck cache ->
  exists state cache',
    GetStateFor ALWAYS_ACTIVE NEVER_ACTIVE ck pindexPrev cache = Some (state, cache')
    /\ state <> FAILED
    /\ (forall b, next_state ck STARTED b <> Some FAILED)
    /\ (forall b count,
          count_signals ck (Z.to_nat (Period ck)) (Some b) 0 = Some count ->
          count < Threshold ck -> TimeoutHeight ck <= nHeight b + 1 ->
          next_state ck STARTED b = Some MUST_SIGNAL)
    /\ (forall b, next_state ck MUST_SIGNAL b = Some LOCKED_IN).
Proof.
  intros Hlot Hper Hp Hc.
  assert (0 < Period ck) as Hpos by lia.
  assert (forall b, next_state ck STARTED b <> Some FAILED) as Hstarted.
  { intros b Hn. apply next_state_FAILED_inv in Hn as [? | (_ & Hto & Hms)]; [done|].
    rewrite Hlot in Hms. simpl in Hms.
    destruct (Z.geb_spec (nHeight b + 1 + Period ck) (TimeoutHeight ck)); [done | lia]. }
  assert (forall b count,
             count_signals ck (Z.to_nat (Period ck)) (Some b) 0 = Some count ->
             count < Threshold ck -> TimeoutHeight ck <= nHeight b + 1 ->
             next_state ck STARTED b = Some MUST_SIGNAL) as Hmust.
  { intros b count Hcount Hlow Hto. unfold next_state. rewrite Hcount, Hlot.
    destruct (Z.geb_spec count (Threshold ck)); [lia|].
    destruct (Z.geb_spec (nHeight b + 1 + Period ck) (TimeoutHeight ck)); [done | lia]. }
  destruct (deployment_cases ALWAYS_ACTIVE NEVER_ACTIVE ck)
    as [Hord | (state & Hstate & Hall)].
  - destruct (GetStateFor_ordinary ALWAYS_ACTIVE NEVER_ACTIVE ck Hpos pindexPrev cache
                Hord Hp Hc) as (P & state & cache' & _ & _ & HG & Hst & _).
    exists state, cache'. split; [done|].
    split; [eapply period_state_not_failed; eauto|]. done.
  - exists state, cache. split; [apply Hall|].
    split; [destruct Hstate as [-> | [-> _]]; done|]. done.
Qed.

Lemma lockin_on_timeout_never_fails_witness :
  exists state cache',
    GetStateFor (-1) (-2) (TestConditionChecker 0 64 0 32 16 0 true)
      (Some block63) ∅ = Some (state, cache')
    /\ state <> FAILED
    /\ (forall b, next_state (TestConditionChecker 0 64 0 32 16 0 true) STARTED b
                  <> Some FAILED)
    /\ (forall b count,
          count_signals (TestConditionChecker 0 64 0 32 16 0 true)
            (Z.to_nat (Period (TestConditionChecker 0 64 0 32 16 0 true))) (Some b) 0
          = Some count ->
          count < Threshold (TestConditionChecker 0 64 0 32 16 0 true) ->
          TimeoutHeight (TestConditionChecker 0 64 0 32 16 0 true) <= nHeight b + 1 ->
          next_state (TestConditionChecker 0 64 0 32 16 0 true) STARTED b
          = Some MUST_SIGNAL)
    /\ (forall b, next_state (TestConditionChecker 0 64 0 32 16 0 true) MUST_SIGNAL b
                  = Some LOCKED_IN).
Proof.
  apply (lockin_on_timeout_never_fails (-1) (-2)
           (TestConditionChecker 0 64 0 32 16 0 true) (Some block63) ∅).
  - reflexivity.
  - simpl. lia.
  - vm_compute. reflexivity.
  - apply cache_ok_empty.
Defined.

(** C9.  For an ordinary deployment ([start_height] is not
    [ALWAYS_ACTIVE] and the two heights are not both [NEVER_ACTIVE])
    every block of height below [period], the block after [pindexPrev],
    has the state DEFINED, whatever the start height; the state STARTED
    is first possible for the block of height [period], which has it when
    [start_height <= period]. *)
Theorem first_period_defined (ALWAYS_ACTIVE NEVER_ACTIVE : Z)
    (ck : AbstractThresholdConditionChecker) (pindexPrev : option CBlockIndex)
    (cache : ThresholdConditionCache) :
  0 < Period ck -> StartHeight ck <> ALWAYS_ACTIVE ->
  ~ (StartHeight ck = NEVER_ACTIVE /\ TimeoutHeight ck = NEVER_ACTIVE) ->
  ptr_ok pindexPrev = true -> cache_ok ck cache ->
  exists state cache',
    GetStateFor ALWAYS_ACTIVE NEVER_ACTIVE ck pindexPrev cache = Some (state, cache')
    /\ (next_height pindexPrev < Period ck -> state = DEFINED)
    /\ (state = STARTED -> Period ck <= next_height pindexPrev)
    /\ (next_height pindexPrev = Period ck -> StartHeight ck <= Period ck ->
        state = STARTED).
Proof.
  intros Hpos Hstart Hnever Hp Hc.
  assert (ordinary_deployment ALWAYS_ACTIVE NEVER_ACTIVE ck) as Hord
    by (apply ordinary_deployment_iff; done).
  destruct (GetStateFor_ordinary ALWAYS_ACTIVE NEVER_ACTIVE ck Hpos pindexPrev cache
              Hord Hp Hc) as (P & state & cache' & HP & Hob & HG & Hst & _).
  destruct (align_spec ck Hpos pindexPrev Hp) as (P' & HP' & _ & _ & Hsmall).
  rewrite HP in HP'. injection HP' as <-.
  assert (next_height pindexPrev < Period ck -> state = DEFINED) as Hdef.
  { intros Hlow. rewrite (Hsmall Hlow) in Hst.
    apply (period_state_nullptr ck) in Hst. done. }
  exists state, cache'. split; [done|]. split; [done|]. split.
  - intros ->. destruct (Z.lt_ge_cases (next_height pindexPrev) (Period ck)) as [Hlow|]; [|done].
    specialize (Hdef Hlow). done.
  - intros Hheight Hle. destruct pindexPrev as [b|]; simpl in Hheight; [|lia].
    simpl in Hp.
    assert (on_boundary ck (Some b)) as Hb.
    { split; [done|]. rewrite Hheight. apply Z.rem_same. lia. }
    rewrite (align_boundary ck Hpos b Hb) in HP. injection HP as <-.
    eapply period_state_det; [exact Hst|].
    apply period_state_next with (state := DEFINED).
    + destruct (previous_period_spec ck Hpos b Hb) as [Hprev Hh].
      destruct (previous_period ck b) as [a|]; [|constructor].
      destruct Hprev as [Ha _]. apply chain_ok_height in Ha. simpl in Hh. lia.
    + unfold next_state.
      destruct (Z.geb_spec (nHeight b + 1) (StartHeight ck)); [done | lia].
Qed.

Lemma first_period_defined_witness :
  exists state cache',
    GetStateFor (-1) (-2) S1_checker (Some block7) ∅ = Some (state, cache')
    /\ (next_height (Some block7) < Period S1_checker -> state = DEFINED)
    /\ (state = STARTED -> Period S1_checker <= next_height (Some block7))
    /\ (next_height (Some block7) = Period S1_checker ->
        StartHeight S1_checker <= Period S1_checker -> state = STARTED).
Proof.
  apply (first_period_defined (-1) (-2) S1_checker (Some block7) ∅).
  - reflexivity.
  - simpl. lia.
  - simpl. lia.
  - vm_compute. reflexivity.
  - apply cache_ok_empty.
Defined.

(** C7.  Statistics, for a block [b] from the last block of the first
    period on ([b.height >= period - 1], so that the boundary ancestor
    exists): [elapsed] is [b.height - boundary.height] for the ancestor
    [boundary] of [b] at height [b.height - ((b.height + 1) mod period)],
    [count] is the number of blocks after [boundary] up to and including
    [b] for which the condition holds, and [possible] says whether
    [period - threshold >= elapsed - count]. *)
Theorem statistics_from_boundary (ck : AbstractThresholdConditionChecker)
    (b : CBlockIndex) :
  0 < Period ck -> chain_ok b = true -> Period ck - 1 <= nHeight b ->
  exists boundary stats,
    GetAncestor b (nHeight b - (nHeight b + 1) mod Period ck) = Some boundary
    /\ GetStateStatisticsFor ck (Some b) = Some stats
    /\ stats_period stats = Period ck
    /\ stats_threshold stats = Threshold ck
    /\ stats_elapsed stats = nHeight b - nHeight boundary
    /\ stats_count stats
       = signalling ck
           (List.filter (fun x => nHeight boundary <? nHeight x) (ancestry b))
    /\ (stats_possible stats = true
        <-> Period ck - Threshold ck >= stats_elapsed stats - stats_count stats).
Proof.
  intros Hpos Hb Hge.
  pose proof (chain_ok_height b Hb) as Hh.
  pose proof (Z.mod_pos_bound (nHeight b + 1) (Period ck) Hpos) as Hr.
  pose proof (Z.div_mod (nHeight b + 1) (Period ck)) as Hdm.
  assert (0 < (nHeight b + 1) / Period ck) as Hq by (apply Z.div_str_pos; lia).
  set (r := (nHeight b + 1) mod Period ck) in *.
  assert (0 <= nHeight b - r <= nHeight b) as Ht by nia.
  destruct (GetAncestor b (nHeight b - r)) as [boundary|] eqn:Eb.
  2:{ apply GetAncestor_None in Eb; [lia | done]. }
  pose proof (GetAncestor_Some _ _ _ Eb) as [Hbh _].
  unfold GetStateStatisticsFor, period_boundary.
  destruct (Z.eqb_spec (Period ck) 0); [lia|].
  rewrite (rem_mod_height ck b Hpos Hb). fold r. rewrite Eb.
  rewrite count_since_boundary_spec by (done || lia).
  eexists _, _. split; [done|]. split; [done|]. simpl.
  split; [done|]. split; [done|]. split; [done|]. split; [f_equal; lia|].
  rewrite Z.add_0_l. destruct (Z.geb_spec (Period ck - Threshold ck)
    (nHeight b - nHeight boundary
     - signalling ck (List.filter (fun x => nHeight boundary <? nHeight x) (ancestry b))));
    split; (done || lia).
Qed.

Lemma statistics_from_boundary_witness :
  exists boundary stats,
    GetAncestor block40 (nHeight block40 - (nHeight block40 + 1) mod Period S1_checker)
    = Some boundary
    /\ GetStateStatisticsFor S1_checker (Some block40) = Some stats
    /\ stats_period stats = Period S1_checker
    /\ stats_threshold stats = Threshold S1_checker
    /\ stats_elapsed stats = nHeight block40 - nHeight boundary
    /\ stats_count stats
       = signalling S1_checker
           (List.filter (fun x => nHeight boundary <? nHeight x) (ancestry block40))
    /\ (stats_possible stats = true
        <-> Period S1_checker - Threshold S1_checker
            >= stats_elapsed stats - stats_count stats).
Proof.
  apply (statistics_from_boundary S1_checker block40).
  - reflexivity.
  - vm_compute. reflexivity.
  - vm_compute. discriminate.
Defined.

(** C7 without the bound on the height: the genesis block has no
    boundary ancestor (its target height is -1), the statistics
    dereference it, and no statistics are returned. *)
Lemma statistics_first_period_counterexample :
  GetAncestor block0 (nHeight block0 - (nHeight block0 + 1) mod Period S1_checker)
  = None
  /\ ~ exists stats, GetStateStatisticsFor S1_checker (Some block0) = Some stats.
Proof.
  split; [vm_compute; reflexivity|].
  intros [stats H]. vm_compute in H. discriminate.
Qed.

(** C4 (amended).  The since-height is a multiple of the period, lies
    between 0 and the height [pindexPrev.height + 1] of the block whose
    state is computed (0 for none), and equals the height of the first
    block of the current period, [P.height + 1] for the period-boundary
    previous-block [P] (0 for none), iff the current period is the first
    one in its state. *)
Theorem since_height_postconditions (ALWAYS_ACTIVE NEVER_ACTIVE : Z)
    (ck : AbstractThresholdConditionChecker) (pindexPrev : option CBlockIndex)
    (cache : ThresholdConditionCache) :
  0 < Period ck -> ptr_ok pindexPrev = true -> cache_ok ck cache ->
  exists since cache' P,
    GetStateSinceHeightFor ALWAYS_ACTIVE NEVER_ACTIVE ck pindexPrev cache
    = Some (since, cache')
    /\ align ck pindexPrev = Some P
    /\ Z.rem since (Period ck) = 0
    /\ 0 <= since <= next_height pindexPrev
    /\ (since = next_height P
        <-> first_period_in_state ALWAYS_ACTIVE NEVER_ACTIVE ck P cache').
Proof.
  intros Hpos Hp Hc.
  destruct (align_spec ck Hpos pindexPrev Hp) as (P & HP & Hob & Hrange & _).
  destruct (deployment_cases ALWAYS_ACTIVE NEVER_ACTIVE ck)
    as [Hord | (state & Hstate & Hall)].
  - destruct (GetStateSinceHeightFor_ordinary ALWAYS_ACTIVE NEVER_ACTIVE ck Hpos
                pindexPrev cache Hord Hp Hc)
      as (P' & state & since & cache' & HP' & _ & Hst & HS & Hc' & Hdef & Hnot).
    rewrite HP in HP'. injection HP' as <-.
    exists since, cache', P. split; [done|]. split; [done|].
    destruct (decide (state = DEFINED)) as [->|Hnd].
    + rewrite (Hdef eq_refl). split; [apply Z.rem_0_l; lia|]. split; [lia|].
      destruct P as [b|]; simpl; [|done].
      pose proof (chain_ok_height b (proj1 Hob)) as Hh.
      destruct (previous_period_spec ck Hpos b Hob) as [Hprev _].
      destruct (GetStateFor_boundary ALWAYS_ACTIVE NEVER_ACTIVE ck Hpos
                  (previous_period ck b) cache' Hord Hprev Hc')
        as (st1 & c1 & -> & Hst1 & _).
      destruct (GetStateFor_boundary ALWAYS_ACTIVE NEVER_ACTIVE ck Hpos
                  (Some b) cache' Hord Hob Hc')
        as (st2 & c2 & -> & Hst2 & _).
      rewrite (period_state_det ck _ _ _ Hst2 Hst).
      rewrite (period_state_det ck _ _ _ Hst1 (period_state_defined_prev ck b Hst)).
      simpl. split; [lia | done].
    + destruct (Hnot Hnd) as (b & first & -> & -> & Hfirst & Hle & Hsame & Hother).
      pose proof (chain_ok_height first (proj1 Hfirst)) as Hh.
      simpl in Hrange. split; [apply Hfirst|]. split; [lia|].
      destruct (previous_period_spec ck Hpos b Hob) as [Hprev _].
      simpl.
      destruct (GetStateFor_boundary ALWAYS_ACTIVE NEVER_ACTIVE ck Hpos
                  (previous_period ck b) cache' Hord Hprev Hc')
        as (st1 & c1 & -> & Hst1 & _).
      destruct (GetStateFor_boundary ALWAYS_ACTIVE NEVER_ACTIVE ck Hpos
                  (Some b) cache' Hord Hob Hc')
        as (st2 & c2 & -> & Hst2 & _).
      rewrite (period_state_det ck _ _ _ Hst2 Hst). simpl. split.
      * intros Heq [= ->]. specialize (Hother Hst1). lia.
      * intros Hdiff. rewrite Hsame; [done|].
        intros Hps. apply Hdiff. f_equal. eapply period_state_det; eauto.
  - assert (GetStateSinceHeightFor ALWAYS_ACTIVE NEVER_ACTIVE ck pindexPrev cache
            = Some (0, cache)) as HS.
    { unfold GetStateSinceHeightFor. rewrite Hall.
      destruct (Z.eqb_spec (StartHeight ck) ALWAYS_ACTIVE); [done|].
      destruct Hstate as [-> | [_ ?]]; done. }
    exists 0, cache, P. split; [done|]. split; [done|].
    split; [apply Z.rem_0_l; lia|]. split; [lia|].
    destruct P as [b|]; simpl; [|done].
    pose proof (chain_ok_height b (proj1 Hob)) as Hh.
    rewrite !Hall. simpl. split; [lia | done].
Qed.

Lemma since_height_postconditions_witness :
  exists since cache' P,
    GetStateSinceHeightFor (-1) (-2) S1_checker (Some block40) ∅ = Some (since, cache')
    /\ align S1_checker (Some block40) = Some P
    /\ Z.rem since (Period S1_checker) = 0
    /\ 0 <= since <= next_height (Some block40)
    /\ (since = next_height P <-> first_period_in_state (-1) (-2) S1_checker P cache').
Proof.
  apply (since_height_postconditions (-1) (-2) S1_checker (Some block40) ∅).
  - reflexivity.
  - vm_compute. reflexivity.
  - apply cache_ok_empty.
Defined.

(** C4 with [block_height + 1]: queried with block 40 of scenario S1 the
    current period, which starts at height 32, is the first one in the
    state STARTED, and the since-height is 32: neither the height 41 of
    the block whose state is computed plus one, nor that height. *)
Lemma since_height_counterexample :
  match GetStateSinceHeightFor (-1) (-2) S1_checker (Some block40) ∅ with
  | Some (since, cache') =>
    first_period_in_state (-1) (-2) S1_checker (Some block31) cache'
    /\ align S1_checker (Some block40) = Some (Some block31)
    /\ since = 32
    /\ since <> next_height (Some block40) + 1
    /\ since <> next_height (Some block40)
  | None => False
  end.
Proof.
  vm_compute. split; [discriminate|]. split; [reflexivity|].
  split; [reflexivity|]. split; discriminate.
Qed.

(** ** Scenario S1 *)

Lemma S1_checker_asserts : TestConditionChecker_asserts 32 28 0 = true.
Proof. reflexivity. Qed.

Lemma S1_condition_signal (b : CBlockIndex) :
  nVersion b = ver_signal -> Condition S1_checker b = true.
Proof. simpl. intros ->. reflexivity. Qed.

Lemma S1_condition_nosignal (b : CBlockIndex) :
  nVersion b = ver_nosignal -> Condition S1_checker b = false.
Proof. simpl. intros ->. reflexivity. Qed.

Lemma S1_ordinary (ALWAYS_ACTIVE NEVER_ACTIVE : Z) :
  0 <> ALWAYS_ACTIVE -> ordinary_deployment ALWAYS_ACTIVE NEVER_ACTIVE S1_checker.
Proof.
  intros Hstart. apply ordinary_deployment_iff. simpl. split; [done | lia].
Qed.

(** C2 (amended).  Scenario S1: after 32 blocks that do not signal the
    state is STARTED since height 32; after a second period with 28
    signalling and 4 other blocks, in any order, it is LOCKED_IN since
    height 64; after a third period it is ACTIVE since height 96. *)
Theorem S1_late_signal_lock_in (ALWAYS_ACTIVE NEVER_ACTIVE : Z)
    (second further : list bool) :
  0 <> ALWAYS_ACTIVE ->
  length second = 32%nat -> signals_set second = 28 -> length further = 32%nat ->
  S1_scenario ALWAYS_ACTIVE NEVER_ACTIVE second further
  = Some ((STARTED, 32), (LOCKED_IN, 64), (ACTIVE, 96)).
Proof.
  intros Hstart Hlen2 Hsig Hlen3.
  pose proof (S1_ordinary ALWAYS_ACTIVE NEVER_ACTIVE Hstart) as Hord.
  assert (0 < Period S1_checker) as Hpos by reflexivity.
  unfold S1_scenario. cbv zeta.
  set (blocks0 := mkBlocks [] ver_signal ver_nosignal).
  set (blocks1 := mine_blocks blocks0 (replicate 32 false)).
  set (blocks2 := mine_blocks blocks1 second).
  set (blocks3 := mine_blocks blocks2 further).
  (* the three tips *)
  destruct (mine_blocks_spec S1_checker blocks0 (replicate 32 false)
              (blocks_ok_empty _ _) S1_condition_signal S1_condition_nosignal)
    as (Hok1 & Hs1 & Hn1 & Hh1 & Ha1 & _).
  fold blocks1 in Hok1, Hs1, Hn1, Hh1, Ha1.
  destruct Ha1 as (b31 & Htip1 & Hanc1); [done|].
  destruct (mine_blocks_spec S1_checker blocks1 second Hok1) as (Hok2 & Hs2 & Hn2 & Hh2 & Ha2 & Hc2).
  { intros b Hb. apply S1_condition_signal. rewrite Hb, Hs1. reflexivity. }
  { intros b Hb. apply S1_condition_nosignal. rewrite Hb, Hn1. reflexivity. }
  fold blocks2 in Hok2, Hs2, Hn2, Hh2, Ha2, Hc2.
  destruct Ha2 as (b63 & Htip2 & Hanc2); [intros ->; done|].
  destruct (mine_blocks_spec S1_checker blocks2 further Hok2) as (Hok3 & _ & _ & Hh3 & Ha3 & _).
  { intros b Hb. apply S1_condition_signal. rewrite Hb, Hs2, Hs1. reflexivity. }
  { intros b Hb. apply S1_condition_nosignal. rewrite Hb, Hn2, Hn1. reflexivity. }
  fold blocks3 in Hok3, Hh3, Ha3.
  destruct Ha3 as (b95 & Htip3 & Hanc3); [intros ->; done|].
  pose proof (proj1 Hok1) as Hchain1. pose proof (proj1 Hok2) as Hchain2.
  pose proof (proj1 Hok3) as Hchain3.
  rewrite Htip1 in *. rewrite Htip2 in *. rewrite Htip3 in *.
  rewrite Hlen2 in *. rewrite Hlen3 in *. rewrite length_replicate in Hh1.
  change (next_height (tip blocks0)) with 0 in *. simpl in Hh1, Hh2, Hh3, Hanc2, Hanc3.
  assert (nHeight b31 = 31) as H31 by lia.
  assert (nHeight b63 = 63) as H63 by lia.
  assert (nHeight b95 = 95) as H95 by lia.
  assert (on_boundary S1_checker (Some b31)) as Hob1.
  { split; [apply Hchain1|]. rewrite H31. reflexivity. }
  assert (on_boundary S1_checker (Some b63)) as Hob2.
  { split; [apply Hchain2|]. rewrite H63. reflexivity. }
  assert (on_boundary S1_checker (Some b95)) as Hob3.
  { split; [apply Hchain3|]. rewrite H95. reflexivity. }
  assert (previous_period S1_checker b31 = None) as Hp1.
  { unfold previous_period. rewrite H31. exact Hanc1. }
  assert (previous_period S1_checker b63 = Some b31) as Hp2.
  { unfold previous_period. rewrite H63. rewrite <- Hanc2. f_equal. rewrite H31. reflexivity. }
  assert (previous_period S1_checker b95 = Some b63) as Hp3.
  { unfold previous_period. rewrite H95. rewrite <- Hanc3. f_equal. rewrite H63. reflexivity. }
  (* after block 31 *)
  destruct (query_first_period ALWAYS_ACTIVE NEVER_ACTIVE S1_checker Hpos b31
              STARTED DEFINED ∅ Hord Hob1 (cache_ok_empty S1_checker))
    as (cache1 & Hq1 & Hc1 & Hst1); try done.
  { rewrite Hp1. constructor. }
  { unfold next_state. rewrite H31. reflexivity. }
  (* after block 63 *)
  destruct (query_first_period ALWAYS_ACTIVE NEVER_ACTIVE S1_checker Hpos b63
              LOCKED_IN STARTED cache1 Hord Hob2 Hc1)
    as (cache2 & Hq2 & Hc2' & Hst2); try done.
  { rewrite Hp2. exact Hst1. }
  { unfold next_state. rewrite (count_signals_boundary S1_checker Hpos b63 Hob2).
    change (Z.to_nat (Period S1_checker)) with 32%nat.
    change (ancestry b63) with (ancestry_of (Some b63)). rewrite Hc2, Hsig.
    reflexivity. }
  (* after block 95 *)
  destruct (query_first_period ALWAYS_ACTIVE NEVER_ACTIVE S1_checker Hpos b95
              ACTIVE LOCKED_IN cache2 Hord Hob3 Hc2')
    as (cache3 & Hq3 & _ & _); try done.
  { rewrite Hp3. exact Hst2. }
  { unfold next_state. rewrite H95. reflexivity. }
  rewrite Hq1. simpl. rewrite Hq2. simpl. rewrite Hq3. simpl.
  rewrite H31, H63, H95. reflexivity.
Qed.

Lemma S1_late_signal_lock_in_witness :
  S1_scenario (-1) (-2) (replicate 2 false ++ replicate 28 true ++ replicate 2 false)
    (replicate 32 true)
  = Some ((STARTED, 32), (LOCKED_IN, 64), (ACTIVE, 96)).
Proof.
  apply (S1_late_signal_lock_in (-1) (-2)).
  - lia.
  - reflexivity.
  - reflexivity.
  - reflexivity.
Defined.

(** C2 with the since-heights 0, 32 and 64: with the 28 signalling blocks
    first in the second period, the scenario does not give them after
    blocks 31, 63 and 95. *)
Lemma S1_since_counterexample :
  S1_scenario (-1) (-2) (replicate 28 true ++ replicate 4 false) (replicate 32 false)
  = Some ((STARTED, 32), (LOCKED_IN, 64), (ACTIVE, 96))
  /\ S1_scenario (-1) (-2) (replicate 28 true ++ replicate 4 false) (replicate 32 false)
     <> Some ((STARTED, 0), (LOCKED_IN, 32), (ACTIVE, 64)).
Proof. split; vm_compute; [reflexivity | discriminate]. Qed.

(** * Further properties of the engine *)

(** ** The cache *)

Section CacheFacts.

Variables ALWAYS_ACTIVE NEVER_ACTIVE : Z.
Variable ck : AbstractThresholdConditionChecker.
Hypothesis period_pos : 0 < Period ck.

Lemma state_run_det (init : ThresholdState) (b f1 f2 : CBlockIndex) :
  state_run ck init b f1 -> state_run ck init b f2 -> f1 = f2.
Proof.
  intros H1. revert f2.
  induction H1 as [b Hstop | b a first Hprev Hst _ IH]; intros f2 H2;
    inversion H2 as [b' Hstop' | b' a' first' Hprev' Hst' Hrun']; subst.
  - done.
  - destruct Hstop. rewrite Hprev'. done.
  - destruct Hstop'. rewrite Hprev. done.
  - rewrite Hprev in Hprev'. injection Hprev' as <-. apply IH. done.
Qed.

(** The walk of [GetStateSinceHeightFor] ends at the start of the run of
    periods that have the initial state. *)
Lemma since_walk_run (fuel : nat) :
  forall (b : CBlockIndex) (init : ThresholdState)
         (cache : ThresholdConditionCache) (first : CBlockIndex)
         (cache' : ThresholdConditionCache),
    ordinary_deployment ALWAYS_ACTIVE NEVER_ACTIVE ck -> init <> DEFINED ->
    on_boundary ck (Some b) -> cache_ok ck cache ->
    since_walk ALWAYS_ACTIVE NEVER_ACTIVE ck fuel b (previous_period ck b)
      init cache = Some (first, cache') ->
    state_run ck init b first.
Proof.
  induction fuel as [|fuel IH]; intros b init cache first cache' Hord Hinit Hb Hc;
    destruct (previous_period_spec ck period_pos b Hb) as [Hp _];
    destruct (previous_period ck b) as [a|] eqn:Ea; simpl.
  - destruct (GetStateFor_ordinary ALWAYS_ACTIVE NEVER_ACTIVE ck period_pos
                (Some a) cache Hord (proj1 Hp) Hc)
      as (P & st & c1 & HP & _ & HG & Hst & Hc1).
    rewrite (align_boundary ck period_pos a Hp) in HP. injection HP as <-.
    simpl in HG. rewrite HG.
    destruct (decide (st = init)) as [->|Hne]; [done|].
    intros [= <- <-]. apply state_run_stop. rewrite Ea.
    intros Hs. apply Hne. eapply period_state_det; eauto.
  - intros [= <- <-]. apply state_run_stop. rewrite Ea.
    intros Hs. apply period_state_nullptr in Hs. done.
  - destruct (GetStateFor_ordinary ALWAYS_ACTIVE NEVER_ACTIVE ck period_pos
                (Some a) cache Hord (proj1 Hp) Hc)
      as (P & st & c1 & HP & _ & HG & Hst & Hc1).
    rewrite (align_boundary ck period_pos a Hp) in HP. injection HP as <-.
    simpl in HG. rewrite HG.
    destruct (decide (st = init)) as [->|Hne].
    + intros Hw. apply state_run_back with (a := a); [done | done |].
      eapply IH; eauto.
    + intros [= <- <-]. apply state_run_stop. rewrite Ea.
      intros Hs. apply Hne. eapply period_state_det; eauto.
  - intros [= <- <-]. apply state_run_stop. rewrite Ea.
    intros Hs. apply period_state_nullptr in Hs. done.
Qed.

(** What a since-height query returns for an ordinary deployment. *)
Lemma GetStateSinceHeightFor_run (p : option CBlockIndex)
    (cache : ThresholdConditionCache) :
  ordinary_deployment ALWAYS_ACTIVE NEVER_ACTIVE ck ->
  ptr_ok p = true -> cache_ok ck cache ->
  exists P state since cache',
    align ck p = Some P /\ on_boundary ck P /\ period_state ck P state
    /\ GetStateSinceHeightFor ALWAYS_ACTIVE NEVER_ACTIVE ck p cache
       = Some (since, cache')
    /\ cache_ok ck cache'
    /\ (state = DEFINED -> since = 0)
    /\ (state <> DEFINED ->
        exists b first, P = Some b /\ since = nHeight first + 1
                        /\ state_run ck state b first).
Proof.
  intros Hord Hp Hc.
  destruct (GetStateSinceHeightFor_ordinary ALWAYS_ACTIVE NEVER_ACTIVE ck period_pos
              p cache Hord Hp Hc)
    as (P & state & since & cache' & HP & Hob & Hst & HS & Hc' & Hdef & _).
  exists P, state, since, cache'.
  split; [done|]. split; [done|]. split; [done|]. split; [done|].
  split; [done|]. split; [done|]. intros Hnd.
  destruct (GetStateFor_ordinary ALWAYS_ACTIVE NEVER_ACTIVE ck period_pos p cache
              Hord Hp Hc) as (P' & st & c1 & HP' & _ & HG & Hst' & Hc1).
  rewrite HP in HP'. injection HP' as <-.
  rewrite (period_state_det ck _ _ _ Hst' Hst) in HG.
  unfold GetStateSinceHeightFor in HS. rewrite (proj2 Hord), HG in HS.
  destruct (decide (state = DEFINED)); [done|].
  destruct p as [b0|]; [|done]. simpl in HP. rewrite HP in HS.
  destruct P as [b|]; [|done].
  destruct (since_walk ALWAYS_ACTIVE NEVER_ACTIVE ck
              (Z.to_nat (next_height (Some b))) b (previous_period ck b) state c1)
    as [[first c2]|] eqn:Hw; [|done].
  injection HS as <- <-. exists b, first. split; [done|]. split; [done|].
  eapply since_walk_run; eauto.
Qed.

Lemma GetStateSinceHeightFor_shortcut (state : ThresholdState)
    (p : option CBlockIndex) (cache : ThresholdConditionCache) :
  (state = DEFINED \/ (state = ACTIVE /\ StartHeight ck = ALWAYS_ACTIVE)) ->
  (forall p cache,
      GetStateFor ALWAYS_ACTIVE NEVER_ACTIVE ck p cache = Some (state, cache)) ->
  GetStateSinceHeightFor ALWAYS_ACTIVE NEVER_ACTIVE ck p cache = Some (0, cache).
Proof.
  intros Hstate Hall. unfold GetStateSinceHeightFor. rewrite Hall.
  destruct (Z.eqb_spec (StartHeight ck) ALWAYS_ACTIVE); [done|].
  destruct Hstate as [-> | [_ ?]]; done.
Qed.

Lemma GetStateSinceHeightFor_keeps_cache_ok (p : option CBlockIndex)
    (cache : ThresholdConditionCache) :
  ptr_ok p = true -> cache_ok ck cache ->
  exists since cache',
    GetStateSinceHeightFor ALWAYS_ACTIVE NEVER_ACTIVE ck p cache
    = Some (since, cache')
    /\ cache_ok ck cache'.
Proof.
  intros Hp Hc.
  destruct (deployment_cases ALWAYS_ACTIVE NEVER_ACTIVE ck)
    as [Hord | (state & Hstate & Hall)].
  - destruct (GetStateSinceHeightFor_run p cache Hord Hp Hc)
      as (P & state & since & cache' & _ & _ & _ & HS & Hc' & _).
    eauto.
  - exists 0, cache. split; [|done].
    eapply GetStateSinceHeightFor_shortcut; eauto.
Qed.

Lemma engine_cache_ok (cache : ThresholdConditionCache) :
  engine_cache ALWAYS_ACTIVE NEVER_ACTIVE ck cache -> cache_ok ck cache.
Proof.
  induction 1 as [| p cache state cache' _ IH Hp HG | p cache since cache' _ IH Hp HS].
  - apply cache_ok_empty.
  - destruct (GetStateFor_keeps_cache_ok ALWAYS_ACTIVE NEVER_ACTIVE ck p cache
                period_pos Hp IH) as (st & c' & HG' & Hc').
    rewrite HG in HG'. injection HG' as <- <-. done.
  - destruct (GetStateSinceHeightFor_keeps_cache_ok p cache Hp IH)
      as (st & c' & HS' & Hc').
    rewrite HS in HS'. injection HS' as <- <-. done.
Qed.

(** Two true caches give the same since-height. *)
Lemma GetStateSinceHeightFor_two_caches (p : option CBlockIndex)
    (cache1 cache2 : ThresholdConditionCache) :
  ptr_ok p = true -> cache_ok ck cache1 -> cache_ok ck cache2 ->
  exists since c1 c2,
    GetStateSinceHeightFor ALWAYS_ACTIVE NEVER_ACTIVE ck p cache1 = Some (since, c1)
    /\ GetStateSinceHeightFor ALWAYS_ACTIVE NEVER_ACTIVE ck p cache2 = Some (since, c2).
Proof.
  intros Hp Hc1 Hc2.
  destruct (deployment_cases ALWAYS_ACTIVE NEVER_ACTIVE ck)
    as [Hord | (state & Hstate & Hall)].
  - destruct (GetStateSinceHeightFor_run p cache1 Hord Hp Hc1)
      as (P1 & st1 & since1 & c1 & HP1 & _ & Hst1 & HS1 & _ & Hdef1 & Hrun1).
    destruct (GetStateSinceHeightFor_run p cache2 Hord Hp Hc2)
      as (P2 & st2 & since2 & c2 & HP2 & _ & Hst2 & HS2 & _ & Hdef2 & Hrun2).
    rewrite HP1 in HP2. injection HP2 as <-.
    pose proof (period_state_det ck _ _ _ Hst2 Hst1) as ->.
    exists since1, c1, c2. split; [done|]. rewrite HS2. do 2 f_equal.
    destruct (decide (st1 = DEFINED)) as [Hd|Hnd].
    + rewrite (Hdef1 Hd), (Hdef2 Hd). done.
    + destruct (Hrun1 Hnd) as (b1 & f1 & -> & -> & Hr1).
      destruct (Hrun2 Hnd) as (b2 & f2 & [= <-] & -> & Hr2).
      rewrite (state_run_det _ _ _ _ Hr2 Hr1). done.
  - exists 0, cache1, cache2.
    split; eapply GetStateSinceHeightFor_shortcut; eauto.
Qed.

End CacheFacts.

Section CacheGrowth.

Variables ALWAYS_ACTIVE NEVER_ACTIVE : Z.
Variable ck : AbstractThresholdConditionChecker.

Lemma walk_back_hit (fuel : nat) (P : option CBlockIndex)
    (cache : ThresholdConditionCache) (v : list CBlockIndex)
    (state : ThresholdState) :
  cache !! P = Some state -> walk_back ck fuel P cache v = Some (P, cache, v).
Proof. intros H. destruct fuel; simpl; rewrite H; done. Qed.

(** The stack after the first loop ends with the pointer the loop started
    from, unless the loop stopped at once. *)
Lemma walk_back_shape (fuel : nat) :
  forall (P : option CBlockIndex) (cache : ThresholdConditionCache)
         (v : list CBlockIndex) (P' : option CBlockIndex)
         (cache' : ThresholdConditionCache) (v' : list CBlockIndex),
    walk_back ck fuel P cache v = Some (P', cache', v') ->
    exists v0, v' = v0 ++ v /\ is_Some (cache' !! P')
               /\ ((v0 = [] /\ P' = P) \/ exists v1 b, v0 = v1 ++ [b] /\ P = Some b).
Proof.
  induction fuel as [|fuel IH]; intros P cache v P' cache' v'; simpl;
    destruct (cache !! P) as [st|] eqn:E.
  - intros [= <- <- <-]. exists []. rewrite E. eauto.
  - destruct P as [b|].
    + destruct (nHeight b + 1 <? StartHeight ck); [|done].
      intros [= <- <- <-]. exists []. rewrite lookup_insert_eq. eauto.
    + intros [= <- <- <-]. exists []. rewrite lookup_insert_eq. eauto.
  - intros [= <- <- <-]. exists []. rewrite E. eauto.
  - destruct P as [b|].
    + destruct (nHeight b + 1 <? StartHeight ck).
      * intros [= <- <- <-]. exists []. rewrite lookup_insert_eq. eauto.
      * intros Hw. apply IH in Hw as (v0 & -> & Hsome & _).
        exists (v0 ++ [b]). rewrite <- app_assoc. split; [done|]. split; [done|].
        right. eauto.
    + intros [= <- <- <-]. exists []. rewrite lookup_insert_eq. eauto.
Qed.

Lemma walk_forward_last (b : CBlockIndex) (v1 : list CBlockIndex) :
  forall (state : ThresholdState) (cache : ThresholdConditionCache)
         (state' : ThresholdState) (cache' : ThresholdConditionCache),
    walk_forward ck (v1 ++ [b]) state cache = Some (state', cache') ->
    cache' !! Some b = Some state'.
Proof.
  induction v1 as [|a r IH]; intros state cache state' cache'; cbn -[next_state].
  - destruct (next_state ck state b) as [st|]; [|done].
    intros [= <- <-]. apply lookup_insert_eq.
  - destruct (next_state ck state a) as [st|]; [|done]. apply IH.
Qed.

Lemma GetStateFor_repeat (p : option CBlockIndex) (cache : ThresholdConditionCache)
    (state : ThresholdState) (cache' : ThresholdConditionCache) :
  GetStateFor ALWAYS_ACTIVE NEVER_ACTIVE ck p cache = Some (state, cache') ->
  GetStateFor ALWAYS_ACTIVE NEVER_ACTIVE ck p cache' = Some (state, cache')
  /\ (ordinary_deployment ALWAYS_ACTIVE NEVER_ACTIVE ck ->
      exists P, align ck p = Some P /\ cache' !! P = Some state).
Proof.
  unfold GetStateFor, ordinary_deployment.
  destruct ((StartHeight ck =? NEVER_ACTIVE) && (TimeoutHeight ck =? NEVER_ACTIVE)).
  { intros [= <- <-]. split; [done | intros [? _]; done]. }
  destruct (StartHeight ck =? ALWAYS_ACTIVE).
  { intros [= <- <-]. split; [done | intros [_ ?]; done]. }
  destruct (align ck p) as [P|]; [|done].
  destruct (walk_back ck (Z.to_nat (next_height P)) P cache [])
    as [[[P' c1] v']|] eqn:Hw; [|done].
  destruct (c1 !! P') as [st|] eqn:Hl; [|done].
  apply walk_back_shape in Hw as (v0 & -> & _ & Hshape).
  rewrite app_nil_r. intros Hf.
  assert (cache' !! P = Some state) as Hhit.
  { destruct Hshape as [[-> ->] | (v1 & b & -> & ->)].
    - simpl in Hf. injection Hf as <- <-. done.
    - eapply walk_forward_last; eauto. }
  rewrite (walk_back_hit _ _ _ _ _ Hhit), Hhit. simpl. split; [done|]. eauto.
Qed.

Hypothesis period_pos : 0 < Period ck.

Lemma linked_heights (v : list CBlockIndex) :
  forall (from to : option CBlockIndex),
    linked ck from v to ->
    Forall (fun b => next_height from < next_height (Some b)) v /\ NoDup v.
Proof.
  induction v as [|b r IH]; intros from to; simpl.
  - intros _. split; constructor.
  - intros (Hprev & Hb & Hr). subst from.
    destruct (previous_period_spec ck period_pos b Hb) as [_ Hh].
    destruct (IH _ _ Hr) as [Hall Hnd]. split.
    + constructor; [simpl; lia|].
      eapply Forall_impl; [exact Hall|]. simpl. intros x Hx. lia.
    + constructor; [|done]. intros Hin.
      rewrite Forall_forall in Hall. specialize (Hall b Hin). simpl in Hall. lia.
Qed.

(** The first loop writes at most one entry, at the pointer it stops at,
    and only pushes blocks the cache does not hold. *)
Lemma walk_back_frame (fuel : nat) :
  forall (P : option CBlockIndex) (cache : ThresholdConditionCache)
         (v : list CBlockIndex) (P' : option CBlockIndex)
         (cache' : ThresholdConditionCache) (v' : list CBlockIndex),
    on_boundary ck P ->
    walk_back ck fuel P cache v = Some (P', cache', v') ->
    exists v0, v' = v0 ++ v /\ linked ck P' v0 P
               /\ (cache' = cache \/ (cache !! P' = None /\ cache' = <[P' := DEFINED]> cache))
               /\ Forall (fun b => cache !! Some b = None) v0.
Proof.
  induction fuel as [|fuel IH]; intros P cache v P' cache' v' HP; simpl;
    destruct (cache !! P) as [st|] eqn:E.
  - intros [= <- <- <-]. exists []. simpl. eauto.
  - destruct P as [b|].
    + destruct (nHeight b + 1 <? StartHeight ck); [|done].
      intros [= <- <- <-]. exists []. simpl. eauto 6.
    + intros [= <- <- <-]. exists []. simpl. eauto 6.
  - intros [= <- <- <-]. exists []. simpl. eauto.
  - destruct P as [b|].
    + destruct (nHeight b + 1 <? StartHeight ck).
      * intros [= <- <- <-]. exists []. simpl. eauto 6.
      * intros Hw. destruct (previous_period_spec ck period_pos b HP) as [Hp _].
        apply IH in Hw as (v0 & -> & Hl & Hc & Hall); [|done].
        exists (v0 ++ [b]). rewrite <- app_assoc. split; [done|].
        split; [apply linked_snoc; done|]. split; [done|].
        apply Forall_app. split; [done|]. constructor; [done | constructor].
    + intros [= <- <- <-]. exists []. simpl. eauto 6.
Qed.

Lemma walk_forward_grows (v : list CBlockIndex) :
  forall (state : ThresholdState) (cache : ThresholdConditionCache)
         (state' : ThresholdState) (cache' : ThresholdConditionCache),
    NoDup v -> Forall (fun b => cache !! Some b = None) v ->
    walk_forward ck v state cache = Some (state', cache') ->
    cache ⊆ cache'.
Proof.
  induction v as [|b r IH]; intros state cache state' cache' Hnd Hall;
    cbn -[next_state].
  - intros [= <- <-]. done.
  - destruct (next_state ck state b) as [st|]; [|done]. intros Hf.
    apply NoDup_cons in Hnd as [Hnotin Hnd].
    apply Forall_cons in Hall as [Hb Hall].
    transitivity (<[Some b := st]> cache); [apply insert_subseteq; done|].
    eapply IH; [done | | exact Hf].
    rewrite Forall_forall in Hall |- *. intros x Hx.
    rewrite lookup_insert_ne; [apply Hall; done|].
    intros [= ->]. done.
Qed.

Lemma GetStateFor_grows (p : option CBlockIndex) (cache : ThresholdConditionCache)
    (state : ThresholdState) (cache' : ThresholdConditionCache) :
  ptr_ok p = true ->
  GetStateFor ALWAYS_ACTIVE NEVER_ACTIVE ck p cache = Some (state, cache') ->
  cache ⊆ cache'.
Proof.
  intros Hp. unfold GetStateFor.
  destruct ((StartHeight ck =? NEVER_ACTIVE) && (TimeoutHeight ck =? NEVER_ACTIVE)).
  { intros [= <- <-]. done. }
  destruct (StartHeight ck =? ALWAYS_ACTIVE).
  { intros [= <- <-]. done. }
  destruct (align_spec ck period_pos p Hp) as (P & -> & Hob & _).
  destruct (walk_back ck (Z.to_nat (next_height P)) P cache [])
    as [[[P' c1] v']|] eqn:Hw; [|done].
  destruct (c1 !! P') as [st|] eqn:Hl; [|done].
  apply walk_back_frame in Hw as (v0 & -> & Hlk & Hc1 & Hall); [|done].
  rewrite app_nil_r. intros Hf.
  destruct (linked_heights _ _ _ Hlk) as [Hheights Hnd].
  assert (cache ⊆ c1) as Hsub.
  { destruct Hc1 as [-> | [Hnone ->]]; [done | apply insert_subseteq; done]. }
  transitivity c1; [done|].
  eapply walk_forward_grows; [done | | exact Hf].
  destruct Hc1 as [-> | [Hnone ->]]; [done|].
  rewrite Forall_forall in Hall, Hheights |- *. intros x Hx.
  rewrite lookup_insert_ne; [apply Hall; done|].
  intros ->. specialize (Hheights x Hx). lia.
Qed.

Lemma since_walk_grows (fuel : nat) :
  forall (b : CBlockIndex) (init : ThresholdState)
         (cache : ThresholdConditionCache) (first : CBlockIndex)
         (cache' : ThresholdConditionCache),
    on_boundary ck (Some b) ->
    since_walk ALWAYS_ACTIVE NEVER_ACTIVE ck fuel b (previous_period ck b)
      init cache = Some (first, cache') ->
    cache ⊆ cache'.
Proof.
  induction fuel as [|fuel IH]; intros b init cache first cache' Hb;
    destruct (previous_period_spec ck period_pos b Hb) as [Hp _];
    destruct (previous_period ck b) as [a|] eqn:Ea; simpl.
  - destruct (GetStateFor ALWAYS_ACTIVE NEVER_ACTIVE ck (Some a) cache)
      as [[st c1]|] eqn:HG; [|done].
    apply GetStateFor_grows in HG; [|apply Hp].
    destruct (decide (st = init)); [done|]. intros [= <- <-]. done.
  - intros [= <- <-]. done.
  - destruct (GetStateFor ALWAYS_ACTIVE NEVER_ACTIVE ck (Some a) cache)
      as [[st c1]|] eqn:HG; [|done].
    apply GetStateFor_grows in HG; [|apply Hp].
    destruct (decide (st = init)).
    + intros Hw. transitivity c1; [done|]. eapply IH; eauto.
    + intros [= <- <-]. done.
  - intros [= <- <-]. done.
Qed.

Lemma GetStateSinceHeightFor_grows (p : option CBlockIndex)
    (cache : ThresholdConditionCache) (since : Z)
    (cache' : ThresholdConditionCache) :
  ptr_ok p = true ->
  GetStateSinceHeightFor ALWAYS_ACTIVE NEVER_ACTIVE ck p cache = Some (since, cache') ->
  cache ⊆ cache'.
Proof.
  intros Hp. unfold GetStateSinceHeightFor.
  destruct (StartHeight ck =? ALWAYS_ACTIVE).
  { intros [= <- <-]. done. }
  destruct (GetStateFor ALWAYS_ACTIVE NEVER_ACTIVE ck p cache)
    as [[st c1]|] eqn:HG; [|done].
  apply GetStateFor_grows in HG; [|done].
  destruct (decide (st = DEFINED)). { intros [= <- <-]. done. }
  destruct p as [b0|]; [|done].
  destruct (period_boundary_spec ck period_pos b0 Hp) as (P & -> & Hob & _).
  destruct P as [b|]; [|done].
  destruct (since_walk ALWAYS_ACTIVE NEVER_ACTIVE ck
              (Z.to_nat (next_height (Some b))) b (previous_period ck b) st c1)
    as [[first c2]|] eqn:Hw; [|done].
  intros [= <- <-]. transitivity c1; [done|].
  eapply since_walk_grows; eauto.
Qed.

End CacheGrowth.

(** X1.  The cache does not change the answers: on any cache the engine
    has built for the deployment, a state query and a since-height query
    return what they return on an empty cache. *)
Theorem cache_keeps_answers (ALWAYS_ACTIVE NEVER_ACTIVE : Z)
    (ck : AbstractThresholdConditionChecker) (pindexPrev : option CBlockIndex)
    (cache : ThresholdConditionCache) :
  0 < Period ck -> ptr_ok pindexPrev = true ->
  engine_cache ALWAYS_ACTIVE NEVER_ACTIVE ck cache ->
  exists state since cache1 cache2 fresh1 fresh2,
    GetStateFor ALWAYS_ACTIVE NEVER_ACTIVE ck pindexPrev cache = Some (state, cache1)
    /\ GetStateFor ALWAYS_ACTIVE NEVER_ACTIVE ck pindexPrev ∅ = Some (state, fresh1)
    /\ GetStateSinceHeightFor ALWAYS_ACTIVE NEVER_ACTIVE ck pindexPrev cache
       = Some (since, cache2)
    /\ GetStateSinceHeightFor ALWAYS_ACTIVE NEVER_ACTIVE ck pindexPrev ∅
       = Some (since, fresh2).
Proof.
  intros Hpos Hp Hcache.
  pose proof (engine_cache_ok ALWAYS_ACTIVE NEVER_ACTIVE ck Hpos cache Hcache) as Hc.
  pose proof (cache_ok_empty ck) as He.
  destruct (GetStateFor_keeps_cache_ok ALWAYS_ACTIVE NEVER_ACTIVE ck pindexPrev cache
              Hpos Hp Hc) as (state & cache1 & HG & _).
  destruct (GetStateFor_keeps_cache_ok ALWAYS_ACTIVE NEVER_ACTIVE ck pindexPrev ∅
              Hpos Hp He) as (state' & fresh1 & HG' & _).
  pose proof (GetStateFor_deterministic ALWAYS_ACTIVE NEVER_ACTIVE ck pindexPrev
                cache ∅ Hpos Hp Hc He) as Hsame.
  rewrite HG, HG' in Hsame. simpl in Hsame. injection Hsame as <-.
  destruct (GetStateSinceHeightFor_two_caches ALWAYS_ACTIVE NEVER_ACTIVE ck Hpos
              pindexPrev cache ∅ Hp Hc He) as (since & cache2 & fresh2 & HS & HS').
  exists state, since, cache1, cache2, fresh1, fresh2. done.
Qed.

Lemma cache63_query :
  GetStateFor (-1) (-2) S1_checker (Some block63) ∅ = Some (LOCKED_IN, cache63).
Proof.
  assert (fst <$> GetStateFor (-1) (-2) S1_checker (Some block63) ∅ = Some LOCKED_IN)
    as H by (vm_compute; reflexivity).
  unfold cache63.
  destruct (GetStateFor (-1) (-2) S1_checker (Some block63) ∅) as [[state cache]|];
    [|discriminate].
  simpl in H. injection H as ->. reflexivity.
Qed.

Lemma cache_keeps_answers_witness :
  exists state since cache1 cache2 fresh1 fresh2,
    GetStateFor (-1) (-2) S1_checker (Some block40) cache63 = Some (state, cache1)
    /\ GetStateFor (-1) (-2) S1_checker (Some block40) ∅ = Some (state, fresh1)
    /\ GetStateSinceHeightFor (-1) (-2) S1_checker (Some block40) cache63
       = Some (since, cache2)
    /\ GetStateSinceHeightFor (-1) (-2) S1_checker (Some block40) ∅
       = Some (since, fresh2).
Proof.
  apply (cache_keeps_answers (-1) (-2) S1_checker (Some block40) cache63).
  - reflexivity.
  - vm_compute. reflexivity.
  - apply (engine_cache_state (-1) (-2) S1_checker (Some block63) ∅ LOCKED_IN).
    + apply engine_cache_empty.
    + vm_compute. reflexivity.
    + exact cache63_query.
Defined.

(** X2.  The cache only grows: a state query and a since-height query
    keep every entry the cache held, with its state. *)
Theorem cache_only_grows (ALWAYS_ACTIVE NEVER_ACTIVE : Z)
    (ck : AbstractThresholdConditionChecker) (pindexPrev : option CBlockIndex)
    (cache : ThresholdConditionCache) :
  0 < Period ck -> ptr_ok pindexPrev = true ->
  (forall state cache',
      GetStateFor ALWAYS_ACTIVE NEVER_ACTIVE ck pindexPrev cache = Some (state, cache') ->
      forall key entry, cache !! key = Some entry -> cache' !! key = Some entry)
  /\ (forall since cache',
        GetStateSinceHeightFor ALWAYS_ACTIVE NEVER_ACTIVE ck pindexPrev cache
        = Some (since, cache') ->
        forall key entry, cache !! key = Some entry -> cache' !! key = Some entry).
Proof.
  intros Hpos Hp. split.
  - intros state cache' HG key entry.
    apply (GetStateFor_grows ALWAYS_ACTIVE NEVER_ACTIVE ck Hpos) in HG; [|done].
    rewrite map_subseteq_spec in HG. apply HG.
  - intros since cache' HS key entry.
    apply (GetStateSinceHeightFor_grows ALWAYS_ACTIVE NEVER_ACTIVE ck Hpos) in HS; [|done].
    rewrite map_subseteq_spec in HS. apply HS.
Qed.

Lemma cache_only_grows_witness :
  (forall state cache',
      GetStateFor (-1) (-2) S1_checker (Some block40) {[ Some block31 := FAILED ]}
      = Some (state, cache') ->
      forall key entry, ({[ Some block31 := FAILED ]} : ThresholdConditionCache) !! key
                        = Some entry ->
                        cache' !! key = Some entry)
  /\ (forall since cache',
        GetStateSinceHeightFor (-1) (-2) S1_checker (Some block40)
          {[ Some block31 := FAILED ]} = Some (since, cache') ->
        forall key entry, ({[ Some block31 := FAILED ]} : ThresholdConditionCache) !! key
                          = Some entry ->
                          cache' !! key = Some entry).
Proof.
  apply (cache_only_grows (-1) (-2) S1_checker (Some block40)
           {[ Some block31 := FAILED ]}).
  - reflexivity.
  - vm_compute. reflexivity.
Defined.

(** X3.  A repeated state query is a cache hit: asked again on the cache
    it left, the engine returns the same state and leaves the cache as it
    is; for an ordinary deployment that cache holds the state at the
    period-boundary pointer of the query. *)
Theorem repeated_query_hits_cache (ALWAYS_ACTIVE NEVER_ACTIVE : Z)
    (ck : AbstractThresholdConditionChecker) (pindexPrev : option CBlockIndex)
    (cache : ThresholdConditionCache) (state : ThresholdState)
    (cache' : ThresholdConditionCache) :
  GetStateFor ALWAYS_ACTIVE NEVER_ACTIVE ck pindexPrev cache = Some (state, cache') ->
  GetStateFor ALWAYS_ACTIVE NEVER_ACTIVE ck pindexPrev cache' = Some (state, cache')
  /\ (ordinary_deployment ALWAYS_ACTIVE NEVER_ACTIVE ck ->
      exists P, align ck pindexPrev = Some P /\ cache' !! P = Some state).
Proof. apply GetStateFor_repeat. Qed.

Lemma repeated_query_hits_cache_witness :
  GetStateFor (-1) (-2) S1_checker (Some block63) cache63 = Some (LOCKED_IN, cache63)
  /\ (ordinary_deployment (-1) (-2) S1_checker ->
      exists P, align S1_checker (Some block63) = Some P
                /\ cache63 !! P = Some LOCKED_IN).
Proof.
  apply (repeated_query_hits_cache (-1) (-2) S1_checker (Some block63) ∅).
  exact cache63_query.
Defined.

(** ** The state machine *)

Section StateFacts.

Variables ALWAYS_ACTIVE NEVER_ACTIVE : Z.
Variable ck : AbstractThresholdConditionChecker.
Hypothesis period_pos : 0 < Period ck.

Lemma period_state_step (b : CBlockIndex) (state : ThresholdState) :
  period_state ck (Some b) state ->
  exists before, period_state ck (previous_period ck b) before
                 /\ next_state ck before b = Some state.
Proof. inversion 1; subst; eauto. Qed.

Lemma period_state_exists (P : option CBlockIndex) :
  ordinary_deployment ALWAYS_ACTIVE NEVER_ACTIVE ck -> on_boundary ck P ->
  exists state, period_state ck P state.
Proof.
  intros Hord HP.
  destruct (GetStateFor_boundary ALWAYS_ACTIVE NEVER_ACTIVE ck period_pos P ∅
              Hord HP (cache_ok_empty ck)) as (state & _ & _ & Hst & _).
  eauto.
Qed.

Lemma next_state_from_DEFINED (b : CBlockIndex) (state : ThresholdState) :
  next_state ck DEFINED b = Some state ->
  (state = DEFINED /\ nHeight b + 1 < StartHeight ck)
  \/ (state = STARTED /\ StartHeight ck <= nHeight b + 1).
Proof.
  unfold next_state.
  destruct (Z.geb_spec (nHeight b + 1) (StartHeight ck)); intros [= <-];
    [right | left]; split; (done || lia).
Qed.

Lemma period_state_started_height (P : option CBlockIndex) (state : ThresholdState) :
  period_state ck P state -> on_boundary ck P -> state <> DEFINED ->
  StartHeight ck <= next_height P.
Proof.
  induction 1 as [|b st st' Hprev IH Hn]; intros Hob Hnd; [done|].
  destruct (previous_period_spec ck period_pos b Hob) as [Hp Hh]. simpl.
  destruct (decide (st = DEFINED)) as [->|Hst].
  - apply next_state_from_DEFINED in Hn as [[-> _] | [_ Hge]]; done.
  - specialize (IH Hp Hst). lia.
Qed.

Lemma period_state_defined_iff (P : option CBlockIndex) (state : ThresholdState) :
  period_state ck P state -> on_boundary ck P ->
  (state = DEFINED <-> P = None \/ next_height P < StartHeight ck).
Proof.
  intros Hst Hob. split.
  - intros ->. destruct P as [b|]; [right | left; done].
    apply period_state_step in Hst as (before & Hbefore & Hn).
    pose proof (next_state_DEFINED_inv ck _ _ Hn) as ->.
    apply next_state_from_DEFINED in Hn as [[_ Hlt] | [? _]]; done.
  - intros [-> | Hlt].
    + apply (period_state_nullptr ck) in Hst. done.
    + destruct P as [b|]; [|apply (period_state_nullptr ck) in Hst; done].
      eapply period_state_det; [exact Hst|].
      apply (before_start_defined ck period_pos (Z.to_nat (nHeight b + 1)));
        [done | | done].
      destruct Hob as [Hb _]. apply chain_ok_height in Hb. lia.
Qed.

Lemma period_state_failed_height (P : option CBlockIndex) :
  period_state ck P FAILED -> on_boundary ck P -> TimeoutHeight ck <= next_height P.
Proof.
  remember FAILED as st eqn:Est. intros Hs. revert Est.
  induction Hs as [|b st st' Hprev IH Hn]; intros Est Hob; [discriminate|].
  subst st'. destruct (previous_period_spec ck period_pos b Hob) as [Hp Hh]. simpl.
  apply next_state_FAILED_inv in Hn as [Hst | (_ & Hto & _)]; [|done].
  specialize (IH Hst Hp). lia.
Qed.

(** The two queries at the ends of a period, read through the states of
    the two boundary pointers. *)
Lemma consecutive_queries (b : CBlockIndex) (cache : ThresholdConditionCache) :
  ordinary_deployment ALWAYS_ACTIVE NEVER_ACTIVE ck ->
  on_boundary ck (Some b) -> cache_ok ck cache ->
  exists before after cache1 cache2,
    GetStateFor ALWAYS_ACTIVE NEVER_ACTIVE ck (previous_period ck b) cache
    = Some (before, cache1)
    /\ GetStateFor ALWAYS_ACTIVE NEVER_ACTIVE ck (Some b) cache = Some (after, cache2)
    /\ period_state ck (previous_period ck b) before
    /\ period_state ck (Some b) after
    /\ next_state ck before b = Some after.
Proof.
  intros Hord Hob Hc.
  destruct (previous_period_spec ck period_pos b Hob) as [Hp _].
  destruct (GetStateFor_boundary ALWAYS_ACTIVE NEVER_ACTIVE ck period_pos
              (previous_period ck b) cache Hord Hp Hc)
    as (before & cache1 & HG1 & Hst1 & _).
  destruct (GetStateFor_boundary ALWAYS_ACTIVE NEVER_ACTIVE ck period_pos
              (Some b) cache Hord Hob Hc)
    as (after & cache2 & HG2 & Hst2 & _).
  exists before, after, cache1, cache2.
  split; [done|]. split; [done|]. split; [done|]. split; [done|].
  destruct (period_state_step b after Hst2) as (before' & Hbefore' & Hn).
  rewrite (period_state_det ck _ _ _ Hst1 Hbefore'). done.
Qed.

End StateFacts.

(** X4.  Consecutive periods: for an ordinary deployment the state
    returned for the last block [b] of a period is the state returned for
    the last block of the period before (or for none), taken through one
    step of the switch at [b], whatever the cache already holds and
    whether or not the start-height shortcut of the first loop is used. *)
Theorem consecutive_periods_step (ALWAYS_ACTIVE NEVER_ACTIVE : Z)
    (ck : AbstractThresholdConditionChecker) (b : CBlockIndex)
    (cache : ThresholdConditionCache) :
  0 < Period ck -> ordinary_deployment ALWAYS_ACTIVE NEVER_ACTIVE ck ->
  chain_ok b = true -> Z.rem (nHeight b + 1) (Period ck) = 0 ->
  engine_cache ALWAYS_ACTIVE NEVER_ACTIVE ck cache ->
  exists before after cache1 cache2,
    GetStateFor ALWAYS_ACTIVE NEVER_ACTIVE ck
      (GetAncestor b (nHeight b - Period ck)) cache = Some (before, cache1)
    /\ GetStateFor ALWAYS_ACTIVE NEVER_ACTIVE ck (Some b) cache = Some (after, cache2)
    /\ next_state ck before b = Some after.
Proof.
  intros Hpos Hord Hb Hrem Hcache.
  pose proof (engine_cache_ok ALWAYS_ACTIVE NEVER_ACTIVE ck Hpos cache Hcache) as Hc.
  destruct (consecutive_queries ALWAYS_ACTIVE NEVER_ACTIVE ck Hpos b cache Hord
              (conj Hb Hrem) Hc)
    as (before & after & cache1 & cache2 & HG1 & HG2 & _ & _ & Hn).
  exists before, after, cache1, cache2. done.
Qed.

Lemma consecutive_periods_step_witness :
  exists before after cache1 cache2,
    GetStateFor (-1) (-2) S1_checker
      (GetAncestor block63 (nHeight block63 - Period S1_checker)) ∅
    = Some (before, cache1)
    /\ GetStateFor (-1) (-2) S1_checker (Some block63) ∅ = Some (after, cache2)
    /\ next_state S1_checker before block63 = Some after.
Proof.
  apply (consecutive_periods_step (-1) (-2) S1_checker block63 ∅).
  - reflexivity.
  - split; vm_compute; reflexivity.
  - vm_compute. reflexivity.
  - vm_compute. reflexivity.
  - apply engine_cache_empty.
Defined.

(** X5.  Where each state comes from, on every chain, for an ordinary
    deployment: with [exp_state] the state before the period that ends at
    block [b], [state] the state after it, [height = b.height + 1] and
    [blocks_sig] the number of blocks of the period for which the
    condition holds:
    DEFINED comes from DEFINED and [height < start];
    STARTED has [height >= start] and comes from DEFINED, or from STARTED
    with [height < timeout] and [blocks_sig < threshold];
    MUST_SIGNAL comes from STARTED, with lock-in on timeout and
    [height >= timeout - period];
    LOCKED_IN comes from LOCKED_IN with [height < min_activation], from
    STARTED with [blocks_sig >= threshold], or from MUST_SIGNAL;
    ACTIVE has [height >= min_activation] and comes from ACTIVE or
    LOCKED_IN;
    FAILED has [height >= start], [height >= timeout] and comes from
    FAILED, or from STARTED with [blocks_sig < threshold].
    MUST_SIGNAL is always followed by LOCKED_IN, whatever [blocks_sig] is:
    the bound [blocks_sig >= threshold] that the harness asserts in that
    case as well is no property of the engine; it comes from the signals
    the harness forces in such a period. *)
Theorem state_after_period (ALWAYS_ACTIVE NEVER_ACTIVE : Z)
    (ck : AbstractThresholdConditionChecker) (b : CBlockIndex)
    (cache : ThresholdConditionCache) :
  0 < Period ck -> ordinary_deployment ALWAYS_ACTIVE NEVER_ACTIVE ck ->
  chain_ok b = true -> Z.rem (nHeight b + 1) (Period ck) = 0 ->
  engine_cache ALWAYS_ACTIVE NEVER_ACTIVE ck cache ->
  let height := nHeight b + 1 in
  let blocks_sig := signalling ck (take (Z.to_nat (Period ck)) (ancestry b)) in
  exists exp_state state cache1 cache2,
    GetStateFor ALWAYS_ACTIVE NEVER_ACTIVE ck
      (GetAncestor b (nHeight b - Period ck)) cache = Some (exp_state, cache1)
    /\ GetStateFor ALWAYS_ACTIVE NEVER_ACTIVE ck (Some b) cache = Some (state, cache2)
    /\ match state with
       | DEFINED => exp_state = DEFINED /\ height < StartHeight ck
       | STARTED =>
         StartHeight ck <= height
         /\ (exp_state = DEFINED
             \/ (exp_state = STARTED /\ height < TimeoutHeight ck
                 /\ blocks_sig < Threshold ck))
       | MUST_SIGNAL =>
         exp_state = STARTED /\ LockinOnTimeout ck = true
         /\ TimeoutHeight ck - Period ck <= height
       | LOCKED_IN =>
         (exp_state = LOCKED_IN /\ height < MinActivationHeight ck)
         \/ (exp_state = STARTED /\ Threshold ck <= blocks_sig)
         \/ exp_state = MUST_SIGNAL
       | ACTIVE =>
         MinActivationHeight ck <= height
         /\ (exp_state = ACTIVE \/ exp_state = LOCKED_IN)
       | FAILED =>
         StartHeight ck <= height /\ TimeoutHeight ck <= height
         /\ (exp_state = FAILED
             \/ (exp_state = STARTED /\ blocks_sig < Threshold ck))
       end
    /\ (exp_state = MUST_SIGNAL -> state = LOCKED_IN).
Proof.
  intros Hpos Hord Hb Hrem Hcache height blocks_sig.
  pose proof (engine_cache_ok ALWAYS_ACTIVE NEVER_ACTIVE ck Hpos cache Hcache) as Hc.
  assert (on_boundary ck (Some b)) as Hob by (split; done).
  destruct (consecutive_queries ALWAYS_ACTIVE NEVER_ACTIVE ck Hpos b cache Hord Hob Hc)
    as (exp_state & state & cache1 & cache2 & HG1 & HG2 & Hst1 & Hst2 & Hn).
  exists exp_state, state, cache1, cache2. split; [done|]. split; [done|].
  split; [|intros ->; injection Hn as <-; done].
  pose proof (period_state_started_height ck Hpos _ _ Hst2 Hob) as Hstart.
  pose proof (period_state_active ck Hpos (Some b)) as Hactive.
  pose proof (period_state_failed_height ck Hpos (Some b)) as Hfailed.
  simpl in Hstart, Hactive, Hfailed. fold height in Hstart, Hactive, Hfailed.
  unfold next_state in Hn. rewrite (count_signals_boundary ck Hpos b Hob) in Hn.
  fold blocks_sig in Hn. fold height in Hn.
  destruct exp_state.
  - destruct (Z.geb_spec height (StartHeight ck)); injection Hn as <-;
      [split; [lia | left; done] | split; [done | lia]].
  - destruct (Z.geb_spec blocks_sig (Threshold ck)).
    { injection Hn as <-. right. left. split; [done | lia]. }
    destruct (LockinOnTimeout ck) eqn:Hlot; simpl in Hn.
    + destruct (Z.geb_spec (height + Period ck) (TimeoutHeight ck)).
      { injection Hn as <-. split; [done|]. split; [done | lia]. }
      destruct (Z.geb_spec height (TimeoutHeight ck)); [lia|].
      injection Hn as <-. split; [apply Hstart; done|]. right.
      split; [done|]. split; lia.
    + destruct (Z.geb_spec height (TimeoutHeight ck)); injection Hn as <-.
      * split; [apply Hstart; done|]. split; [lia|]. right. split; [done | lia].
      * split; [apply Hstart; done|]. right. split; [done|]. split; lia.
  - injection Hn as <-. right. right. done.
  - destruct (Z.geb_spec height (MinActivationHeight ck)); injection Hn as <-.
    + split; [lia | right; done].
    + left. split; [done | lia].
  - injection Hn as <-. split; [apply Hactive; done | left; done].
  - injection Hn as <-. split; [apply Hstart; done|].
    split; [apply Hfailed; done | left; done].
Qed.

Lemma state_after_period_witness :
  let height := nHeight block63 + 1 in
  let blocks_sig :=
    signalling S1_checker (take (Z.to_nat (Period S1_checker)) (ancestry block63)) in
  exists exp_state state cache1 cache2,
    GetStateFor (-1) (-2) S1_checker
      (GetAncestor block63 (nHeight block63 - Period S1_checker)) ∅
    = Some (exp_state, cache1)
    /\ GetStateFor (-1) (-2) S1_checker (Some block63) ∅ = Some (state, cache2)
    /\ match state with
       | DEFINED => exp_state = DEFINED /\ height < StartHeight S1_checker
       | STARTED =>
         StartHeight S1_checker <= height
         /\ (exp_state = DEFINED
             \/ (exp_state = STARTED /\ height < TimeoutHeight S1_checker
                 /\ blocks_sig < Threshold S1_checker))
       | MUST_SIGNAL =>
         exp_state = STARTED /\ LockinOnTimeout S1_checker = true
         /\ TimeoutHeight S1_checker - Period S1_checker <= height
       | LOCKED_IN =>
         (exp_state = LOCKED_IN /\ height < MinActivationHeight S1_checker)
         \/ (exp_state = STARTED /\ Threshold S1_checker <= blocks_sig)
         \/ exp_state = MUST_SIGNAL
       | ACTIVE =>
         MinActivationHeight S1_checker <= height
         /\ (exp_state = ACTIVE \/ exp_state = LOCKED_IN)
       | FAILED =>
         StartHeight S1_checker <= height /\ TimeoutHeight S1_checker <= height
         /\ (exp_state = FAILED
             \/ (exp_state = STARTED /\ blocks_sig < Threshold S1_checker))
       end
    /\ (exp_state = MUST_SIGNAL -> state = LOCKED_IN).
Proof.
  apply (state_after_period (-1) (-2) S1_checker block63 ∅).
  - reflexivity.
  - split; vm_compute; reflexivity.
  - vm_compute. reflexivity.
  - vm_compute. reflexivity.
  - apply engine_cache_empty.
Defined.

(** X6.  For an ordinary deployment a query returns DEFINED exactly when
    its period-boundary pointer is none or the first block of the period
    is below the start height. *)
Theorem defined_iff_before_start (ALWAYS_ACTIVE NEVER_ACTIVE : Z)
    (ck : AbstractThresholdConditionChecker) (pindexPrev : option CBlockIndex)
    (cache : ThresholdConditionCache) :
  0 < Period ck -> ordinary_deployment ALWAYS_ACTIVE NEVER_ACTIVE ck ->
  ptr_ok pindexPrev = true -> engine_cache ALWAYS_ACTIVE NEVER_ACTIVE ck cache ->
  exists P state cache',
    align ck pindexPrev = Some P
    /\ GetStateFor ALWAYS_ACTIVE NEVER_ACTIVE ck pindexPrev cache = Some (state, cache')
    /\ (state = DEFINED <-> P = None \/ next_height P < StartHeight ck).
Proof.
  intros Hpos Hord Hp Hcache.
  pose proof (engine_cache_ok ALWAYS_ACTIVE NEVER_ACTIVE ck Hpos cache Hcache) as Hc.
  destruct (GetStateFor_ordinary ALWAYS_ACTIVE NEVER_ACTIVE ck Hpos pindexPrev cache
              Hord Hp Hc) as (P & state & cache' & HP & Hob & HG & Hst & _).
  exists P, state, cache'. split; [done|]. split; [done|].
  apply period_state_defined_iff; done.
Qed.

Lemma defined_iff_before_start_witness :
  exists P state cache',
    align (TestConditionChecker 64 10000 0 32 28 0 false) (Some block40) = Some P
    /\ GetStateFor (-1) (-2) (TestConditionChecker 64 10000 0 32 28 0 false)
         (Some block40) ∅ = Some (state, cache')
    /\ (state = DEFINED
        <-> P = None
            \/ next_height P < StartHeight (TestConditionChecker 64 10000 0 32 28 0 false)).
Proof.
  apply (defined_iff_before_start (-1) (-2)
           (TestConditionChecker 64 10000 0 32 28 0 false) (Some block40) ∅).
  - reflexivity.
  - split; vm_compute; reflexivity.
  - vm_compute. reflexivity.
  - apply engine_cache_empty.
Defined.

(** ** Periods along one chain *)

Lemma GetAncestor_trans (b : CBlockIndex) :
  forall (a : CBlockIndex) (h t : Z),
    chain_ok b = true -> GetAncestor b h = Some a -> t <= h ->
    GetAncestor b t = GetAncestor a t.
Proof.
  induction b as [v h0 | v h0 p IH] using CBlockIndex_chain_ind;
    intros a h t Hb Ha Ht; pose proof (GetAncestor_Some _ _ _ Ha) as [_ Hh];
    pose proof (chain_ok_height _ Hb) as Hnn.
  - simpl in Hh, Hnn. assert (h = 0) as -> by (simpl in Hb; lia).
    assert (h0 = 0) as -> by (simpl in Hb; lia).
    pose proof (GetAncestor_self (mkBlockIndex v 0 None)) as Hself.
    simpl in Hself. rewrite Hself in Ha by lia. injection Ha as <-. done.
  - simpl in Hh, Hnn. destruct (decide (h = h0)) as [->|Hne].
    + pose proof (GetAncestor_self (mkBlockIndex v h0 (Some p))) as Hself.
      simpl in Hself. rewrite Hself in Ha by lia. injection Ha as <-. done.
    + rewrite GetAncestor_below in Ha by (done || simpl; lia).
      rewrite GetAncestor_below by (done || simpl; lia). simpl in *.
      apply andb_prop in Hb as [_ Hp]. eapply IH; eauto.
Qed.

Lemma ancestry_GetAncestor (b : CBlockIndex) :
  forall a, chain_ok b = true -> a ∈ ancestry b ->
            GetAncestor b (nHeight a) = Some a /\ nHeight a <= nHeight b.
Proof.
  induction b as [v h0 | v h0 p IH] using CBlockIndex_chain_ind;
    intros a Hb Ha; pose proof (chain_ok_height _ Hb) as Hnn; simpl in Ha.
  - apply list_elem_of_singleton in Ha as ->.
    split; [apply GetAncestor_self; done | lia].
  - apply elem_of_cons in Ha as [-> | Ha].
    + split; [apply GetAncestor_self; done | lia].
    + pose proof Hb as Hb'. simpl in Hb'. apply andb_prop in Hb' as [Hh Hp].
      destruct (IH a Hp Ha) as [HA Hle]. simpl.
      rewrite GetAncestor_below by (done || simpl; lia). simpl. split; [done | lia].
Qed.

Section PeriodFacts.

Variables ALWAYS_ACTIVE NEVER_ACTIVE : Z.
Variable ck : AbstractThresholdConditionChecker.
Hypothesis period_pos : 0 < Period ck.

(** The boundary pointer before period [k] of the chain of [b]. *)
Lemma boundary_at_spec (b : CBlockIndex) (k : Z) :
  chain_ok b = true -> 0 <= k -> k * Period ck - 1 <= nHeight b ->
  on_boundary ck (GetAncestor b (k * Period ck - 1))
  /\ next_height (GetAncestor b (k * Period ck - 1)) = k * Period ck.
Proof.
  intros Hb Hk Hle.
  destruct (GetAncestor b (k * Period ck - 1)) as [a|] eqn:Ea.
  - pose proof (GetAncestor_ok _ _ _ Hb Ea) as Ha.
    apply GetAncestor_Some in Ea as [Eh _]. simpl.
    split; [split; [done|] | lia].
    apply (rem_zero_multiple ck period_pos). exists k. lia.
  - apply GetAncestor_None in Ea; [|done]. simpl. split; [done|]. nia.
Qed.

Lemma boundary_at_previous (b : CBlockIndex) (k : Z) :
  chain_ok b = true -> 1 <= k -> k * Period ck - 1 <= nHeight b ->
  exists c, GetAncestor b (k * Period ck - 1) = Some c
            /\ previous_period ck c = GetAncestor b ((k - 1) * Period ck - 1).
Proof.
  intros Hb Hk Hle.
  destruct (GetAncestor b (k * Period ck - 1)) as [c|] eqn:Ec.
  2:{ apply GetAncestor_None in Ec; [nia | done]. }
  exists c. split; [done|]. unfold previous_period.
  pose proof (GetAncestor_Some _ _ _ Ec) as [Eh _].
  rewrite (GetAncestor_trans b c (k * Period ck - 1) ((k - 1) * Period ck - 1))
    by (done || lia).
  f_equal. lia.
Qed.

Lemma align_index (q : CBlockIndex) :
  chain_ok q = true ->
  align ck (Some q)
  = Some (GetAncestor q ((nHeight q + 1) / Period ck * Period ck - 1)).
Proof.
  intros Hq. simpl. unfold period_boundary.
  destruct (Z.eqb_spec (Period ck) 0); [lia|].
  rewrite (rem_mod_height ck q period_pos Hq). do 2 f_equal.
  pose proof (Z.div_mod (nHeight q + 1) (Period ck)). lia.
Qed.

(** The boundary pointer of a block of the chain of [b], found from [b]. *)
Lemma align_in_chain (b q : CBlockIndex) :
  chain_ok b = true -> q ∈ ancestry b ->
  align ck (Some q)
  = Some (GetAncestor b ((nHeight q + 1) / Period ck * Period ck - 1))
  /\ chain_ok q = true /\ nHeight q <= nHeight b.
Proof.
  intros Hb Hq. destruct (ancestry_GetAncestor b q Hb Hq) as [HA Hle].
  pose proof (GetAncestor_ok _ _ _ Hb HA) as Hqok.
  pose proof (chain_ok_height _ Hqok) as Hnn.
  split; [|done]. rewrite (align_index q Hqok). f_equal. symmetry.
  apply (GetAncestor_trans b q (nHeight q)); [done | done |].
  pose proof (Z.div_mod (nHeight q + 1) (Period ck)).
  pose proof (Z.mod_pos_bound (nHeight q + 1) (Period ck) period_pos). lia.
Qed.

(** ACTIVE and FAILED stay for all later periods of the chain. *)
Lemma terminal_persists (b : CBlockIndex) (state : ThresholdState) (n : nat) :
  forall k,
    chain_ok b = true -> state = ACTIVE \/ state = FAILED -> 0 <= k ->
    (k + Z.of_nat n) * Period ck - 1 <= nHeight b ->
    period_state ck (GetAncestor b (k * Period ck - 1)) state ->
    period_state ck (GetAncestor b ((k + Z.of_nat n) * Period ck - 1)) state.
Proof.
  induction n as [|n IH]; intros k Hb Hterm Hk Hle Hst.
  - replace (k + Z.of_nat 0) with k by lia. done.
  - destruct (boundary_at_previous b (k + Z.of_nat (S n)) Hb) as (c & Hc & Hprev);
      [lia | done |].
    rewrite Hc. apply period_state_next with (state := state).
    + rewrite Hprev. replace (k + Z.of_nat (S n) - 1) with (k + Z.of_nat n) by lia.
      apply IH; [done | done | done | nia | done].
    + destruct Hterm as [-> | ->]; done.
Qed.

Lemma next_state_STARTED_inv (state : ThresholdState) (b : CBlockIndex) :
  next_state ck state b = Some STARTED ->
  state = DEFINED \/ (state = STARTED /\ nHeight b + 1 < TimeoutHeight ck).
Proof.
  unfold next_state. destruct state; try (repeat case_match; congruence).
  - intros _. left. done.
  - destruct (count_signals ck _ _ _) as [count|]; [|done].
    destruct (count >=? Threshold ck); [done|].
    destruct (LockinOnTimeout ck && _); [done|].
    destruct (Z.geb_spec (nHeight b + 1) (TimeoutHeight ck)); [done|].
    intros _. right. split; [done | lia].
Qed.

Lemma next_state_MUST_SIGNAL_inv (state : ThresholdState) (b : CBlockIndex) :
  next_state ck state b = Some MUST_SIGNAL -> state = STARTED.
Proof.
  unfold next_state. destruct state; repeat case_match; congruence.
Qed.

Lemma next_state_LOCKED_IN_inv (state : ThresholdState) (b : CBlockIndex) :
  next_state ck state b = Some LOCKED_IN ->
  state = STARTED \/ state = MUST_SIGNAL
  \/ (state = LOCKED_IN /\ nHeight b + 1 < MinActivationHeight ck).
Proof.
  unfold next_state. destruct state; try (repeat case_match; congruence).
  - intros _. left. done.
  - intros _. right. left. done.
  - destruct (Z.geb_spec (nHeight b + 1) (MinActivationHeight ck)); [done|].
    intros _. right. right. split; [done | lia].
Qed.

(** Three periods past the start height, two past the timeout height and
    at the minimum activation height the state is terminal. *)
Lemma period_state_settles (b : CBlockIndex) (state : ThresholdState) :
  on_boundary ck (Some b) -> period_state ck (Some b) state ->
  StartHeight ck + 3 * Period ck <= nHeight b + 1 ->
  4 * Period ck <= nHeight b + 1 ->
  TimeoutHeight ck + 2 * Period ck <= nHeight b + 1 ->
  MinActivationHeight ck <= nHeight b + 1 ->
  state = ACTIVE \/ state = FAILED.
Proof.
  intros Hb3 Hs3 Hstart Hfour Htimeout Hmin.
  destruct (previous_period_spec ck period_pos b Hb3) as [Hb2 Hh2].
  destruct (previous_period ck b) as [c2|] eqn:E2; [simpl in Hh2 | simpl in Hh2; lia].
  destruct (previous_period_spec ck period_pos c2 Hb2) as [Hb1 Hh1].
  destruct (previous_period ck c2) as [c1|] eqn:E1; [simpl in Hh1 | simpl in Hh1; lia].
  destruct (previous_period_spec ck period_pos c1 Hb1) as [Hb0 Hh0].
  destruct (previous_period ck c1) as [c0|] eqn:E0; [simpl in Hh0 | simpl in Hh0; lia].
  destruct (period_state_step ck b state Hs3) as (s2 & Hs2 & Hn3). rewrite E2 in Hs2.
  destruct (period_state_step ck c2 s2 Hs2) as (s1 & Hs1 & Hn2). rewrite E1 in Hs1.
  destruct (period_state_step ck c1 s1 Hs1) as (s0 & Hs0 & Hn1). rewrite E0 in Hs0.
  assert (s0 <> DEFINED) as Hd0.
  { intros ->. pose proof (period_state_defined_iff ck period_pos _ _ Hs0 Hb0) as Hiff.
    destruct (proj1 Hiff eq_refl) as [? | Hlt]; [done | simpl in Hlt; lia]. }
  assert (s1 <> DEFINED) as Hd1.
  { intros ->. apply next_state_DEFINED_inv in Hn1. done. }
  assert (s2 <> DEFINED) as Hd2.
  { intros ->. apply next_state_DEFINED_inv in Hn2. done. }
  assert (s1 <> STARTED) as Hst1.
  { intros ->. apply next_state_STARTED_inv in Hn1 as [? | [_ Hlt]]; [done | lia]. }
  assert (s2 <> STARTED) as Hst2.
  { intros ->. apply next_state_STARTED_inv in Hn2 as [? | [_ Hlt]]; [done | lia]. }
  assert (s2 <> MUST_SIGNAL) as Hms2.
  { intros ->. apply next_state_MUST_SIGNAL_inv in Hn2. done. }
  destruct state; [| | | | left; done | right; done].
  - apply next_state_DEFINED_inv in Hn3. done.
  - apply next_state_STARTED_inv in Hn3 as [? | [? _]]; done.
  - apply next_state_MUST_SIGNAL_inv in Hn3. done.
  - apply next_state_LOCKED_IN_inv in Hn3 as [? | [? | [_ Hlt]]]; [done | done | lia].
Qed.

End PeriodFacts.

(** X7.  ACTIVE and FAILED are final along a chain: when the query for a
    block returns ACTIVE (or FAILED), so does the query for every block
    that has it as an ancestor. *)
Theorem terminal_states_stay (ALWAYS_ACTIVE NEVER_ACTIVE : Z)
    (ck : AbstractThresholdConditionChecker) (a b : CBlockIndex)
    (cache : ThresholdConditionCache) :
  0 < Period ck -> chain_ok b = true -> a ∈ ancestry b ->
  engine_cache ALWAYS_ACTIVE NEVER_ACTIVE ck cache ->
  exists earlier later cache1 cache2,
    GetStateFor ALWAYS_ACTIVE NEVER_ACTIVE ck (Some a) cache = Some (earlier, cache1)
    /\ GetStateFor ALWAYS_ACTIVE NEVER_ACTIVE ck (Some b) cache = Some (later, cache2)
    /\ (earlier = ACTIVE -> later = ACTIVE)
    /\ (earlier = FAILED -> later = FAILED).
Proof.
  intros Hpos Hb Ha Hcache.
  pose proof (engine_cache_ok ALWAYS_ACTIVE NEVER_ACTIVE ck Hpos cache Hcache) as Hc.
  destruct (deployment_cases ALWAYS_ACTIVE NEVER_ACTIVE ck)
    as [Hord | (state & _ & Hall)].
  2:{ exists state, state, cache, cache. rewrite !Hall. done. }
  destruct (align_in_chain ck Hpos b a Hb Ha) as (Halign_a & Haok & Hle).
  pose proof (align_index ck Hpos b Hb) as Halign_b.
  pose proof (chain_ok_height a Haok) as Hna.
  destruct (GetStateFor_ordinary ALWAYS_ACTIVE NEVER_ACTIVE ck Hpos (Some a) cache
              Hord Haok Hc) as (Pa & earlier & cache1 & HPa & _ & HGa & Hsta & _).
  destruct (GetStateFor_ordinary ALWAYS_ACTIVE NEVER_ACTIVE ck Hpos (Some b) cache
              Hord Hb Hc) as (Pb & later & cache2 & HPb & _ & HGb & Hstb & _).
  rewrite Halign_a in HPa. injection HPa as <-.
  rewrite Halign_b in HPb. injection HPb as <-.
  exists earlier, later, cache1, cache2. split; [done|]. split; [done|].
  set (ka := (nHeight a + 1) / Period ck) in *.
  set (kb := (nHeight b + 1) / Period ck) in *.
  assert (0 <= ka) as Hka by (apply Z.div_pos; lia).
  assert (ka <= kb) as Hkab by (apply Z.div_le_mono; lia).
  assert (kb * Period ck - 1 <= nHeight b) as Hkb.
  { pose proof (Z.div_mod (nHeight b + 1) (Period ck)).
    pose proof (Z.mod_pos_bound (nHeight b + 1) (Period ck) Hpos).
    unfold kb. lia. }
  assert (forall state, state = ACTIVE \/ state = FAILED -> earlier = state ->
                        later = state) as Hstay.
  { intros state Hterm ->.
    eapply period_state_det; [exact Hstb|].
    assert (ka + Z.of_nat (Z.to_nat (kb - ka)) = kb) as Hn by lia.
    pose proof (terminal_persists ck Hpos b state (Z.to_nat (kb - ka)) ka Hb Hterm Hka)
      as Htp.
    rewrite Hn in Htp. apply Htp; done. }
  split; intros Heq; apply Hstay; auto.
Qed.

Lemma terminal_states_stay_witness :
  exists earlier later cache1 cache2,
    GetStateFor (-1) (-2) S1_checker (Some block95) ∅ = Some (earlier, cache1)
    /\ GetStateFor (-1) (-2) S1_checker (Some block127) ∅ = Some (later, cache2)
    /\ (earlier = ACTIVE -> later = ACTIVE)
    /\ (earlier = FAILED -> later = FAILED).
Proof.
  apply (terminal_states_stay (-1) (-2) S1_checker block95 block127 ∅).
  - reflexivity.
  - vm_compute. reflexivity.
  - apply (bool_decide_unpack _). vm_compute. exact I.
  - apply engine_cache_empty.
Defined.

(** X8.  An ordinary deployment settles: for a query whose period starts
    at least three periods after the start height (and is at least the
    fifth period of the chain), two periods after the timeout height and
    not below the minimum activation height, the state is ACTIVE or
    FAILED. *)
Theorem deployment_settles (ALWAYS_ACTIVE NEVER_ACTIVE : Z)
    (ck : AbstractThresholdConditionChecker) (pindexPrev : option CBlockIndex)
    (cache : ThresholdConditionCache) :
  0 < Period ck -> ordinary_deployment ALWAYS_ACTIVE NEVER_ACTIVE ck ->
  ptr_ok pindexPrev = true -> engine_cache ALWAYS_ACTIVE NEVER_ACTIVE ck cache ->
  exists P state cache',
    align ck pindexPrev = Some P
    /\ GetStateFor ALWAYS_ACTIVE NEVER_ACTIVE ck pindexPrev cache = Some (state, cache')
    /\ (StartHeight ck + 3 * Period ck <= next_height P ->
        4 * Period ck <= next_height P ->
        TimeoutHeight ck + 2 * Period ck <= next_height P ->
        MinActivationHeight ck <= next_height P ->
        state = ACTIVE \/ state = FAILED).
Proof.
  intros Hpos Hord Hp Hcache.
  pose proof (engine_cache_ok ALWAYS_ACTIVE NEVER_ACTIVE ck Hpos cache Hcache) as Hc.
  destruct (GetStateFor_ordinary ALWAYS_ACTIVE NEVER_ACTIVE ck Hpos pindexPrev cache
              Hord Hp Hc) as (P & state & cache' & HP & Hob & HG & Hst & _).
  exists P, state, cache'. split; [done|]. split; [done|].
  intros Hstart Hfour Htimeout Hmin.
  destruct P as [b|]; [|simpl in Hfour; lia].
  eapply period_state_settles; eauto.
Qed.

Lemma deployment_settles_witness :
  exists P state cache',
    align (TestConditionChecker 0 64 0 32 28 0 false) (Some block127) = Some P
    /\ GetStateFor (-1) (-2) (TestConditionChecker 0 64 0 32 28 0 false)
         (Some block127) ∅ = Some (state, cache')
    /\ (StartHeight (TestConditionChecker 0 64 0 32 28 0 false)
        + 3 * Period (TestConditionChecker 0 64 0 32 28 0 false) <= next_height P ->
        4 * Period (TestConditionChecker 0 64 0 32 28 0 false) <= next_height P ->
        TimeoutHeight (TestConditionChecker 0 64 0 32 28 0 false)
        + 2 * Period (TestConditionChecker 0 64 0 32 28 0 false) <= next_height P ->
        MinActivationHeight (TestConditionChecker 0 64 0 32 28 0 false)
        <= next_height P ->
        state = ACTIVE \/ state = FAILED).
Proof.
  apply (deployment_settles (-1) (-2) (TestConditionChecker 0 64 0 32 28 0 false)
           (Some block127) ∅).
  - reflexivity.
  - split; vm_compute; reflexivity.
  - vm_compute. reflexivity.
  - apply engine_cache_empty.
Defined.

(** ** The since-height *)

Section SinceFacts.

Variables ALWAYS_ACTIVE NEVER_ACTIVE : Z.
Variable ck : AbstractThresholdConditionChecker.
Hypothesis period_pos : 0 < Period ck.

(** The since-height depends on the query only through its boundary
    pointer. *)
Lemma since_same_boundary (p1 p2 : option CBlockIndex)
    (cache1 cache2 : ThresholdConditionCache) :
  ptr_ok p1 = true -> ptr_ok p2 = true -> align ck p1 = align ck p2 ->
  cache_ok ck cache1 -> cache_ok ck cache2 ->
  exists since c1 c2,
    GetStateSinceHeightFor ALWAYS_ACTIVE NEVER_ACTIVE ck p1 cache1 = Some (since, c1)
    /\ GetStateSinceHeightFor ALWAYS_ACTIVE NEVER_ACTIVE ck p2 cache2 = Some (since, c2).
Proof.
  intros Hp1 Hp2 Halign Hc1 Hc2.
  destruct (deployment_cases ALWAYS_ACTIVE NEVER_ACTIVE ck)
    as [Hord | (state & Hstate & Hall)].
  - destruct (GetStateSinceHeightFor_run ALWAYS_ACTIVE NEVER_ACTIVE ck period_pos
                p1 cache1 Hord Hp1 Hc1)
      as (P1 & st1 & since1 & c1 & HP1 & _ & Hst1 & HS1 & _ & Hdef1 & Hrun1).
    destruct (GetStateSinceHeightFor_run ALWAYS_ACTIVE NEVER_ACTIVE ck period_pos
                p2 cache2 Hord Hp2 Hc2)
      as (P2 & st2 & since2 & c2 & HP2 & _ & Hst2 & HS2 & _ & Hdef2 & Hrun2).
    rewrite Halign, HP2 in HP1. injection HP1 as <-.
    pose proof (period_state_det ck _ _ _ Hst2 Hst1) as ->.
    exists since1, c1, c2. split; [done|]. rewrite HS2. do 2 f_equal.
    destruct (decide (st1 = DEFINED)) as [Hd|Hnd].
    + rewrite (Hdef1 Hd), (Hdef2 Hd). done.
    + destruct (Hrun1 Hnd) as (b1 & f1 & -> & -> & Hr1).
      destruct (Hrun2 Hnd) as (b2 & f2 & [= <-] & -> & Hr2).
      rewrite (state_run_det ck _ _ _ _ Hr2 Hr1). done.
  - exists 0, cache1, cache2.
    split; eapply GetStateSinceHeightFor_shortcut; eauto.
Qed.

(** The periods of a run all have the state of the run. *)
Lemma run_states (init : ThresholdState) (pb first : CBlockIndex) :
  state_run ck init pb first ->
  on_boundary ck (Some pb) -> period_state ck (Some pb) init ->
  on_boundary ck (Some first) /\ nHeight first <= nHeight pb
  /\ GetAncestor pb (nHeight first) = Some first
  /\ ~ period_state ck (previous_period ck first) init
  /\ forall k, nHeight first + 1 <= k * Period ck ->
               k * Period ck <= nHeight pb + 1 ->
               period_state ck (GetAncestor pb (k * Period ck - 1)) init.
Proof.
  induction 1 as [b Hstop | b a first Hprev Hsta Hrun IH]; intros Hob Hst;
    pose proof (chain_ok_height b (proj1 Hob)) as Hnn.
  - split; [done|]. split; [lia|]. split; [apply GetAncestor_self; done|].
    split; [done|]. intros k Hk1 Hk2.
    replace (k * Period ck - 1) with (nHeight b) by lia.
    rewrite GetAncestor_self by done. done.
  - destruct (previous_period_spec ck period_pos b Hob) as [Hoba Hha].
    rewrite Hprev in Hoba, Hha. simpl in Hha.
    destruct (IH Hoba Hsta) as (Hobf & Hle & HA & Hnot & Hall).
    unfold previous_period in Hprev.
    split; [done|]. split; [lia|].
    split.
    { rewrite (GetAncestor_trans b a (nHeight b - Period ck) (nHeight first));
        (done || apply Hob || lia). }
    split; [done|]. intros k Hk1 Hk2.
    destruct (decide (k * Period ck = nHeight b + 1)) as [Heq|Hne].
    + replace (k * Period ck - 1) with (nHeight b) by lia.
      rewrite GetAncestor_self by done. done.
    + destruct (boundary_multiple ck period_pos (Some b) Hob) as (m & Hm & _).
      simpl in Hm. assert (k < m) as Hkm by nia.
      assert (k * Period ck <= nHeight a + 1) as Hka by nia.
      rewrite (GetAncestor_trans b a (nHeight b - Period ck) (k * Period ck - 1));
        [apply Hall; done | apply Hob | done | lia].
Qed.

(** The state of every block of a chain, read at its boundary pointer
    found from the tip. *)
Lemma state_in_chain (b q : CBlockIndex) (cache : ThresholdConditionCache) :
  ordinary_deployment ALWAYS_ACTIVE NEVER_ACTIVE ck ->
  chain_ok b = true -> q ∈ ancestry b -> cache_ok ck cache ->
  exists state cache',
    GetStateFor ALWAYS_ACTIVE NEVER_ACTIVE ck (Some q) cache = Some (state, cache')
    /\ period_state ck
         (GetAncestor b ((nHeight q + 1) / Period ck * Period ck - 1)) state.
Proof.
  intros Hord Hb Hq Hc.
  destruct (align_in_chain ck period_pos b q Hb Hq) as (Halign & Hqok & _).
  destruct (GetStateFor_ordinary ALWAYS_ACTIVE NEVER_ACTIVE ck period_pos (Some q) cache
              Hord Hqok Hc) as (P & state & cache' & HP & _ & HG & Hst & _).
  rewrite Halign in HP. injection HP as <-. eauto.
Qed.

End SinceFacts.

(** X9.  What the since-height means: every block of the chain from
    height [since] up to the block after [b] has the state of the block
    after [b], and the block of height [since - 1] (the one whose previous
    block is the ancestor of [b] at height [since - 2], or none) has
    another state. *)
Theorem since_height_meaning (ALWAYS_ACTIVE NEVER_ACTIVE : Z)
    (ck : AbstractThresholdConditionChecker) (b : CBlockIndex)
    (cache : ThresholdConditionCache) :
  0 < Period ck -> chain_ok b = true ->
  engine_cache ALWAYS_ACTIVE NEVER_ACTIVE ck cache ->
  exists state since cache1 cache2,
    GetStateFor ALWAYS_ACTIVE NEVER_ACTIVE ck (Some b) cache = Some (state, cache1)
    /\ GetStateSinceHeightFor ALWAYS_ACTIVE NEVER_ACTIVE ck (Some b) cache
       = Some (since, cache2)
    /\ (forall q, q ∈ ancestry b -> since <= nHeight q + 1 ->
                  exists cache',
                    GetStateFor ALWAYS_ACTIVE NEVER_ACTIVE ck (Some q) cache
                    = Some (state, cache'))
    /\ (0 < since ->
        exists other cache',
          GetStateFor ALWAYS_ACTIVE NEVER_ACTIVE ck (GetAncestor b (since - 2)) cache
          = Some (other, cache')
          /\ other <> state).
Proof.
  intros Hpos Hb Hcache.
  pose proof (engine_cache_ok ALWAYS_ACTIVE NEVER_ACTIVE ck Hpos cache Hcache) as Hc.
  pose proof (chain_ok_height b Hb) as Hnn.
  destruct (deployment_cases ALWAYS_ACTIVE NEVER_ACTIVE ck)
    as [Hord | (state & Hstate & Hall)].
  2:{ exists state, 0, cache, cache. split; [apply Hall|].
      split; [eapply GetStateSinceHeightFor_shortcut; eauto|].
      split; [intros q _ _; exists cache; apply Hall | lia]. }
  destruct (GetStateFor_ordinary ALWAYS_ACTIVE NEVER_ACTIVE ck Hpos (Some b) cache
              Hord Hb Hc) as (P & state & cache1 & HP & Hob & HG & Hst & _).
  destruct (GetStateSinceHeightFor_run ALWAYS_ACTIVE NEVER_ACTIVE ck Hpos
              (Some b) cache Hord Hb Hc)
    as (P' & state' & since & cache2 & HP' & _ & Hst' & HS & _ & Hdef & Hrun).
  rewrite HP in HP'. injection HP' as <-.
  pose proof (period_state_det ck _ _ _ Hst' Hst) as ->.
  rewrite (align_index ck Hpos b Hb) in HP. injection HP as HP.
  set (kb := (nHeight b + 1) / Period ck) in *.
  assert (0 <= kb) as Hkb0 by (apply Z.div_pos; lia).
  assert (kb * Period ck - 1 <= nHeight b) as Hkb.
  { pose proof (Z.div_mod (nHeight b + 1) (Period ck)).
    pose proof (Z.mod_pos_bound (nHeight b + 1) (Period ck) Hpos).
    unfold kb. lia. }
  destruct (boundary_at_spec ck Hpos b kb Hb Hkb0 Hkb) as [_ HhP]. rewrite HP in HhP.
  exists state, since, cache1, cache2. split; [done|]. split; [done|].
  assert (forall q, q ∈ ancestry b ->
            let kq := (nHeight q + 1) / Period ck in
            0 <= kq <= kb
            /\ exists sq cache',
                 GetStateFor ALWAYS_ACTIVE NEVER_ACTIVE ck (Some q) cache
                 = Some (sq, cache')
                 /\ period_state ck (GetAncestor b (kq * Period ck - 1)) sq)
    as Hchain.
  { intros q Hq kq.
    destruct (align_in_chain ck Hpos b q Hb Hq) as (_ & Hqok & Hle).
    pose proof (chain_ok_height q Hqok) as Hqn.
    split; [split; [apply Z.div_pos; lia | apply Z.div_le_mono; lia]|].
    apply state_in_chain; done. }
  destruct (decide (state = DEFINED)) as [->|Hnd].
  - rewrite (Hdef eq_refl). split; [|lia]. intros q Hq _.
    destruct (Hchain q Hq) as ((Hkq0 & Hkq) & sq & cache' & HGq & Hsq).
    exists cache'. rewrite HGq. do 2 f_equal.
    set (kq := (nHeight q + 1) / Period ck) in *.
    destruct (boundary_at_spec ck Hpos b kq Hb Hkq0) as [Hobq Hhq]; [nia|].
    apply (period_state_defined_iff ck Hpos _ _ Hsq Hobq).
    pose proof (proj1 (period_state_defined_iff ck Hpos _ _ Hst Hob) eq_refl)
      as [HPnone | Hlt].
    + rewrite HPnone in HhP. simpl in HhP. assert (kq = 0) as Hz by nia.
      left. rewrite Hz. simpl.
      destruct (GetAncestor b (-1)) as [x|] eqn:Ex; [|done].
      apply GetAncestor_Some in Ex. lia.
    + right. rewrite Hhq. nia.
  - destruct (Hrun Hnd) as (pb & first & -> & -> & Hr).
    destruct (run_states ck Hpos state pb first Hr Hob Hst)
      as (Hobf & Hlef & HAf & Hnot & Hperiods).
    simpl in HhP. symmetry in HP.
    pose proof (chain_ok_height first (proj1 Hobf)) as Hfn.
    destruct (boundary_multiple ck Hpos (Some first) Hobf) as (mf & Hmf & Hmf0).
    simpl in Hmf. split.
    + intros q Hq Hsince.
      destruct (Hchain q Hq) as ((Hkq0 & Hkq) & sq & cache' & HGq & Hsq).
      exists cache'. rewrite HGq. do 2 f_equal.
      set (kq := (nHeight q + 1) / Period ck) in *.
      eapply period_state_det; [exact Hsq|].
      rewrite (GetAncestor_trans b pb (kb * Period ck - 1) (kq * Period ck - 1))
        by (done || nia).
      apply Hperiods; [|nia].
      assert (mf <= kq) as Hmk.
      { apply Z.div_le_lower_bound; [done | lia]. }
      nia.
    + intros _.
      assert (GetAncestor b (nHeight first) = Some first) as HAb.
      { rewrite (GetAncestor_trans b pb (kb * Period ck - 1) (nHeight first));
          (done || lia). }
      replace (nHeight first + 1 - 2) with (nHeight first - 1) by lia.
      assert (previous_period ck first
              = GetAncestor b ((mf - 1) * Period ck - 1)) as Hprevf.
      { unfold previous_period.
        rewrite (GetAncestor_trans b first (nHeight first) ((mf - 1) * Period ck - 1))
          by (done || lia).
        f_equal. lia. }
      destruct (previous_period_spec ck Hpos first Hobf) as [Hobp _].
      destruct (GetStateFor_boundary ALWAYS_ACTIVE NEVER_ACTIVE ck Hpos
                  (previous_period ck first) cache Hord Hobp Hc)
        as (other & cache' & HGo & Hso & _).
      exists other, cache'. split.
      * rewrite <- HGo.
        destruct (GetAncestor b (nHeight first - 1)) as [x|] eqn:Ex.
        -- pose proof (GetAncestor_ok _ _ _ Hb Ex) as Hxok.
           pose proof (GetAncestor_Some _ _ _ Ex) as [Hxh _].
           apply GetStateFor_align; [|apply align_on_boundary; done].
           rewrite (align_index ck Hpos x Hxok), Hprevf. f_equal.
           assert ((nHeight x + 1) / Period ck = mf - 1) as ->.
           { symmetry. apply (Z.div_unique _ _ _ (Period ck - 1)); [lia|]. lia. }
           symmetry.
           apply (GetAncestor_trans b x (nHeight first - 1)); [done | done | nia].
        -- apply GetAncestor_None in Ex; [|done].
           assert (nHeight first = 0) as Hz by lia.
           assert (previous_period ck first = None) as ->; [|done].
           unfold previous_period.
           destruct (GetAncestor first (nHeight first - Period ck)) as [y|] eqn:Ey;
             [|done].
           apply GetAncestor_Some in Ey. lia.
      * intros ->. done.
Qed.

Lemma since_height_meaning_witness :
  exists state since cache1 cache2,
    GetStateFor (-1) (-2) S1_checker (Some block127) ∅ = Some (state, cache1)
    /\ GetStateSinceHeightFor (-1) (-2) S1_checker (Some block127) ∅
       = Some (since, cache2)
    /\ (forall q, q ∈ ancestry block127 -> since <= nHeight q + 1 ->
                  exists cache',
                    GetStateFor (-1) (-2) S1_checker (Some q) ∅ = Some (state, cache'))
    /\ (0 < since ->
        exists other cache',
          GetStateFor (-1) (-2) S1_checker (GetAncestor block127 (since - 2)) ∅
          = Some (other, cache')
          /\ other <> state).
Proof.
  apply (since_height_meaning (-1) (-2) S1_checker block127 ∅).
  - reflexivity.
  - vm_compute. reflexivity.
  - apply engine_cache_empty.
Defined.

(** X10.  Unless [start_height = ALWAYS_ACTIVE], the since-height is 0
    exactly when the state is DEFINED, and positive otherwise. *)
Theorem since_zero_iff_defined (ALWAYS_ACTIVE NEVER_ACTIVE : Z)
    (ck : AbstractThresholdConditionChecker) (pindexPrev : option CBlockIndex)
    (cache : ThresholdConditionCache) :
  0 < Period ck -> StartHeight ck <> ALWAYS_ACTIVE ->
  ptr_ok pindexPrev = true -> engine_cache ALWAYS_ACTIVE NEVER_ACTIVE ck cache ->
  exists state since cache1 cache2,
    GetStateFor ALWAYS_ACTIVE NEVER_ACTIVE ck pindexPrev cache = Some (state, cache1)
    /\ GetStateSinceHeightFor ALWAYS_ACTIVE NEVER_ACTIVE ck pindexPrev cache
       = Some (since, cache2)
    /\ 0 <= since
    /\ (since = 0 <-> state = DEFINED).
Proof.
  intros Hpos Hstart Hp Hcache.
  pose proof (engine_cache_ok ALWAYS_ACTIVE NEVER_ACTIVE ck Hpos cache Hcache) as Hc.
  destruct (deployment_cases ALWAYS_ACTIVE NEVER_ACTIVE ck)
    as [Hord | (state & Hstate & Hall)].
  - destruct (GetStateFor_ordinary ALWAYS_ACTIVE NEVER_ACTIVE ck Hpos pindexPrev cache
                Hord Hp Hc) as (P & state & cache1 & HP & _ & HG & Hst & _).
    destruct (GetStateSinceHeightFor_ordinary ALWAYS_ACTIVE NEVER_ACTIVE ck Hpos
                pindexPrev cache Hord Hp Hc)
      as (P' & state' & since & cache2 & HP' & _ & Hst' & HS & _ & Hdef & Hnot).
    rewrite HP in HP'. injection HP' as <-.
    pose proof (period_state_det ck _ _ _ Hst' Hst) as ->.
    exists state, since, cache1, cache2. split; [done|]. split; [done|].
    destruct (decide (state = DEFINED)) as [Hd|Hnd].
    + rewrite (Hdef Hd). split; [lia | done].
    + destruct (Hnot Hnd) as (b & first & _ & -> & Hobf & _).
      pose proof (chain_ok_height first (proj1 Hobf)). split; [lia|].
      split; [lia | done].
  - exists state, 0, cache, cache. split; [apply Hall|].
    split; [eapply GetStateSinceHeightFor_shortcut; eauto|]. split; [lia|].
    destruct Hstate as [-> | [_ ?]]; done.
Qed.

Lemma since_zero_iff_defined_witness :
  exists state since cache1 cache2,
    GetStateFor (-1) (-2) S1_checker (Some block40) ∅ = Some (state, cache1)
    /\ GetStateSinceHeightFor (-1) (-2) S1_checker (Some block40) ∅
       = Some (since, cache2)
    /\ 0 <= since
    /\ (since = 0 <-> state = DEFINED).
Proof.
  apply (since_zero_iff_defined (-1) (-2) S1_checker (Some block40) ∅).
  - reflexivity.
  - simpl. lia.
  - vm_compute. reflexivity.
  - apply engine_cache_empty.
Defined.

(** X11.  The since-height does not change within a period: the query
    for a block [b], for its period-boundary ancestor [P] and for any
    other block with the same [P] return the same since-height. *)
Theorem since_height_period_stability (ALWAYS_ACTIVE NEVER_ACTIVE : Z)
    (ck : AbstractThresholdConditionChecker) (b : CBlockIndex)
    (cache : ThresholdConditionCache) :
  0 < Period ck -> chain_ok b = true ->
  engine_cache ALWAYS_ACTIVE NEVER_ACTIVE ck cache ->
  let P := GetAncestor b (nHeight b - (nHeight b + 1) mod Period ck) in
  exists since cache1 cache2,
    GetStateSinceHeightFor ALWAYS_ACTIVE NEVER_ACTIVE ck (Some b) cache
    = Some (since, cache1)
    /\ GetStateSinceHeightFor ALWAYS_ACTIVE NEVER_ACTIVE ck P cache
       = Some (since, cache2)
    /\ forall b',
         chain_ok b' = true ->
         GetAncestor b' (nHeight b' - (nHeight b' + 1) mod Period ck) = P ->
         exists cache',
           GetStateSinceHeightFor ALWAYS_ACTIVE NEVER_ACTIVE ck (Some b') cache
           = Some (since, cache').
Proof.
  intros Hpos Hb Hcache P.
  pose proof (engine_cache_ok ALWAYS_ACTIVE NEVER_ACTIVE ck Hpos cache Hcache) as Hc.
  assert (forall b', chain_ok b' = true ->
            align ck (Some b')
            = Some (GetAncestor b' (nHeight b' - (nHeight b' + 1) mod Period ck)))
    as Halign.
  { intros b' Hb'. simpl. unfold period_boundary.
    destruct (Z.eqb_spec (Period ck) 0); [lia|].
    rewrite (rem_mod_height ck b' Hpos Hb'). done. }
  destruct (period_boundary_spec ck Hpos b Hb) as (P' & HP' & Hob & _).
  pose proof (Halign b Hb) as HP. simpl in HP. rewrite HP' in HP.
  injection HP as HP. fold P in HP. subst P'.
  pose proof (align_on_boundary ck Hpos P Hob) as HPP.
  pose proof (on_boundary_ptr_ok ck P Hob) as HPok.
  destruct (since_same_boundary ALWAYS_ACTIVE NEVER_ACTIVE ck Hpos (Some b) P
              cache cache Hb HPok) as (since & cache1 & cache2 & HS1 & HS2);
    [rewrite HPP; apply Halign; done | done | done |].
  exists since, cache1, cache2. split; [done|]. split; [done|].
  intros b' Hb' HPb'.
  destruct (since_same_boundary ALWAYS_ACTIVE NEVER_ACTIVE ck Hpos (Some b') P
              cache cache Hb' HPok) as (since' & cache' & cache2' & HS1' & HS2');
    [rewrite HPP, (Halign b' Hb'), HPb'; done | done | done |].
  exists cache'. rewrite HS1'. rewrite HS2 in HS2'. injection HS2' as <- _. done.
Qed.

Lemma since_height_period_stability_witness :
  let P := GetAncestor block40 (nHeight block40 - (nHeight block40 + 1) mod Period S1_checker) in
  exists since cache1 cache2,
    GetStateSinceHeightFor (-1) (-2) S1_checker (Some block40) ∅ = Some (since, cache1)
    /\ GetStateSinceHeightFor (-1) (-2) S1_checker P ∅ = Some (since, cache2)
    /\ forall b',
         chain_ok b' = true ->
         GetAncestor b' (nHeight b' - (nHeight b' + 1) mod Period S1_checker) = P ->
         exists cache',
           GetStateSinceHeightFor (-1) (-2) S1_checker (Some b') ∅
           = Some (since, cache').
Proof.
  apply (since_height_period_stability (-1) (-2) S1_checker block40 ∅).
  - reflexivity.
  - vm_compute. reflexivity.
  - apply engine_cache_empty.
Defined.

(** X12.  Across a period, as the harness asserts: with the state and
    since-height before the period that ends at block [b] and after it,
    the since-height is unchanged when the state is unchanged, and is the
    height [b.height + 1] of the first block of the new period when the
    state has changed. *)
Theorem since_height_across_period (ALWAYS_ACTIVE NEVER_ACTIVE : Z)
    (ck : AbstractThresholdConditionChecker) (b : CBlockIndex)
    (cache : ThresholdConditionCache) :
  0 < Period ck -> chain_ok b = true -> Z.rem (nHeight b + 1) (Period ck) = 0 ->
  engine_cache ALWAYS_ACTIVE NEVER_ACTIVE ck cache ->
  let prev := GetAncestor b (nHeight b - Period ck) in
  exists exp_state exp_since state since c1 c2 c3 c4,
    GetStateFor ALWAYS_ACTIVE NEVER_ACTIVE ck prev cache = Some (exp_state, c1)
    /\ GetStateSinceHeightFor ALWAYS_ACTIVE NEVER_ACTIVE ck prev cache
       = Some (exp_since, c2)
    /\ GetStateFor ALWAYS_ACTIVE NEVER_ACTIVE ck (Some b) cache = Some (state, c3)
    /\ GetStateSinceHeightFor ALWAYS_ACTIVE NEVER_ACTIVE ck (Some b) cache
       = Some (since, c4)
    /\ (state = exp_state -> since = exp_since)
    /\ (state <> exp_state -> since = nHeight b + 1).
Proof.
  intros Hpos Hb Hrem Hcache prev.
  pose proof (engine_cache_ok ALWAYS_ACTIVE NEVER_ACTIVE ck Hpos cache Hcache) as Hc.
  assert (on_boundary ck (Some b)) as Hob by (split; done).
  destruct (deployment_cases ALWAYS_ACTIVE NEVER_ACTIVE ck)
    as [Hord | (state & Hstate & Hall)].
  2:{ exists state, 0, state, 0, cache, cache, cache, cache.
      rewrite !Hall.
      rewrite !(GetStateSinceHeightFor_shortcut ALWAYS_ACTIVE NEVER_ACTIVE ck state)
        by done.
      done. }
  destruct (consecutive_queries ALWAYS_ACTIVE NEVER_ACTIVE ck Hpos b cache Hord Hob Hc)
    as (exp_state & state & c1 & c3 & HG1 & HG2 & Hst1 & Hst2 & Hn).
  fold (previous_period ck b) in prev.
  destruct (previous_period_spec ck Hpos b Hob) as [Hobp _]. fold prev in Hobp.
  fold prev in HG1, Hst1.
  destruct (GetStateSinceHeightFor_run ALWAYS_ACTIVE NEVER_ACTIVE ck Hpos prev cache
              Hord (on_boundary_ptr_ok ck prev Hobp) Hc)
    as (Pp & stp & exp_since & c2 & HPp & _ & Hstp & HSp & _ & Hdefp & Hrunp).
  rewrite (align_on_boundary ck Hpos prev Hobp) in HPp. injection HPp as <-.
  pose proof (period_state_det ck _ _ _ Hstp Hst1) as ->.
  destruct (GetStateSinceHeightFor_run ALWAYS_ACTIVE NEVER_ACTIVE ck Hpos (Some b) cache
              Hord Hb Hc)
    as (Pb & stb & since & c4 & HPb & _ & Hstb & HSb & _ & Hdefb & Hrunb).
  rewrite (align_boundary ck Hpos b Hob) in HPb. injection HPb as <-.
  pose proof (period_state_det ck _ _ _ Hstb Hst2) as ->.
  exists exp_state, exp_since, state, since, c1, c2, c3, c4.
  split; [done|]. split; [done|]. split; [done|]. split; [done|]. split.
  - intros ->. destruct (decide (exp_state = DEFINED)) as [Hd|Hnd].
    + rewrite (Hdefp Hd), (Hdefb Hd). done.
    + destruct (Hrunp Hnd) as (a & fa & Ha & -> & Hra).
      destruct (Hrunb Hnd) as (b' & fb & [= <-] & -> & Hrb).
      inversion Hrb as [b0 Hstop | b0 a' first' Hprev' Hsta' Hrun']; subst.
      * destruct Hstop. done.
      * unfold prev in Ha. fold (previous_period ck b) in Ha.
        rewrite Hprev' in Ha. injection Ha as ->.
        rewrite (state_run_det ck _ _ _ _ Hra Hrun'). done.
  - intros Hne.
    assert (state <> DEFINED) as Hnd.
    { intros ->. apply next_state_DEFINED_inv in Hn. done. }
    destruct (Hrunb Hnd) as (b' & fb & [= <-] & -> & Hrb).
    inversion Hrb as [b0 Hstop | b0 a' first' Hprev' Hsta' Hrun']; subst; [done|].
    destruct Hne. eapply period_state_det; [exact Hsta'|].
    assert (prev = Some a') as Hp' by exact Hprev'.
    rewrite Hp' in Hst1. done.
Qed.

Lemma since_height_across_period_witness :
  let prev := GetAncestor block63 (nHeight block63 - Period S1_checker) in
  exists exp_state exp_since state since c1 c2 c3 c4,
    GetStateFor (-1) (-2) S1_checker prev ∅ = Some (exp_state, c1)
    /\ GetStateSinceHeightFor (-1) (-2) S1_checker prev ∅ = Some (exp_since, c2)
    /\ GetStateFor (-1) (-2) S1_checker (Some block63) ∅ = Some (state, c3)
    /\ GetStateSinceHeightFor (-1) (-2) S1_checker (Some block63) ∅ = Some (since, c4)
    /\ (state = exp_state -> since = exp_since)
    /\ (state <> exp_state -> since = nHeight block63 + 1).
Proof.
  apply (since_height_across_period (-1) (-2) S1_checker block63 ∅).
  - reflexivity.
  - vm_compute. reflexivity.
  - vm_compute. reflexivity.
  - apply engine_cache_empty.
Defined.

(** ** The statistics *)

Section StatisticsFacts.

Variable ck : AbstractThresholdConditionChecker.
Hypothesis period_pos : 0 < Period ck.

Lemma above_length (b : CBlockIndex) :
  forall t, chain_ok b = true -> -1 <= t <= nHeight b ->
            Z.of_nat (length (above t b)) = nHeight b - t.
Proof.
  unfold above.
  induction b as [v h | v h p IH] using CBlockIndex_chain_ind; intros t Hb Ht;
    simpl in *.
  - destruct (Z.ltb_spec t h); simpl; lia.
  - apply andb_prop in Hb as [Hh Hp].
    destruct (Z.ltb_spec t h); simpl.
    + rewrite Nat2Z.inj_succ, IH by (done || lia). lia.
    + rewrite filter_above_nil by (done || lia). simpl. lia.
Qed.

Lemma signalling_bounds (l : list CBlockIndex) :
  0 <= signalling ck l <= Z.of_nat (length l).
Proof.
  unfold signalling. pose proof (List.filter_length_le (Condition ck) l). lia.
Qed.

Lemma signalling_app (l1 l2 : list CBlockIndex) :
  signalling ck (l1 ++ l2) = signalling ck l1 + signalling ck l2.
Proof. unfold signalling. rewrite List.filter_app, length_app. lia. Qed.

Lemma boundary_target (b : CBlockIndex) :
  chain_ok b = true ->
  let t := nHeight b - (nHeight b + 1) mod Period ck in
  -1 <= t <= nHeight b /\ (t = -1 <-> nHeight b < Period ck - 1)
  /\ exists k, t = k * Period ck - 1.
Proof.
  intros Hb t. pose proof (chain_ok_height b Hb) as Hnn.
  pose proof (Z.mod_pos_bound (nHeight b + 1) (Period ck) period_pos) as Hr.
  pose proof (Z.div_mod (nHeight b + 1) (Period ck)) as Hdm.
  assert (0 <= (nHeight b + 1) / Period ck) as Hq by (apply Z.div_pos; lia).
  split; [unfold t; nia|]. split.
  - unfold t. split; intros H.
    + assert ((nHeight b + 1) / Period ck = 0) as Hz by nia.
      apply Z.div_small_iff in Hz; lia.
    + rewrite Z.mod_small by lia. lia.
  - exists ((nHeight b + 1) / Period ck). unfold t. lia.
Qed.

(** What the statistics return, and when. *)
Lemma statistics_value (b : CBlockIndex) :
  chain_ok b = true ->
  let t := nHeight b - (nHeight b + 1) mod Period ck in
  (nHeight b < Period ck - 1 -> GetStateStatisticsFor ck (Some b) = None)
  /\ (Period ck - 1 <= nHeight b ->
      GetStateStatisticsFor ck (Some b)
      = Some {| stats_period := Period ck; stats_threshold := Threshold ck;
                stats_elapsed := nHeight b - t;
                stats_count := signalling ck (above t b);
                stats_possible :=
                  Period ck - Threshold ck >=? nHeight b - t - signalling ck (above t b) |}).
Proof.
  intros Hb t. destruct (boundary_target b Hb) as (Ht & Hneg & _). fold t in Ht, Hneg.
  unfold GetStateStatisticsFor, period_boundary.
  destruct (Z.eqb_spec (Period ck) 0); [lia|].
  rewrite (rem_mod_height ck b period_pos Hb). fold t. split.
  - intros Hlow. destruct (GetAncestor b t) as [x|] eqn:Ex; [|done].
    apply GetAncestor_Some in Ex. lia.
  - intros Hge. destruct (GetAncestor b t) as [x|] eqn:Ex.
    2:{ apply GetAncestor_None in Ex; [lia | done]. }
    apply GetAncestor_Some in Ex as [-> _].
    rewrite count_since_boundary_spec by (done || lia).
    unfold above. do 3 f_equal.
Qed.

Lemma ancestry_split (e : CBlockIndex) :
  forall q, chain_ok e = true -> q ∈ ancestry e ->
            exists prefix, ancestry e = prefix ++ ancestry q
                           /\ Z.of_nat (length prefix) = nHeight e - nHeight q
                           /\ Forall (fun x => nHeight q < nHeight x) prefix.
Proof.
  induction e as [v h | v h p IH] using CBlockIndex_chain_ind; intros q He Hq;
    simpl in Hq.
  - apply list_elem_of_singleton in Hq as ->. exists []. simpl.
    split; [done|]. split; [lia | constructor].
  - apply elem_of_cons in Hq as [-> | Hq].
    + exists []. simpl. split; [done|]. split; [lia | constructor].
    + pose proof He as He'. simpl in He'. apply andb_prop in He' as [Hh Hp].
      destruct (IH q Hp Hq) as (prefix & Hsplit & Hlen & Hall).
      exists (mkBlockIndex v h (Some p) :: prefix). simpl.
      rewrite Hsplit. split; [done|]. split; [lia|].
      constructor; [|done]. simpl.
      destruct (ancestry_GetAncestor p q Hp Hq) as [_ Hle]. lia.
Qed.

Lemma take_above (b : CBlockIndex) :
  forall n : nat,
    chain_ok b = true -> Z.of_nat n <= nHeight b + 1 ->
    take n (ancestry b) = above (nHeight b - Z.of_nat n) b.
Proof.
  unfold above.
  induction b as [v h | v h p IH] using CBlockIndex_chain_ind; intros n Hb Hn;
    simpl in Hb, Hn.
  - destruct n as [|n]; cbn [take firstn List.filter ancestry nHeight].
    + destruct (Z.ltb_spec (h - Z.of_nat 0) h); [lia | done].
    + assert (n = 0%nat) as -> by lia.
      destruct (Z.ltb_spec (h - Z.of_nat 1) h); [done | lia].
  - apply andb_prop in Hb as [Hh Hp].
    destruct n as [|n]; cbn [take firstn List.filter ancestry nHeight].
    + destruct (Z.ltb_spec (h - Z.of_nat 0) h); [lia|].
      rewrite filter_above_nil by (done || lia). done.
    + destruct (Z.ltb_spec (h - Z.of_nat (S n)) h); [|lia]. f_equal.
      rewrite IH by (done || lia).
      replace (h - Z.of_nat (S n)) with (nHeight p - Z.of_nat n) by lia. done.
Qed.

(** If the statistics of a block [q] of the period that ends at [e] say
    that the threshold is out of reach, the period has fewer signalling
    blocks than the threshold. *)
Lemma not_possible_count (e q : CBlockIndex) (stats : BIP9Stats) :
  chain_ok e = true -> Z.rem (nHeight e + 1) (Period ck) = 0 ->
  q ∈ ancestry e -> nHeight e - Period ck < nHeight q < nHeight e ->
  GetStateStatisticsFor ck (Some q) = Some stats -> stats_possible stats = false ->
  signalling ck (take (Z.to_nat (Period ck)) (ancestry e)) < Threshold ck.
Proof.
  intros He Hrem Hq Hrange Hstats Hposs.
  pose proof (chain_ok_height e He) as Hen.
  destruct (ancestry_GetAncestor e q He Hq) as [HA _].
  pose proof (GetAncestor_ok _ _ _ He HA) as Hqok.
  pose proof (chain_ok_height q Hqok) as Hqn.
  apply (rem_zero_multiple ck period_pos) in Hrem as [m Hm].
  assert ((nHeight q + 1) mod Period ck = nHeight q + 1 - (m - 1) * Period ck) as Hmod.
  { symmetry. apply (Z.mod_unique_pos _ _ (m - 1)); lia. }
  destruct (statistics_value q Hqok) as [Hnone Hsome]. cbv zeta in Hsome.
  rewrite Hmod in Hsome.
  replace (nHeight q - (nHeight q + 1 - (m - 1) * Period ck))
    with (nHeight e - Period ck) in Hsome by lia.
  destruct (Z.lt_ge_cases (nHeight q) (Period ck - 1)) as [Hlow | Hqge].
  { rewrite (Hnone Hlow) in Hstats. done. }
  rewrite (Hsome Hqge) in Hstats. injection Hstats as <-. simpl in Hposs.
  destruct (Z.geb_spec (Period ck - Threshold ck)
              (nHeight q - (nHeight e - Period ck)
               - signalling ck (above (nHeight e - Period ck) q))); [done|].
  rewrite (take_above e (Z.to_nat (Period ck)) He) by lia.
  replace (nHeight e - Z.of_nat (Z.to_nat (Period ck)))
    with (nHeight e - Period ck) by lia.
  destruct (ancestry_split e q He Hq) as (prefix & Hsplit & Hlen & Hall).
  unfold above in *. rewrite Hsplit, List.filter_app, signalling_app.
  pose proof (signalling_bounds
                (List.filter (fun x => nHeight e - Period ck <? nHeight x) prefix)).
  pose proof (List.filter_length_le
                (fun x => nHeight e - Period ck <? nHeight x) prefix).
  lia.
Qed.

(** A block that does not end a period has the boundary of its previous
    block. *)
Lemma statistics_next (b p : CBlockIndex) :
  chain_ok b = true -> pprev b = Some p ->
  (nHeight b + 1) mod Period ck <> 0 ->
  nHeight b - (nHeight b + 1) mod Period ck
  = nHeight p - (nHeight p + 1) mod Period ck
  /\ forall t, t < nHeight b ->
               above t b = b :: above t p.
Proof.
  intros Hb Hp Hmid.
  destruct (chain_ok_pprev b p Hb Hp) as [Hpok Hh].
  pose proof (chain_ok_height p Hpok) as Hpn.
  pose proof (Z.mod_pos_bound (nHeight b + 1) (Period ck) period_pos) as Hr.
  pose proof (Z.div_mod (nHeight b + 1) (Period ck)) as Hdm.
  split.
  - assert ((nHeight p + 1) mod Period ck = (nHeight b + 1) mod Period ck - 1) as ->.
    { symmetry. apply (Z.mod_unique_pos _ _ ((nHeight b + 1) / Period ck)); lia. }
    lia.
  - intros t Ht. unfold above. rewrite ancestry_unfold, Hp. simpl.
    destruct (Z.ltb_spec t (nHeight b)); [done | lia].
Qed.

End StatisticsFacts.

(** X13.  The statistics are returned from the last block of the first
    period on, and only from there: for a block of a well-formed chain no
    statistics come back exactly when its height is below [period - 1]. *)
Theorem statistics_returned_iff (ck : AbstractThresholdConditionChecker)
    (b : CBlockIndex) :
  0 < Period ck -> chain_ok b = true ->
  (GetStateStatisticsFor ck (Some b) = None <-> nHeight b < Period ck - 1).
Proof.
  intros Hpos Hb. destruct (statistics_value ck Hpos b Hb) as [Hnone Hsome].
  split; [|done]. intros Hn.
  destruct (Z.lt_ge_cases (nHeight b) (Period ck - 1)) as [|Hge]; [done|].
  rewrite (Hsome Hge) in Hn. done.
Qed.

Lemma statistics_returned_iff_witness :
  GetStateStatisticsFor S1_checker (Some block7) = None
  <-> nHeight block7 < Period S1_checker - 1.
Proof.
  apply (statistics_returned_iff S1_checker block7).
  - reflexivity.
  - vm_compute. reflexivity.
Defined.

(** X14.  At the last block of a period the statistics are those of the
    period about to start: [elapsed = 0], [count = 0], and [possible]
    holds exactly when the threshold is at most the period. *)
Theorem statistics_at_boundary (ck : AbstractThresholdConditionChecker)
    (b : CBlockIndex) :
  0 < Period ck -> chain_ok b = true -> Z.rem (nHeight b + 1) (Period ck) = 0 ->
  exists possible,
    GetStateStatisticsFor ck (Some b)
    = Some {| stats_period := Period ck; stats_threshold := Threshold ck;
              stats_elapsed := 0; stats_count := 0; stats_possible := possible |}
    /\ (possible = true <-> Threshold ck <= Period ck).
Proof.
  intros Hpos Hb Hrem.
  pose proof (boundary_height ck Hpos b (conj Hb Hrem)) as Hge.
  destruct (statistics_value ck Hpos b Hb) as [_ Hsome].
  rewrite <- (rem_mod_height ck b Hpos Hb), Hrem, Z.sub_0_r in Hsome.
  rewrite Hsome by lia. unfold above.
  rewrite filter_above_nil by (done || lia).
  change (signalling ck []) with 0. rewrite Z.sub_diag.
  eexists. split; [reflexivity|].
  destruct (Z.geb_spec (Period ck - Threshold ck) (0 - 0)); split; (done || lia).
Qed.

Lemma statistics_at_boundary_witness :
  exists possible,
    GetStateStatisticsFor S1_checker (Some block63)
    = Some {| stats_period := Period S1_checker;
              stats_threshold := Threshold S1_checker;
              stats_elapsed := 0; stats_count := 0; stats_possible := possible |}
    /\ (possible = true <-> Threshold S1_checker <= Period S1_checker).
Proof.
  apply (statistics_at_boundary S1_checker block63).
  - reflexivity.
  - vm_compute. reflexivity.
  - vm_compute. reflexivity.
Defined.

(** X15.  Within a period the statistics advance block by block: for a
    block [b] that does not end a period and whose previous block [p] has
    statistics, [elapsed] is one more than for [p] and [count] is the
    count for [p] plus one if the condition holds for [b]. *)
Theorem statistics_step (ck : AbstractThresholdConditionChecker)
    (b p : CBlockIndex) :
  0 < Period ck -> chain_ok b = true -> pprev b = Some p ->
  (nHeight b + 1) mod Period ck <> 0 -> Period ck - 1 <= nHeight p ->
  exists last_stats stats,
    GetStateStatisticsFor ck (Some p) = Some last_stats
    /\ GetStateStatisticsFor ck (Some b) = Some stats
    /\ stats_elapsed stats = stats_elapsed last_stats + 1
    /\ stats_count stats
       = stats_count last_stats + (if Condition ck b then 1 else 0).
Proof.
  intros Hpos Hb Hp Hmid Hge.
  destruct (chain_ok_pprev b p Hb Hp) as [Hpok Hh].
  destruct (statistics_next ck Hpos b p Hb Hp Hmid) as [Htarget Habove].
  destruct (statistics_value ck Hpos b Hb) as [_ Hsb].
  destruct (statistics_value ck Hpos p Hpok) as [_ Hsp].
  cbv zeta in Hsb, Hsp. rewrite Htarget in Hsb.
  destruct (boundary_target ck Hpos p Hpok) as ((Hlo & Hhi) & _).
  rewrite Hsp by done. rewrite Hsb by lia.
  eexists _, _. split; [reflexivity|]. split; [reflexivity|]. simpl.
  split; [lia|]. rewrite Habove by lia. rewrite signalling_cons. lia.
Qed.

Lemma statistics_step_witness :
  exists last_stats stats,
    GetStateStatisticsFor S1_checker (Some block63) = Some last_stats
    /\ GetStateStatisticsFor S1_checker
         (Some (mkBlockIndex ver_signal 64 (Some block63))) = Some stats
    /\ stats_elapsed stats = stats_elapsed last_stats + 1
    /\ stats_count stats
       = stats_count last_stats
         + (if Condition S1_checker (mkBlockIndex ver_signal 64 (Some block63))
            then 1 else 0).
Proof.
  apply (statistics_step S1_checker (mkBlockIndex ver_signal 64 (Some block63)) block63).
  - reflexivity.
  - vm_compute. reflexivity.
  - reflexivity.
  - vm_compute. discriminate.
  - vm_compute. discriminate.
Defined.

(** X16.  Bounds on the statistics, where they are returned: [elapsed]
    is [(height + 1) mod period], the count lies between 0 and [elapsed],
    [elapsed] is below the period, and [possible] says whether
    [count + period >= elapsed + threshold]. *)
Theorem statistics_bounds (ck : AbstractThresholdConditionChecker)
    (b : CBlockIndex) :
  0 < Period ck -> chain_ok b = true -> Period ck - 1 <= nHeight b ->
  exists stats,
    GetStateStatisticsFor ck (Some b) = Some stats
    /\ stats_elapsed stats = (nHeight b + 1) mod Period ck
    /\ 0 <= stats_count stats <= stats_elapsed stats
    /\ stats_elapsed stats < stats_period stats
    /\ (stats_possible stats = true
        <-> stats_elapsed stats + stats_threshold stats
            <= stats_count stats + stats_period stats).
Proof.
  intros Hpos Hb Hge.
  destruct (statistics_value ck Hpos b Hb) as [_ Hsome]. cbv zeta in Hsome.
  destruct (boundary_target ck Hpos b Hb) as ((Hlo & Hhi) & _).
  pose proof (Z.mod_pos_bound (nHeight b + 1) (Period ck) Hpos) as Hr.
  rewrite Hsome by done. eexists. split; [reflexivity|]. simpl.
  set (t := nHeight b - (nHeight b + 1) mod Period ck) in *.
  pose proof (signalling_bounds ck (above t b)) as Hsig.
  rewrite (above_length b t Hb) in Hsig by lia.
  split; [unfold t; lia|]. split; [lia|]. split; [unfold t; lia|].
  destruct (Z.geb_spec (Period ck - Threshold ck)
              (nHeight b - t - signalling ck (above t b))); split; (done || lia).
Qed.

Lemma statistics_bounds_witness :
  exists stats,
    GetStateStatisticsFor S1_checker (Some block70) = Some stats
    /\ stats_elapsed stats = (nHeight block70 + 1) mod Period S1_checker
    /\ 0 <= stats_count stats <= stats_elapsed stats
    /\ stats_elapsed stats < stats_period stats
    /\ (stats_possible stats = true
        <-> stats_elapsed stats + stats_threshold stats
            <= stats_count stats + stats_period stats).
Proof.
  apply (statistics_bounds S1_checker block70).
  - reflexivity.
  - vm_compute. reflexivity.
  - vm_compute. discriminate.
Defined.

(** X17.  What [possible = false] means: if the statistics of a block
    [q] inside the period that ends at block [e] say that the threshold is
    out of reach, the period has fewer signalling blocks than the
    threshold, and a deployment that was STARTED before the period is not
    LOCKED_IN after it. *)
Theorem threshold_out_of_reach (ALWAYS_ACTIVE NEVER_ACTIVE : Z)
    (ck : AbstractThresholdConditionChecker) (e q : CBlockIndex)
    (stats : BIP9Stats) (cache : ThresholdConditionCache) :
  0 < Period ck -> ordinary_deployment ALWAYS_ACTIVE NEVER_ACTIVE ck ->
  chain_ok e = true -> Z.rem (nHeight e + 1) (Period ck) = 0 ->
  q ∈ ancestry e -> nHeight e - Period ck < nHeight q < nHeight e ->
  GetStateStatisticsFor ck (Some q) = Some stats -> stats_possible stats = false ->
  engine_cache ALWAYS_ACTIVE NEVER_ACTIVE ck cache ->
  signalling ck (take (Z.to_nat (Period ck)) (ancestry e)) < Threshold ck
  /\ exists exp_state state cache1 cache2,
      GetStateFor ALWAYS_ACTIVE NEVER_ACTIVE ck
        (GetAncestor e (nHeight e - Period ck)) cache = Some (exp_state, cache1)
      /\ GetStateFor ALWAYS_ACTIVE NEVER_ACTIVE ck (Some e) cache = Some (state, cache2)
      /\ (exp_state = STARTED -> state <> LOCKED_IN).
Proof.
  intros Hpos Hord He Hrem Hq Hrange Hstats Hposs Hcache.
  pose proof (engine_cache_ok ALWAYS_ACTIVE NEVER_ACTIVE ck Hpos cache Hcache) as Hc.
  pose proof (not_possible_count ck Hpos e q stats He Hrem Hq Hrange Hstats Hposs)
    as Hcount.
  split; [done|].
  assert (on_boundary ck (Some e)) as Hob by (split; done).
  destruct (consecutive_queries ALWAYS_ACTIVE NEVER_ACTIVE ck Hpos e cache Hord Hob Hc)
    as (exp_state & state & cache1 & cache2 & HG1 & HG2 & _ & _ & Hn).
  exists exp_state, state, cache1, cache2. split; [done|]. split; [done|].
  intros -> ->. unfold next_state in Hn.
  rewrite (count_signals_boundary ck Hpos e Hob) in Hn.
  destruct (Z.geb_spec (signalling ck (take (Z.to_nat (Period ck)) (ancestry e)))
              (Threshold ck)); [lia|].
  repeat case_match; congruence.
Qed.

Lemma threshold_out_of_reach_witness :
  signalling S1_checker (take (Z.to_nat (Period S1_checker)) (ancestry block95))
  < Threshold S1_checker
  /\ exists exp_state state cache1 cache2,
      GetStateFor (-1) (-2) S1_checker
        (GetAncestor block95 (nHeight block95 - Period S1_checker)) ∅
      = Some (exp_state, cache1)
      /\ GetStateFor (-1) (-2) S1_checker (Some block95) ∅ = Some (state, cache2)
      /\ (exp_state = STARTED -> state <> LOCKED_IN).
Proof.
  apply (threshold_out_of_reach (-1) (-2) S1_checker block95 block70
           {| stats_period := 32; stats_threshold := 28; stats_elapsed := 7;
              stats_count := 0; stats_possible := false |} ∅).
  - reflexivity.
  - split; vm_compute; reflexivity.
  - vm_compute. reflexivity.
  - vm_compute. reflexivity.
  - apply (bool_decide_unpack _). vm_compute. exact I.
  - split; vm_compute; reflexivity.
  - vm_compute. reflexivity.
  - reflexivity.
  - apply engine_cache_empty.
Defined.

(** ** The signalling condition *)

Lemma land_shiftl (x m n : Z) :
  0 <= n -> Z.land x (Z.shiftl m n) = Z.shiftl (Z.land (Z.shiftr x n) m) n.
Proof.
  intros Hn. apply Z.bits_inj'. intros k Hk.
  rewrite Z.land_spec, !Z.shiftl_spec by done. rewrite Z.land_spec.
  destruct (Z.lt_ge_cases (k - n) 0) as [Hneg | Hpos].
  - rewrite (Z.testbit_neg_r m) by done. rewrite !andb_false_r. done.
  - rewrite Z.shiftr_spec by done. replace (k - n + n) with k by lia. done.
Qed.

Lemma land_single_bit (x n : Z) :
  0 <= n -> (Z.land x (Z.shiftl 1 n) =? 0) = negb (Z.testbit x n).
Proof.
  intros Hn. rewrite Z.shiftl_1_l.
  destruct (Z.testbit x n) eqn:Hbit; simpl.
  - apply Z.eqb_neq. intros Hz.
    assert (Z.testbit (Z.land x (2 ^ n)) n = true) as Hset.
    { rewrite Z.land_spec, Hbit, Z.pow2_bits_true; done. }
    rewrite Hz, Z.bits_0 in Hset. done.
  - apply Z.eqb_eq. apply Z.bits_inj'. intros k Hk.
    rewrite Z.land_spec, Z.bits_0, Z.pow2_bits_eqb by done.
    destruct (Z.eqb_spec n k) as [<-|]; [rewrite Hbit; done | apply andb_false_r].
Qed.

Lemma top_bits_range (version : Z) :
  - 2 ^ 31 <= version < 2 ^ 31 ->
  (Z.land version VERSIONBITS_TOP_MASK =? VERSIONBITS_TOP_BITS) = true
  <-> 2 ^ 29 <= version < 2 ^ 30.
Proof.
  intros Hrange. unfold VERSIONBITS_TOP_MASK, VERSIONBITS_TOP_BITS.
  change 0xE0000000 with (Z.shiftl 7 29). change 0x20000000 with (Z.shiftl 1 29).
  rewrite land_shiftl by lia. rewrite Z.shiftr_div_pow2 by lia.
  rewrite !Z.shiftl_mul_pow2 by lia.
  pose proof (Z.div_mod version (2 ^ 29)) as Hdm.
  assert (0 <= version mod 2 ^ 29 < 2 ^ 29) as Hr by (apply Z.mod_pos_bound; lia).
  set (q := version / 2 ^ 29) in *. set (r := version mod 2 ^ 29) in *.
  change (2 ^ 31) with 2147483648 in *. change (2 ^ 30) with 1073741824 in *.
  change (2 ^ 29) with 536870912 in *.
  assert (q = -4 \/ q = -3 \/ q = -2 \/ q = -1 \/ q = 0 \/ q = 1 \/ q = 2 \/ q = 3)
    as Hq by lia.
  assert (version = 536870912 * q + r) as Hv by lia.
  clearbody q r. clear Hdm. rewrite Z.eqb_eq.
  destruct Hq as [-> | [-> | [-> | [-> | [-> | [-> | [-> | ->]]]]]]];
    match goal with
    | |- context [Z.land ?a ?b] =>
      let v := eval vm_compute in (Z.land a b) in change (Z.land a b) with v
    end; lia.
Qed.

(** The condition both checkers compute. *)
Lemma condition_spec (bit_ version : Z) :
  0 <= bit_ -> - 2 ^ 31 <= version < 2 ^ 31 ->
  (Z.land version VERSIONBITS_TOP_MASK =? VERSIONBITS_TOP_BITS)
  && negb (Z.land version (Z.shiftl 1 bit_) =? 0) = true
  <-> 2 ^ 29 <= version < 2 ^ 30 /\ Z.testbit version bit_ = true.
Proof.
  intros Hbit Hrange. rewrite andb_true_iff, (top_bits_range version Hrange).
  rewrite land_single_bit, negb_involutive by done. done.
Qed.

(** X18.  [TestConditionChecker::Condition]: a 32-bit version signals
    for a bit below 32 exactly when it lies in [0x20000000, 0x40000000)
    (top three bits 001) and has the bit set; such a version is positive,
    as the harness asserts of [ver_signal]. *)
Theorem test_condition_characterised (m_bit version : Z) :
  0 <= m_bit < 32 -> - 2 ^ 31 <= version < 2 ^ 31 ->
  (TestCondition m_bit version = true
   <-> 0x20000000 <= version < 0x40000000 /\ Z.testbit version m_bit = true)
  /\ (TestCondition m_bit version = true -> version > 0).
Proof.
  intros Hbit Hrange.
  assert (TestCondition m_bit version = true
          <-> 0x20000000 <= version < 0x40000000 /\ Z.testbit version m_bit = true)
    as Hiff.
  { unfold TestCondition. cbv zeta.
    change 0x20000000 with (2 ^ 29). change 0x40000000 with (2 ^ 30).
    apply condition_spec; [lia | done]. }
  split; [done|]. intros H. apply Hiff in H. lia.
Qed.

Lemma test_condition_characterised_witness :
  (TestCondition 0 ver_signal = true
   <-> 0x20000000 <= ver_signal < 0x40000000 /\ Z.testbit ver_signal 0 = true)
  /\ (TestCondition 0 ver_signal = true -> ver_signal > 0).
Proof.
  apply (test_condition_characterised 0 ver_signal).
  - lia.
  - vm_compute. split; [discriminate | reflexivity].
Defined.

(** ** The deployments of the consensus parameters *)

(** X19.  [VersionBitsMask] and the production condition: for a
    deployment whose bit is one of 0..31 the mask is [2 ^ bit], and a
    block with a 32-bit version satisfies the condition of the deployment
    exactly when the version lies in [0x20000000, 0x40000000) and has a
    bit in common with the mask, that is, has the deployment's bit set. *)
Theorem version_bits_mask_condition (params : Params) (pos : nat)
    (deployment : BIP9Deployment) (pindex : CBlockIndex) :
  vDeployments params !! pos = Some deployment -> 0 <= bit deployment < 32 ->
  - 2 ^ 31 <= nVersion pindex < 2 ^ 31 ->
  exists checker,
    VersionBitsConditionChecker params pos = Some checker
    /\ VersionBitsMask params pos = Some (2 ^ bit deployment)
    /\ (Condition checker pindex = true
        <-> 0x20000000 <= nVersion pindex < 0x40000000
            /\ Z.testbit (nVersion pindex) (bit deployment) = true)
    /\ (Condition checker pindex = true
        <-> 0x20000000 <= nVersion pindex < 0x40000000
            /\ Z.land (nVersion pindex) (2 ^ bit deployment) <> 0).
Proof.
  intros Hd [Hbit _] Hrange. unfold VersionBitsConditionChecker, VersionBitsMask.
  rewrite Hd. simpl. eexists. split; [reflexivity|].
  unfold Mask. rewrite Z.shiftl_1_l. split; [done|]. simpl.
  rewrite <- Z.shiftl_1_l.
  pose proof (condition_spec (bit deployment) (nVersion pindex) Hbit Hrange) as Hiff.
  change (2 ^ 29) with 0x20000000 in Hiff. change (2 ^ 30) with 0x40000000 in Hiff.
  split; [exact Hiff|]. rewrite Hiff.
  pose proof (land_single_bit (nVersion pindex) (bit deployment) Hbit) as Hland.
  destruct (Z.testbit (nVersion pindex) (bit deployment)); simpl in Hland.
  - apply Z.eqb_neq in Hland. split; intros [Hv _]; done.
  - apply Z.eqb_eq in Hland. split; intros [Hv Hb]; [discriminate | done].
Qed.

Lemma version_bits_mask_condition_witness :
  exists checker,
    VersionBitsConditionChecker
      (mkParams [mkBIP9Deployment 28 0 10000 1916 0 false;
                 mkBIP9Deployment 2 0 10000 1916 0 true] 2016) 1
    = Some checker
    /\ VersionBitsMask
         (mkParams [mkBIP9Deployment 28 0 10000 1916 0 false;
                    mkBIP9Deployment 2 0 10000 1916 0 true] 2016) 1
       = Some (2 ^ bit (mkBIP9Deployment 2 0 10000 1916 0 true))
    /\ (Condition checker block63 = true
        <-> 0x20000000 <= nVersion block63 < 0x40000000
            /\ Z.testbit (nVersion block63) (bit (mkBIP9Deployment 2 0 10000 1916 0 true))
               = true)
    /\ (Condition checker block63 = true
        <-> 0x20000000 <= nVersion block63 < 0x40000000
            /\ Z.land (nVersion block63)
                 (2 ^ bit (mkBIP9Deployment 2 0 10000 1916 0 true)) <> 0).
Proof.
  apply (version_bits_mask_condition
           (mkParams [mkBIP9Deployment 28 0 10000 1916 0 false;
                      mkBIP9Deployment 2 0 10000 1916 0 true] 2016)
           1 (mkBIP9Deployment 2 0 10000 1916 0 true) block63).
  - reflexivity.
  - simpl. lia.
  - vm_compute. split; [discriminate | reflexivity].
Defined.

(** ** The threshold at its extremes *)

Section ThresholdFacts.

Variable ck : AbstractThresholdConditionChecker.

Hypothesis period_pos : 0 < Period ck.

(** The count of the STARTED case lies between 0 and the period; it
    decides the lock-in, and MUST_SIGNAL needs lock-in on timeout. *)
Lemma started_count (b : CBlockIndex) (state : ThresholdState) :
  on_boundary ck (Some b) -> next_state ck STARTED b = Some state ->
  exists count,
    0 <= count <= Period ck
    /\ (state = LOCKED_IN <-> Threshold ck <= count)
    /\ (state = MUST_SIGNAL -> LockinOnTimeout ck = true).
Proof.
  intros Hob. unfold next_state.
  rewrite (count_signals_boundary ck period_pos b Hob).
  pose proof (signalling_bounds ck (take (Z.to_nat (Period ck)) (ancestry b))) as Hb.
  rewrite length_take in Hb.
  set (count := signalling ck _) in *. clearbody count.
  intros Hn. exists count. split; [lia|].
  destruct (Z.geb_spec count (Threshold ck)) as [Hge | Hlt].
  - injection Hn as <-. split; [split; [lia | done] | done].
  - split.
    + split; [intros -> | lia]. repeat case_match; congruence.
    + intros ->. destruct (LockinOnTimeout ck); [done|].
      simpl in Hn. repeat case_match; congruence.
Qed.

(** With a threshold of 0 or less every count reaches it. *)
Lemma threshold_reached_at_once (P : option CBlockIndex) (state : ThresholdState) :
  Threshold ck <= 0 -> period_state ck P state -> on_boundary ck P ->
  state <> MUST_SIGNAL /\ state <> FAILED.
Proof.
  intros Hth Hst. induction Hst as [|b state stateNext Hprev IH Hn]; intros Hob.
  - done.
  - destruct (previous_period_spec ck period_pos b Hob) as [Hobp _].
    destruct (IH Hobp) as [IHm IHf].
    assert (state = STARTED -> stateNext = LOCKED_IN) as Hlock.
    { intros ->. destruct (started_count b stateNext Hob Hn) as (count & Hc & Hiff & _).
      apply Hiff. lia. }
    split; intros ->.
    + pose proof (next_state_MUST_SIGNAL_inv ck state b Hn) as Hs.
      specialize (Hlock Hs). done.
    + destruct (next_state_FAILED_inv ck state b Hn) as [-> | [Hs _]]; [done|].
      specialize (Hlock Hs). done.
Qed.

(** With a threshold above the period and no lock-in on timeout the
    deployment never leaves DEFINED, STARTED and FAILED. *)
Lemma threshold_never_reached (P : option CBlockIndex) (state : ThresholdState) :
  Period ck < Threshold ck -> LockinOnTimeout ck = false ->
  period_state ck P state -> on_boundary ck P ->
  state = DEFINED \/ state = STARTED \/ state = FAILED.
Proof.
  intros Hth Hlot Hst. induction Hst as [|b state stateNext Hprev IH Hn]; intros Hob.
  - left. done.
  - destruct (previous_period_spec ck period_pos b Hob) as [Hobp _].
    destruct (IH Hobp) as [-> | [-> | ->]].
    + destruct (next_state_from_DEFINED ck b stateNext Hn) as [[-> _] | [-> _]]; auto.
    + destruct (started_count b stateNext Hob Hn) as (count & Hc & Hiff & Hms).
      destruct stateNext; auto.
      * specialize (Hms eq_refl). congruence.
      * pose proof (proj1 Hiff eq_refl). lia.
      * destruct (next_state_ACTIVE_inv ck STARTED b Hn) as [? | [? _]]; done.
    + simpl in Hn. injection Hn as <-. auto.
Qed.

End ThresholdFacts.

(** X20.  A threshold of 0 or less is reached by every period: for an
    ordinary deployment a period that begins STARTED ends LOCKED_IN, and
    no query returns MUST_SIGNAL or FAILED. *)
Theorem threshold_not_positive (ALWAYS_ACTIVE NEVER_ACTIVE : Z)
    (ck : AbstractThresholdConditionChecker) (b : CBlockIndex)
    (cache : ThresholdConditionCache) :
  0 < Period ck -> ordinary_deployment ALWAYS_ACTIVE NEVER_ACTIVE ck ->
  chain_ok b = true -> Z.rem (nHeight b + 1) (Period ck) = 0 ->
  engine_cache ALWAYS_ACTIVE NEVER_ACTIVE ck cache ->
  Threshold ck <= 0 ->
  exists before after cache1 cache2,
    GetStateFor ALWAYS_ACTIVE NEVER_ACTIVE ck
      (GetAncestor b (nHeight b - Period ck)) cache = Some (before, cache1)
    /\ GetStateFor ALWAYS_ACTIVE NEVER_ACTIVE ck (Some b) cache = Some (after, cache2)
    /\ (before = STARTED -> after = LOCKED_IN)
    /\ after <> MUST_SIGNAL /\ after <> FAILED.
Proof.
  intros Hpos Hord Hb Hrem Hcache Hth.
  pose proof (engine_cache_ok ALWAYS_ACTIVE NEVER_ACTIVE ck Hpos cache Hcache) as Hc.
  destruct (consecutive_queries ALWAYS_ACTIVE NEVER_ACTIVE ck Hpos b cache Hord
              (conj Hb Hrem) Hc)
    as (before & after & cache1 & cache2 & HG1 & HG2 & _ & Hst & Hn).
  exists before, after, cache1, cache2. split; [done|]. split; [done|]. split.
  - intros ->.
    destruct (started_count ck Hpos b after (conj Hb Hrem) Hn) as (count & Hcount & Hiff & _).
    apply Hiff. lia.
  - apply (threshold_reached_at_once ck Hpos (Some b)); [done | done | split; done].
Qed.

Lemma threshold_not_positive_witness :
  exists before after cache1 cache2,
    GetStateFor (-1) (-2) (TestConditionChecker 0 10000 0 32 0 0 false)
      (GetAncestor block63
         (nHeight block63 - Period (TestConditionChecker 0 10000 0 32 0 0 false))) ∅
    = Some (before, cache1)
    /\ GetStateFor (-1) (-2) (TestConditionChecker 0 10000 0 32 0 0 false)
         (Some block63) ∅ = Some (after, cache2)
    /\ (before = STARTED -> after = LOCKED_IN)
    /\ after <> MUST_SIGNAL /\ after <> FAILED.
Proof.
  apply (threshold_not_positive (-1) (-2) (TestConditionChecker 0 10000 0 32 0 0 false)
           block63 ∅).
  - reflexivity.
  - split; vm_compute; reflexivity.
  - vm_compute. reflexivity.
  - vm_compute. reflexivity.
  - apply engine_cache_empty.
  - vm_compute. discriminate.
Defined.

(** X21.  A threshold above the period is out of reach: unless
    [start_height = ALWAYS_ACTIVE], a deployment without lock-in on timeout
    whose threshold exceeds its period is DEFINED, STARTED or FAILED at
    every query, never MUST_SIGNAL, LOCKED_IN or ACTIVE. *)
Theorem threshold_above_period (ALWAYS_ACTIVE NEVER_ACTIVE : Z)
    (ck : AbstractThresholdConditionChecker) (pindexPrev : option CBlockIndex)
    (cache : ThresholdConditionCache) :
  0 < Period ck -> StartHeight ck <> ALWAYS_ACTIVE ->
  ptr_ok pindexPrev = true -> engine_cache ALWAYS_ACTIVE NEVER_ACTIVE ck cache ->
  Period ck < Threshold ck -> LockinOnTimeout ck = false ->
  exists state cache',
    GetStateFor ALWAYS_ACTIVE NEVER_ACTIVE ck pindexPrev cache = Some (state, cache')
    /\ (state = DEFINED \/ state = STARTED \/ state = FAILED).
Proof.
  intros Hpos Hstart Hp Hcache Hth Hlot.
  pose proof (engine_cache_ok ALWAYS_ACTIVE NEVER_ACTIVE ck Hpos cache Hcache) as Hc.
  destruct (deployment_cases ALWAYS_ACTIVE NEVER_ACTIVE ck)
    as [Hord | (state & Hstate & Hall)].
  - destruct (GetStateFor_ordinary ALWAYS_ACTIVE NEVER_ACTIVE ck Hpos pindexPrev cache
                Hord Hp Hc) as (P & state & cache' & _ & Hob & HG & Hst & _).
    exists state, cache'. split; [done|].
    apply (threshold_never_reached ck Hpos P); done.
  - exists state, cache. split; [apply Hall|].
    destruct Hstate as [-> | [_ Heq]]; [left; done | done].
Qed.

Lemma threshold_above_period_witness :
  exists state cache',
    GetStateFor (-1) (-2)
      {| Condition := fun pindex => TestCondition 0 (nVersion pindex);
         StartHeight := 0; TimeoutHeight := 64; LockinOnTimeout := false;
         MinActivationHeight := 0; Period := 32; Threshold := 33 |}
      (Some block95) ∅ = Some (state, cache')
    /\ (state = DEFINED \/ state = STARTED \/ state = FAILED).
Proof.
  apply (threshold_above_period (-1) (-2)
           {| Condition := fun pindex => TestCondition 0 (nVersion pindex);
              StartHeight := 0; TimeoutHeight := 64; LockinOnTimeout := false;
              MinActivationHeight := 0; Period := 32; Threshold := 33 |}
           (Some block95) ∅).
  - reflexivity.
  - vm_compute. discriminate.
  - vm_compute. reflexivity.
  - apply engine_cache_empty.
  - reflexivity.
  - reflexivity.
Defined.

(** ** The blocks of the harness *)

Lemma mine_blocks_chain (signal no_signal : Z) (signals : list bool) :
  blocks_ok (mine_blocks (mkBlocks [] signal no_signal) signals)
  /\ m_signal (mine_blocks (mkBlocks [] signal no_signal) signals) = signal
  /\ m_no_signal (mine_blocks (mkBlocks [] signal no_signal) signals) = no_signal
  /\ ancestry_of (tip (mine_blocks (mkBlocks [] signal no_signal) signals))
     = reverse (m_blocks (mine_blocks (mkBlocks [] signal no_signal) signals))
  /\ nHeight <$> m_blocks (mine_blocks (mkBlocks [] signal no_signal) signals)
     = Z.of_nat <$> seq 0 (length signals)
  /\ nVersion <$> m_blocks (mine_blocks (mkBlocks [] signal no_signal) signals)
     = (fun s : bool => if s then signal else no_signal) <$> signals.
Proof.
  induction signals as [|s signals IH] using rev_ind.
  - split; [apply blocks_ok_empty | done].
  - destruct IH as (Hok & Hs & Hn & Hanc & Hh & Hv).
    rewrite mine_blocks_snoc.
    destruct (mine_block_spec (mine_blocks (mkBlocks [] signal no_signal) signals) s Hok)
      as (Htip & Hprev & Hheight & Hversion & Hchain & Hok' & Hs' & Hn').
    set (blocks := mine_blocks (mkBlocks [] signal no_signal) signals) in *.
    set (b := fst (mine_block blocks s)) in *.
    assert (m_blocks (snd (mine_block blocks s)) = m_blocks blocks ++ [b]) as Hm by done.
    assert (length (m_blocks blocks) = length signals) as Hlen.
    { rewrite <- (length_fmap nHeight), Hh, length_fmap, length_seq. done. }
    destruct Hok as [_ Hnext].
    split; [done|]. split; [congruence|]. split; [congruence|].
    rewrite Htip, Hm. split; [|split].
    + rewrite reverse_snoc. change (ancestry_of (Some b)) with (ancestry b).
      rewrite ancestry_unfold, Hprev. f_equal. exact Hanc.
    + rewrite fmap_app, length_app, Nat.add_1_r, seq_S, fmap_app, Hh. simpl.
      do 2 f_equal. lia.
    + rewrite !fmap_app, Hv. f_equal.
      change ([nVersion b] = [if s then signal else no_signal]).
      rewrite Hversion, Hs, Hn. done.
Qed.

(** X22.  The blocks of the harness form one chain: after any run of
    [mine_block] calls on a fresh [Blocks], walking [pprev] from the tip
    visits exactly the mined blocks, newest first; the i-th block has
    height i, and the version chosen by the i-th signal. *)
Theorem mined_blocks_form_a_chain (signal no_signal : Z) (signals : list bool) :
  ptr_ok (tip (mine_blocks (mkBlocks [] signal no_signal) signals)) = true
  /\ ancestry_of (tip (mine_blocks (mkBlocks [] signal no_signal) signals))
     = reverse (m_blocks (mine_blocks (mkBlocks [] signal no_signal) signals))
  /\ nHeight <$> m_blocks (mine_blocks (mkBlocks [] signal no_signal) signals)
     = Z.of_nat <$> seq 0 (length signals)
  /\ nVersion <$> m_blocks (mine_blocks (mkBlocks [] signal no_signal) signals)
     = (fun s : bool => if s then signal else no_signal) <$> signals.
Proof.
  destruct (mine_blocks_chain signal no_signal signals)
    as ([Hok _] & _ & _ & Hanc & Hh & Hv).
  done.
Qed.

(** ** The caches of the deployments *)

Lemma Clear_lookup (n : nat) (cache : VersionBitsCache) (i : nat) :
  length (Clear n cache) = length cache
  /\ Clear n cache !! i
     = if decide (i < n)%nat then (fun _ => ∅) <$> cache !! i else cache !! i.
Proof.
  unfold Clear. induction n as [|n IHn].
  - split; [done|]. destruct (decide (i < 0)%nat); [lia | done].
  - destruct IHn as [IHlen IH]. rewrite seq_S, foldl_app. simpl.
    rewrite length_insert. split; [done|].
    rewrite list_lookup_insert, IHlen.
    destruct (decide (n = i)) as [<- | Hne].
    + destruct (decide (n < length cache)%nat) as [Hlt | Hge].
      * rewrite decide_True by done. rewrite decide_True by lia.
        destruct (lookup_lt_is_Some_2 cache n Hlt) as [slot ->]. done.
      * rewrite decide_False by tauto. rewrite IH.
        rewrite decide_False by lia. rewrite decide_True by lia.
        rewrite (lookup_ge_None_2 cache n) by lia. done.
    + rewrite decide_False by tauto. rewrite IH.
      destruct (decide (i < n)%nat); [rewrite decide_True by lia | rewrite decide_False by lia];
        done.
Qed.

(** X23.  [VersionBitsCache::Clear] leaves every one of the
    [MAX_VERSION_BITS_DEPLOYMENTS] caches empty. *)
Theorem clear_empties_every_slot (MAX_VERSION_BITS_DEPLOYMENTS : nat)
    (cache : VersionBitsCache) :
  length cache = MAX_VERSION_BITS_DEPLOYMENTS ->
  Clear MAX_VERSION_BITS_DEPLOYMENTS cache = replicate MAX_VERSION_BITS_DEPLOYMENTS ∅.
Proof.
  intros Hlen. apply list_eq. intros i.
  rewrite (proj2 (Clear_lookup MAX_VERSION_BITS_DEPLOYMENTS cache i)).
  destruct (decide (i < MAX_VERSION_BITS_DEPLOYMENTS)%nat) as [Hlt | Hge].
  - rewrite lookup_replicate_2 by done.
    destruct (lookup_lt_is_Some_2 cache i) as [slot ->]; [lia | done].
  - rewrite (lookup_ge_None_2 cache i) by lia. symmetry.
    apply lookup_replicate_None. lia.
Qed.

Lemma clear_empties_every_slot_witness :
  Clear 2 [ {[ None := DEFINED ]}; {[ None := DEFINED ]} ] = replicate 2 ∅.
Proof.
  apply (clear_empties_every_slot 2 [ {[ None := DEFINED ]}; {[ None := DEFINED ]} ]).
  reflexivity.
Defined.

(** X24.  Clearing the caches changes no answer: [VersionBitsState] and
    [VersionBitsStateSinceHeight] return the same state and since-height
    after [VersionBitsCache::Clear] as on the caches the engine had
    built. *)
Theorem clear_keeps_answers (ALWAYS_ACTIVE NEVER_ACTIVE : Z) (params : Params)
    (pos : nat) (checker : AbstractThresholdConditionChecker)
    (slot : ThresholdConditionCache) (cache : VersionBitsCache)
    (pindexPrev : option CBlockIndex) :
  0 < nMinerConfirmationWindow params -> ptr_ok pindexPrev = true ->
  VersionBitsConditionChecker params pos = Some checker ->
  cache !! pos = Some slot ->
  engine_cache ALWAYS_ACTIVE NEVER_ACTIVE checker slot ->
  exists state since c1 c2 c3 c4,
    VersionBitsState ALWAYS_ACTIVE NEVER_ACTIVE pindexPrev params pos cache
    = Some (state, c1)
    /\ VersionBitsState ALWAYS_ACTIVE NEVER_ACTIVE pindexPrev params pos
         (Clear (length cache) cache) = Some (state, c2)
    /\ VersionBitsStateSinceHeight ALWAYS_ACTIVE NEVER_ACTIVE pindexPrev params pos cache
       = Some (since, c3)
    /\ VersionBitsStateSinceHeight ALWAYS_ACTIVE NEVER_ACTIVE pindexPrev params pos
         (Clear (length cache) cache) = Some (since, c4).
Proof.
  intros Hwin Hp Hck Hslot Hcache.
  assert (Period checker = nMinerConfirmationWindow params) as HP.
  { unfold VersionBitsConditionChecker in Hck.
    destruct (vDeployments params !! pos); [|done].
    simpl in Hck. injection Hck as <-. done. }
  assert (0 < Period checker) as Hpos by lia.
  pose proof (engine_cache_ok ALWAYS_ACTIVE NEVER_ACTIVE checker Hpos slot Hcache) as Hc.
  pose proof (cache_ok_empty checker) as He.
  assert (Clear (length cache) cache !! pos = Some ∅) as Hclear.
  { rewrite (proj2 (Clear_lookup (length cache) cache pos)).
    rewrite decide_True by (apply lookup_lt_Some in Hslot; done).
    rewrite Hslot. done. }
  destruct (GetStateFor_keeps_cache_ok ALWAYS_ACTIVE NEVER_ACTIVE checker pindexPrev slot
              Hpos Hp Hc) as (state & s1 & HG1 & _).
  destruct (GetStateFor_keeps_cache_ok ALWAYS_ACTIVE NEVER_ACTIVE checker pindexPrev ∅
              Hpos Hp He) as (state' & s2 & HG2 & _).
  pose proof (GetStateFor_deterministic ALWAYS_ACTIVE NEVER_ACTIVE checker pindexPrev
                slot ∅ Hpos Hp Hc He) as Hdet.
  rewrite HG1, HG2 in Hdet. injection Hdet as <-.
  destruct (GetStateSinceHeightFor_two_caches ALWAYS_ACTIVE NEVER_ACTIVE checker Hpos
              pindexPrev slot ∅ Hp Hc He) as (since & s3 & s4 & HS1 & HS2).
  exists state, since, (<[pos := s1]> cache), (<[pos := s2]> (Clear (length cache) cache)),
    (<[pos := s3]> cache), (<[pos := s4]> (Clear (length cache) cache)).
  unfold VersionBitsState, VersionBitsStateSinceHeight.
  rewrite Hck, Hslot, Hclear. simpl. rewrite HG1, HG2, HS1, HS2. done.
Qed.

Lemma clear_keeps_answers_witness :
  exists state since c1 c2 c3 c4,
    VersionBitsState (-1) (-2) (Some block63)
      (mkParams [mkBIP9Deployment 28 0 10000 30 0 false;
                 mkBIP9Deployment 0 0 10000 28 0 false] 32) 1 [∅; ∅]
    = Some (state, c1)
    /\ VersionBitsState (-1) (-2) (Some block63)
         (mkParams [mkBIP9Deployment 28 0 10000 30 0 false;
                    mkBIP9Deployment 0 0 10000 28 0 false] 32) 1
         (Clear (length [∅; ∅ : ThresholdConditionCache]) [∅; ∅]) = Some (state, c2)
    /\ VersionBitsStateSinceHeight (-1) (-2) (Some block63)
         (mkParams [mkBIP9Deployment 28 0 10000 30 0 false;
                    mkBIP9Deployment 0 0 10000 28 0 false] 32) 1 [∅; ∅]
       = Some (since, c3)
    /\ VersionBitsStateSinceHeight (-1) (-2) (Some block63)
         (mkParams [mkBIP9Deployment 28 0 10000 30 0 false;
                    mkBIP9Deployment 0 0 10000 28 0 false] 32) 1
         (Clear (length [∅; ∅ : ThresholdConditionCache]) [∅; ∅]) = Some (since, c4).
Proof.
  eapply (clear_keeps_answers (-1) (-2)
            (mkParams [mkBIP9Deployment 28 0 10000 30 0 false;
                       mkBIP9Deployment 0 0 10000 28 0 false] 32) 1 _ _ [∅; ∅]
            (Some block63)).
  - reflexivity.
  - vm_compute. reflexivity.
  - reflexivity.
  - reflexivity.
  - apply engine_cache_empty.
Defined.

(** X25.  The deployments do not interfere: a [VersionBitsState] query
    for one deployment keeps the number of caches, leaves the cache of
    every other deployment as it is and only adds entries to its own; so
    the state and the since-height of another deployment are the same
    after it as before. *)
Theorem deployments_do_not_interfere (ALWAYS_ACTIVE NEVER_ACTIVE : Z)
    (params : Params) (pos1 pos2 : nat) (p1 p2 : option CBlockIndex)
    (cache : VersionBitsCache) (state1 : ThresholdState)
    (cache1 : VersionBitsCache) :
  0 < nMinerConfirmationWindow params -> ptr_ok p1 = true -> pos1 <> pos2 ->
  VersionBitsState ALWAYS_ACTIVE NEVER_ACTIVE p1 params pos1 cache
  = Some (state1, cache1) ->
  length cache1 = length cache
  /\ cache1 !! pos2 = cache !! pos2
  /\ (exists slot slot1,
         cache !! pos1 = Some slot /\ cache1 !! pos1 = Some slot1 /\ slot ⊆ slot1)
  /\ fst <$> VersionBitsState ALWAYS_ACTIVE NEVER_ACTIVE p2 params pos2 cache1
     = fst <$> VersionBitsState ALWAYS_ACTIVE NEVER_ACTIVE p2 params pos2 cache
  /\ fst <$> VersionBitsStateSinceHeight ALWAYS_ACTIVE NEVER_ACTIVE p2 params pos2 cache1
     = fst <$> VersionBitsStateSinceHeight ALWAYS_ACTIVE NEVER_ACTIVE p2 params pos2 cache.
Proof.
  intros Hwin Hp Hne. unfold VersionBitsState at 1.
  destruct (VersionBitsConditionChecker params pos1) as [checker|] eqn:Hck; [|done].
  destruct (cache !! pos1) as [slot|] eqn:Hslot; [|done]. simpl.
  destruct (GetStateFor ALWAYS_ACTIVE NEVER_ACTIVE checker p1 slot)
    as [[state slot1]|] eqn:HG; [|done].
  simpl. intros Heq. injection Heq as -> <-.
  assert (Period checker = nMinerConfirmationWindow params) as HP.
  { unfold VersionBitsConditionChecker in Hck.
    destruct (vDeployments params !! pos1); [|done].
    simpl in Hck. injection Hck as <-. done. }
  assert (0 < Period checker) as Hpos by lia.
  assert (<[pos1 := slot1]> cache !! pos2 = cache !! pos2) as Hframe
      by (apply list_lookup_insert_ne; done).
  split; [apply length_insert|]. split; [done|]. split.
  - exists slot, slot1. split; [done|]. split.
    + apply list_lookup_insert_eq. apply lookup_lt_Some in Hslot. done.
    + apply (GetStateFor_grows ALWAYS_ACTIVE NEVER_ACTIVE checker Hpos p1 slot state1 slot1);
        done.
  - unfold VersionBitsState, VersionBitsStateSinceHeight. rewrite Hframe.
    destruct (VersionBitsConditionChecker params pos2) as [checker2|]; [|done].
    destruct (cache !! pos2) as [slot2|]; [|done]. simpl.
    destruct (GetStateFor ALWAYS_ACTIVE NEVER_ACTIVE checker2 p2 slot2) as [[s c]|];
      destruct (GetStateSinceHeightFor ALWAYS_ACTIVE NEVER_ACTIVE checker2 p2 slot2)
        as [[h c']|]; done.
Qed.

Lemma deployments_do_not_interfere_witness :
  length [ {[ None := DEFINED ]}; ∅ : ThresholdConditionCache ]
  = length [ ∅; ∅ : ThresholdConditionCache ]
  /\ [ {[ None := DEFINED ]}; ∅ : ThresholdConditionCache ] !! 1%nat
     = [ ∅; ∅ : ThresholdConditionCache ] !! 1%nat
  /\ (exists slot slot1,
         [ ∅; ∅ : ThresholdConditionCache ] !! 0%nat = Some slot
         /\ [ {[ None := DEFINED ]}; ∅ : ThresholdConditionCache ] !! 0%nat = Some slot1
         /\ slot ⊆ slot1)
  /\ fst <$> VersionBitsState (-1) (-2) (Some block63)
               (mkParams [mkBIP9Deployment 28 0 10000 30 0 false;
                          mkBIP9Deployment 0 0 10000 28 0 false] 32) 1
               [ {[ None := DEFINED ]}; ∅ ]
     = fst <$> VersionBitsState (-1) (-2) (Some block63)
                 (mkParams [mkBIP9Deployment 28 0 10000 30 0 false;
                            mkBIP9Deployment 0 0 10000 28 0 false] 32) 1 [ ∅; ∅ ]
  /\ fst <$> VersionBitsStateSinceHeight (-1) (-2) (Some block63)
               (mkParams [mkBIP9Deployment 28 0 10000 30 0 false;
                          mkBIP9Deployment 0 0 10000 28 0 false] 32) 1
               [ {[ None := DEFINED ]}; ∅ ]
     = fst <$> VersionBitsStateSinceHeight (-1) (-2) (Some block63)
                 (mkParams [mkBIP9Deployment 28 0 10000 30 0 false;
                            mkBIP9Deployment 0 0 10000 28 0 false] 32) 1 [ ∅; ∅ ].
Proof.
  apply (deployments_do_not_interfere (-1) (-2)
           (mkParams [mkBIP9Deployment 28 0 10000 30 0 false;
                      mkBIP9Deployment 0 0 10000 28 0 false] 32)
           0 1 None (Some block63) [ ∅; ∅ ] DEFINED [ {[ None := DEFINED ]}; ∅ ]).
  - reflexivity.
  - reflexivity.
  - discriminate.
  - reflexivity.
Defined.

(** ** The statistics of a deployment *)

Lemma filter_length_ext {A : Type} (f g : A -> bool) (l : list A) :
  Forall (fun x => f x = g x) l ->
  length (List.filter f l) = length (List.filter g l).
Proof.
  induction 1 as [|x l Hx _ IH]; [done|].
  simpl. rewrite Hx. destruct (g x); simpl; congruence.
Qed.

(** X26.  [VersionBitsStatistics] counts versions: for a deployment whose
    bit is one of 0..31 and a block at or above the end of the first
    period, on a chain of 32-bit versions, [elapsed] is
    [(height + 1) mod nMinerConfirmationWindow] and [count] is the number
    of the last [elapsed] blocks whose version lies in
    [0x20000000, 0x40000000) and has the deployment's bit set. *)
Theorem version_bits_statistics_count (params : Params) (pos : nat)
    (deployment : BIP9Deployment) (b : CBlockIndex) :
  vDeployments params !! pos = Some deployment -> 0 <= bit deployment < 32 ->
  0 < nMinerConfirmationWindow params -> chain_ok b = true ->
  nMinerConfirmationWindow params - 1 <= nHeight b ->
  Forall (fun x => - 2 ^ 31 <= nVersion x < 2 ^ 31) (ancestry b) ->
  exists stats,
    VersionBitsStatistics (Some b) params pos = Some stats
    /\ stats_period stats = nMinerConfirmationWindow params
    /\ stats_threshold stats = threshold deployment
    /\ stats_elapsed stats = (nHeight b + 1) mod nMinerConfirmationWindow params
    /\ stats_count stats
       = Z.of_nat
           (length
              (List.filter
                 (fun x => (0x20000000 <=? nVersion x) && (nVersion x <? 0x40000000)
                           && Z.testbit (nVersion x) (bit deployment))
                 (take (Z.to_nat (stats_elapsed stats)) (ancestry b)))).
Proof.
  intros Hd [Hbit _] Hwin Hb Hge Hversions.
  unfold VersionBitsStatistics, VersionBitsConditionChecker. rewrite Hd.
  cbn [mbind option_bind].
  set (ck := {| Condition := _; StartHeight := _ |}).
  assert (0 < Period ck) as Hpos by done.
  destruct (statistics_value ck Hpos b Hb) as [_ Hsome].
  rewrite (Hsome Hge). eexists. split; [reflexivity|].
  change (Period ck) with (nMinerConfirmationWindow params).
  pose proof (Z.mod_pos_bound (nHeight b + 1) (nMinerConfirmationWindow params) Hwin)
    as Hmod.
  pose proof (Z.mod_le (nHeight b + 1) (nMinerConfirmationWindow params)) as Hle.
  pose proof (chain_ok_height b Hb) as Hh.
  set (elapsed := (nHeight b + 1) mod nMinerConfirmationWindow params) in *.
  cbn [stats_period stats_threshold stats_elapsed stats_count].
  split; [done|]. split; [done|]. split; [lia|].
  replace (nHeight b - (nHeight b - elapsed)) with elapsed by lia.
  replace (nHeight b - elapsed) with (nHeight b - Z.of_nat (Z.to_nat elapsed)) by lia.
  rewrite <- (take_above b (Z.to_nat elapsed)) by (done || lia).
  unfold signalling. f_equal. apply filter_length_ext.
  apply Forall_take. eapply Forall_impl; [exact Hversions|].
  intros x Hx. cbn [Condition ck]. unfold Mask.
  pose proof (condition_spec (bit deployment) (nVersion x) Hbit Hx) as Hiff.
  apply Bool.eq_iff_eq_true. rewrite Hiff.
  rewrite !andb_true_iff, Z.leb_le, Z.ltb_lt.
  change (2 ^ 29) with 0x20000000. change (2 ^ 30) with 0x40000000. tauto.
Qed.

Lemma version_bits_statistics_count_witness :
  exists stats,
    VersionBitsStatistics (Some block70)
      (mkParams [mkBIP9Deployment 28 0 10000 30 0 false;
                 mkBIP9Deployment 0 0 10000 28 0 false] 32) 1 = Some stats
    /\ stats_period stats
       = nMinerConfirmationWindow
           (mkParams [mkBIP9Deployment 28 0 10000 30 0 false;
                      mkBIP9Deployment 0 0 10000 28 0 false] 32)
    /\ stats_threshold stats = threshold (mkBIP9Deployment 0 0 10000 28 0 false)
    /\ stats_elapsed stats
       = (nHeight block70 + 1)
         mod nMinerConfirmationWindow
               (mkParams [mkBIP9Deployment 28 0 10000 30 0 false;
                          mkBIP9Deployment 0 0 10000 28 0 false] 32)
    /\ stats_count stats
       = Z.of_nat
           (length
              (List.filter
                 (fun x => (0x20000000 <=? nVersion x) && (nVersion x <? 0x40000000)
                           && Z.testbit (nVersion x)
                                (bit (mkBIP9Deployment 0 0 10000 28 0 false)))
                 (take (Z.to_nat (stats_elapsed stats)) (ancestry block70)))).
Proof.
  apply (version_bits_statistics_count
           (mkParams [mkBIP9Deployment 28 0 10000 30 0 false;
                      mkBIP9Deployment 0 0 10000 28 0 false] 32)
           1 (mkBIP9Deployment 0 0 10000 28 0 false) block70).
  - reflexivity.
  - simpl. lia.
  - reflexivity.
  - vm_compute. reflexivity.
  - vm_compute. discriminate.
  - apply (bool_decide_unpack _). vm_compute. exact I.
Defined.

(** ** The final period of the harness *)

(** The loop of the final period: [n] blocks are mined, the counter
    [blocks_sig] grows by the number of them for which the condition
    holds, and in a period that began MUST_SIGNAL the blocks still to come
    always suffice to reach the threshold. *)
Lemma mine_period_loop_spec (ck : AbstractThresholdConditionChecker)
    (exp_state : ThresholdState) (period threshold signalling_mask : Z) (n : nat) :
  forall (b blocks_sig : Z) (blocks : Blocks),
    blocks_ok blocks ->
    (forall x, nVersion x = m_signal blocks -> Condition ck x = true) ->
    (forall x, nVersion x = m_no_signal blocks -> Condition ck x = false) ->
    exists blocks_sig' blocks',
      mine_period_loop exp_state period threshold signalling_mask n b blocks_sig blocks
      = (blocks_sig', blocks')
      /\ blocks_ok blocks'
      /\ m_signal blocks' = m_signal blocks /\ m_no_signal blocks' = m_no_signal blocks
      /\ next_height (tip blocks') = next_height (tip blocks) + Z.of_nat n
      /\ (forall k : nat,
             signalling ck (take (n + k) (ancestry_of (tip blocks')))
             = blocks_sig' - blocks_sig
               + signalling ck (take k (ancestry_of (tip blocks))))
      /\ (exp_state = MUST_SIGNAL -> threshold - blocks_sig <= period - b ->
          threshold - blocks_sig' <= period - (b + Z.of_nat n)).
Proof.
  induction n as [|n IH]; intros b blocks_sig blocks Hok Hsig Hnosig.
  - exists blocks_sig, blocks. split; [done|]. split; [done|]. split; [done|].
    split; [done|]. split; [lia|]. split; [intros k; simpl; lia | lia].
  - cbn [mine_period_loop].
    set (signal := if bool_decide (exp_state = MUST_SIGNAL)
                      && (threshold - blocks_sig >=? period - b)
                   then true else mask_signal signalling_mask b).
    destruct (mine_block_spec blocks signal Hok)
      as (Htip & Hprev & Hheight & Hversion & Hchain & Hok1 & Hs1 & Hn1).
    set (b1 := fst (mine_block blocks signal)) in *.
    set (blocks1 := snd (mine_block blocks signal)) in *.
    destruct (IH (b + 1) (if signal then blocks_sig + 1 else blocks_sig) blocks1 Hok1)
      as (blocks_sig' & blocks' & Heq & Hok' & Hs' & Hn' & Hh' & Hcount & Hreach).
    { intros x Hx. apply Hsig. congruence. }
    { intros x Hx. apply Hnosig. congruence. }
    exists blocks_sig', blocks'. split; [exact Heq|]. split; [done|].
    split; [congruence|]. split; [congruence|].
    rewrite Htip in Hh', Hcount. change (next_height (Some b1)) with (nHeight b1 + 1) in Hh'.
    split; [lia|]. split.
    + intros k. replace (S n + k)%nat with (n + S k)%nat by lia.
      rewrite Hcount. change (ancestry_of (Some b1)) with (ancestry b1).
      rewrite ancestry_unfold, Hprev, firstn_cons, signalling_cons.
      replace (match tip blocks with Some p => ancestry p | None => [] end)
        with (ancestry_of (tip blocks)) by done.
      assert (Condition ck b1 = signal) as ->.
      { destruct signal; [apply Hsig | apply Hnosig]; exact Hversion. }
      destruct signal; lia.
    + intros Hms Hinv.
      assert (threshold - (if signal then blocks_sig + 1 else blocks_sig)
              <= period - (b + 1)) as Hstep.
      { unfold signal. rewrite (bool_decide_eq_true_2 _ Hms). simpl.
        destruct (Z.geb_spec (threshold - blocks_sig) (period - b)); [lia|].
        destruct (mask_signal signalling_mask b); lia. }
      specialize (Hreach Hms Hstep). lia.
Qed.

(** X27.  The final period of the harness: [mine_final_period] mines
    [period] blocks on top of the tip, its counter [blocks_sig] is the
    number of blocks of the period for which the condition holds (the
    count of the STARTED case), and in a period that began MUST_SIGNAL,
    with a threshold below the period (the harness sets lock-in on timeout
    only then), the forced signals make [blocks_sig] reach the
    threshold; so the bound the harness asserts for LOCKED_IN after
    MUST_SIGNAL holds in the harness. *)
Theorem must_signal_period_reaches_threshold (ck : AbstractThresholdConditionChecker)
    (exp_state : ThresholdState) (signalling_mask : Z) (blocks : Blocks) :
  0 < Period ck -> blocks_ok blocks ->
  (forall x, nVersion x = m_signal blocks -> Condition ck x = true) ->
  (forall x, nVersion x = m_no_signal blocks -> Condition ck x = false) ->
  exists blocks_sig blocks',
    mine_final_period exp_state (Period ck) (Threshold ck) signalling_mask blocks
    = (blocks_sig, blocks')
    /\ ptr_ok (tip blocks') = true
    /\ next_height (tip blocks') = next_height (tip blocks) + Period ck
    /\ blocks_sig
       = signalling ck (take (Z.to_nat (Period ck)) (ancestry_of (tip blocks')))
    /\ (exp_state = MUST_SIGNAL -> Threshold ck < Period ck ->
        Threshold ck <= blocks_sig).
Proof.
  intros Hpos Hok Hsig Hnosig. unfold mine_final_period.
  destruct (mine_period_loop_spec ck exp_state (Period ck) (Threshold ck) signalling_mask
              (Z.to_nat (Period ck - 1)) 1 0 blocks Hok Hsig Hnosig)
    as (sig1 & blocks1 & -> & Hok1 & Hs1 & Hn1 & Hh1 & Hcount1 & Hreach).
  set (signal := mask_signal signalling_mask (Period ck)).
  destruct (mine_block_spec blocks1 signal Hok1)
    as (Htip & Hprev & Hheight & Hversion & Hchain & Hok2 & _ & _).
  set (b2 := fst (mine_block blocks1 signal)) in *.
  set (blocks2 := snd (mine_block blocks1 signal)) in *.
  exists (if signal then sig1 + 1 else sig1), blocks2.
  split; [done|]. rewrite Htip. split; [exact Hchain|].
  change (next_height (Some b2)) with (nHeight b2 + 1).
  split; [lia|]. split.
  - replace (Z.to_nat (Period ck)) with (S (Z.to_nat (Period ck - 1))) by lia.
    change (ancestry_of (Some b2)) with (ancestry b2).
    rewrite ancestry_unfold, Hprev, firstn_cons, signalling_cons.
    replace (match tip blocks1 with Some p => ancestry p | None => [] end)
      with (ancestry_of (tip blocks1)) by done.
    pose proof (Hcount1 0%nat) as Hc. rewrite Nat.add_0_r, take_0 in Hc.
    rewrite Hc. change (signalling ck []) with 0.
    assert (Condition ck b2 = signal) as ->.
    { destruct signal; [apply Hsig | apply Hnosig]; congruence. }
    destruct signal; lia.
  - intros Hms Hlt. specialize (Hreach Hms). destruct signal; lia.
Qed.

Lemma must_signal_period_reaches_threshold_witness :
  exists blocks_sig blocks',
    mine_final_period MUST_SIGNAL
      (Period (TestConditionChecker 0 64 0 32 28 0 true))
      (Threshold (TestConditionChecker 0 64 0 32 28 0 true)) 5
      (mkBlocks [] ver_signal ver_nosignal)
    = (blocks_sig, blocks')
    /\ ptr_ok (tip blocks') = true
    /\ next_height (tip blocks')
       = next_height (tip (mkBlocks [] ver_signal ver_nosignal))
         + Period (TestConditionChecker 0 64 0 32 28 0 true)
    /\ blocks_sig
       = signalling (TestConditionChecker 0 64 0 32 28 0 true)
           (take (Z.to_nat (Period (TestConditionChecker 0 64 0 32 28 0 true)))
              (ancestry_of (tip blocks')))
    /\ (MUST_SIGNAL = MUST_SIGNAL ->
        Threshold (TestConditionChecker 0 64 0 32 28 0 true)
        < Period (TestConditionChecker 0 64 0 32 28 0 true) ->
        Threshold (TestConditionChecker 0 64 0 32 28 0 true) <= blocks_sig).
Proof.
  apply (must_signal_period_reaches_threshold
           (TestConditionChecker 0 64 0 32 28 0 true) MUST_SIGNAL 5
           (mkBlocks [] ver_signal ver_nosignal)).
  - reflexivity.
  - apply blocks_ok_empty.
  - intros x. simpl. intros ->. reflexivity.
  - intros x. simpl. intros ->. reflexivity.
Defined.
